(** * arc_orchestrator: the tmux session/window synchronisation client

    A shallow embedding of the pure and state-passing parts of
    [frontend/src/lib/windowCache.ts] and of the [Runs] component
    (command construction, payload decoding, the control-channel
    correlation queue, window normalisation and the token-guarded
    session load), with the properties the specification states about
    them.

    Conventions.
    - A JavaScript string is a [string] (8-bit code units), except in
      [Decode], where [String.fromCharCode] can produce code units above
      255 and strings are lists of UTF-16 code units.
    - A [number] holding a window index is a [Z]; template literals print
      it in decimal ([pretty]).
    - [Map<string, T>] is [gmap string T] where only lookups matter, and
      an insertion-ordered association list where iteration order is
      observable.
    - React state and refs are fields of explicit state records; every
      handler is a function from state to state. *)

From stdpp Require Import base option list strings pretty gmap fin_maps.
From Stdlib Require Import ZArith Ascii String Lia Sorting.Sorted Sorting.Permutation.

Local Open Scope string_scope.
Local Open Scope Z_scope.

(** ** JavaScript string primitives *)

Module Js.

(** The empty string, and string truthiness ([if (s)], [s.length ? a : b]). *)
Definition empty : string := EmptyString.

Definition truthy (s : string) : bool :=
  match s with EmptyString => false | String _ _ => true end.

(** [s.startsWith(p)] *)
Fixpoint startsWith (s p : string) {struct p} : bool :=
  match p, s with
  | EmptyString, _ => true
  | String _ _, EmptyString => false
  | String a p', String b s' => bool_decide (a = b) && startsWith s' p'
  end.

(** White space and line terminators removed by [String.prototype.trim],
    restricted to 8-bit code units: TAB, LF, VT, FF, CR, SP and NBSP. *)
Definition isWhite (c : ascii) : bool :=
  let n := nat_of_ascii c in
  ((9 <=? n)%nat && (n <=? 13)%nat) || (n =? 32)%nat || (n =? 160)%nat.

Fixpoint trimStart (s : string) : string :=
  match s with
  | EmptyString => EmptyString
  | String c s' => if isWhite c then trimStart s' else s
  end.

Fixpoint trimEnd (s : string) : string :=
  match s with
  | EmptyString => EmptyString
  | String c s' =>
      let t := trimEnd s' in
      if isWhite c && negb (truthy t) then EmptyString else String c t
  end.

(** [s.trim()] *)
Definition trim (s : string) : string := trimEnd (trimStart s).

(** [s.split(sep)] for a one-character separator; never the empty list. *)
Fixpoint split (sep : ascii) (s : string) : list string :=
  match s with
  | EmptyString => [EmptyString]
  | String c s' =>
      if bool_decide (c = sep) then EmptyString :: split sep s'
      else match split sep s' with
           | hd :: tl => String c hd :: tl
           | [] => [String c EmptyString]
           end
  end.

(** [s.indexOf(c)]; [None] stands for -1. *)
Fixpoint indexOf (c : ascii) (s : string) : option nat :=
  match s with
  | EmptyString => None
  | String a s' =>
      if bool_decide (a = c) then Some 0%nat else S <$> indexOf c s'
  end.

(** [s.slice(n)] and [s.slice(0, n)] for [0 <= n]. *)
Fixpoint sliceFrom (n : nat) (s : string) : string :=
  match n, s with
  | O, _ => s
  | S _, EmptyString => EmptyString
  | S n', String _ s' => sliceFrom n' s'
  end.

Fixpoint sliceTo (n : nat) (s : string) : string :=
  match n, s with
  | O, _ => EmptyString
  | S _, EmptyString => EmptyString
  | S n', String c s' => String c (sliceTo n' s')
  end.

(** [chunks.join(sep)] *)
Fixpoint join (sep : string) (chunks : list string) : string :=
  match chunks with
  | [] => EmptyString
  | [x] => x
  | x :: rest => x +:+ sep +:+ join sep rest
  end.

(** Every character of [s] satisfies [p]. *)
Fixpoint all (p : ascii -> bool) (s : string) : bool :=
  match s with
  | EmptyString => true
  | String c s' => p c && all p s'
  end.

(** [s.replace(/c/g, r)] for a one-character pattern and a replacement
    text without [$]. *)
Fixpoint replaceChar (c : ascii) (r : string) (s : string) : string :=
  match s with
  | EmptyString => EmptyString
  | String a s' =>
      if bool_decide (a = c) then r +:+ replaceChar c r s'
      else String a (replaceChar c r s')
  end.

Definition space : ascii := " "%char.
Definition newline : ascii := "010"%char.
Definition dquote : ascii := "034"%char.
Definition squote : ascii := "'"%char.

End Js.

(** ** [lib/windowCache.ts] *)

Module WindowCache.

Record CacheWindow := {
  cw_index : Z;
  cw_id : option string;   (* [id?: string | null] *)
}.

Definition normalizeId (id : option string) : string :=
  Js.trim (default Js.empty id).

Definition buildWindowCacheKey
    (scope sessionName : string) (index : Z) (id : option string) : string :=
  let normalized := normalizeId id in
  let base := if Js.truthy normalized
              then "id:" +:+ normalized else "idx:" +:+ pretty index in
  scope +:+ "/" +:+ sessionName +:+ "/" +:+ base.

Definition sessionPrefix (scope sessionName : string) : string :=
  scope +:+ "/" +:+ sessionName +:+ "/".

Definition keepSet (scope sessionName : string) (windows : list CacheWindow)
  : gset string :=
  list_to_set
    ((fun w => buildWindowCacheKey scope sessionName (cw_index w) (cw_id w))
       <$> windows).

(** The loop body of [pruneWindowCache], run over a snapshot of the keys. *)
Definition pruneKey {T} (prefix : string) (keep : gset string)
    (cache : gmap string T) (key : string) : gmap string T :=
  if Js.startsWith key prefix && negb (bool_decide (key ∈ keep))
  then delete key cache else cache.

Definition pruneWindowCache {T} (cache : gmap string T)
    (scope sessionName : string) (windows : list CacheWindow) : gmap string T :=
  let prefix := sessionPrefix scope sessionName in
  let keep := keepSet scope sessionName windows in
  foldl (pruneKey prefix keep) cache (map_to_list cache).*1.

Definition clearKey {T} (prefix : string)
    (cache : gmap string T) (key : string) : gmap string T :=
  if Js.startsWith key prefix then delete key cache else cache.

Definition clearWindowCacheForSession {T} (cache : gmap string T)
    (scope sessionName : string) : gmap string T :=
  foldl (clearKey (sessionPrefix scope sessionName)) cache
        (map_to_list cache).*1.

End WindowCache.

(** ** Generated command text ([Runs]: [escapeArg] and the builders) *)

Module Commands.

(** The character class [[A-Za-z0-9_@:\-]]. *)
Definition argChar (c : ascii) : bool :=
  let n := nat_of_ascii c in
  ((65 <=? n)%nat && (n <=? 90)%nat)        (* A-Z *)
  || ((97 <=? n)%nat && (n <=? 122)%nat)    (* a-z *)
  || ((48 <=? n)%nat && (n <=? 57)%nat)     (* 0-9 *)
  || (n =? 95)%nat                          (* _ *)
  || (n =? 64)%nat                          (* @ *)
  || (n =? 58)%nat                          (* : *)
  || (n =? 45)%nat.                         (* - *)

(** [/^[A-Za-z0-9_@:\-]+$/.test(value)]: one or more characters, all in
    the class. *)
Definition plainArg (value : string) : bool :=
  Js.truthy value && Js.all argChar value.

(** The replacement text for a single quote: quote, double quote, quote,
    double quote, quote. *)
Definition quoteEscape : string :=
  String Js.squote (String Js.dquote (String Js.squote
    (String Js.dquote (String Js.squote EmptyString)))).

Definition escapeArg (value : string) : string :=
  if plainArg value then value
  else "'" +:+ Js.replaceChar Js.squote quoteEscape value +:+ "'".

Definition buildSendKeysControlCommand
    (target keys : string) (withEnter : bool) : list string :=
  let literal := "send-keys -t " +:+ escapeArg target +:+ " -l " +:+ escapeArg keys in
  if negb withEnter then [literal]
  else
    let enter := "send-keys -t " +:+ escapeArg target +:+ " Enter" in
    [literal; enter].

End Commands.

(** ** Payload decoding ([decodeTmuxData])

    [String.fromCharCode] yields code units up to 0o777 = 511 here, so
    this module works on UTF-16 code units. *)

Module Decode.

Definition jsstring := list N.

Definition ofString (s : string) : jsstring :=
  map N_of_ascii (list_ascii_of_string s).

Definition backslash : N := 92%N.

(** [\d] *)
Definition isDigit (c : N) : bool := (48 <=? c)%N && (c <=? 57)%N.

Definition isOctalDigit (c : N) : bool := (48 <=? c)%N && (c <=? 55)%N.

(** [parseInt(digits, 8)]: the value of the longest prefix of octal
    digits, [None] (NaN) when the first character is no octal digit. *)
Fixpoint parseOctalFrom (acc : N) (digits : list N) : N :=
  match digits with
  | d :: rest =>
      if isOctalDigit d then parseOctalFrom (8 * acc + (d - 48))%N rest else acc
  | [] => acc
  end.

Definition parseInt8 (digits : list N) : option N :=
  match digits with
  | d :: _ => if isOctalDigit d then Some (parseOctalFrom 0%N digits) else None
  | [] => None
  end.

(** [String.fromCharCode(n)]: ToUint16, with NaN mapped to 0. *)
Definition fromCharCode (n : option N) : N :=
  match n with
  | Some v => (v mod 65536)%N
  | None => 0%N
  end.

(** [s.replace(/\\(\d{3})/g, (_, digits) => String.fromCharCode(parseInt(digits, 8)))]:
    scanning left to right, a backslash followed by three digits is
    replaced and the scan resumes after it. *)
Fixpoint replaceOctal (s : jsstring) : jsstring :=
  match s with
  | [] => []
  | c :: t =>
      match t with
      | d1 :: d2 :: d3 :: rest =>
          if (c =? backslash)%N && isDigit d1 && isDigit d2 && isDigit d3
          then fromCharCode (parseInt8 [d1; d2; d3]) :: replaceOctal rest
          else c :: replaceOctal t
      | _ => c :: replaceOctal t
      end
  end.

(** [s.replace(/\\\\/g, "\\")]: each leftmost pair of backslashes becomes
    one. *)
Fixpoint collapseBackslashes (s : jsstring) : jsstring :=
  match s with
  | [] => []
  | c :: t =>
      match t with
      | c' :: rest =>
          if (c =? backslash)%N && (c' =? backslash)%N
          then backslash :: collapseBackslashes rest
          else c :: collapseBackslashes t
      | [] => [c]
      end
  end.

(** [chunks.join('')]: concatenation without a separator. *)
Definition joinChunks (chunks : list jsstring) : jsstring := List.concat chunks.

Definition decodeTmuxData (chunks : list jsstring) : jsstring :=
  let joined := joinChunks chunks in
  let octalReplaced := replaceOctal joined in
  collapseBackslashes octalReplaced.

End Decode.

(** ** Connection profiles and cache scopes *)

Module Profile.

Inductive Auth := AuthAgent | AuthKey | AuthPassword.

Record HostProfile := {
  host : string;
  port : option Z;
  user : string;
  auth : option Auth;
  key_path : option string;
  key_pass : option string;
  use_agent : option bool;
  password : option string;
}.

Inductive Mode :=
  | Local
  | Remote (profile : HostProfile).

Definition isRemote (m : Mode) : bool :=
  match m with Remote _ => true | Local => false end.

(** A copy with the same field values; object identity is not modelled. *)
Definition cloneProfile (profile : HostProfile) : HostProfile :=
  {| host := host profile; port := port profile; user := user profile;
     auth := auth profile; key_path := key_path profile;
     key_pass := key_pass profile; use_agent := use_agent profile;
     password := password profile |}.

Definition resolveEffectiveProfile (mode : Mode)
    (profileOverride : option HostProfile) : option HostProfile :=
  match profileOverride with
  | Some p => Some (cloneProfile p)
  | None =>
      match mode with
      | Remote p => Some (cloneProfile p)
      | Local => None
      end
  end.

Definition scopeKeyForProfile (profile : option HostProfile) : string :=
  match profile with
  | None => "local"
  | Some p =>
      "remote:" +:+ user p +:+ "@" +:+ host p +:+ ":" +:+ pretty (default 22 (port p))
  end.

Definition sessionCacheKeyForScope (scope session : string) : string :=
  scope +:+ "/" +:+ session.

(** [cacheScope(profileOverride)] of the component, for the ambient [mode]. *)
Definition cacheScope (mode : Mode) (profileOverride : option HostProfile) : string :=
  match profileOverride with
  | Some p => scopeKeyForProfile (Some p)
  | None =>
      match mode with
      | Remote p => scopeKeyForProfile (Some p)
      | Local => "local"
      end
  end.

Definition controlSessionKeyFor (profile : HostProfile) (session : string) : string :=
  user profile +:+ "@" +:+ host profile +:+ ":" +:+ pretty (default 22 (port profile))
    +:+ "#" +:+ session.

End Profile.

(** ** The control channel: lifecycle and command correlation

    The refs and React state the control code reads and writes, the
    [controlStateRef] queues, and one function per handler. Promises
    handed to callers are entries of a table of outcomes; the Executor's
    calls are recorded, and their completions and the events of the line
    stream come back as [Event]s. *)

Module Control.
Import Profile.

(** A [ControlPending] object. [entryId] stands for the identity of the
    object (and of its promise): [pending.indexOf(entry)] compares by
    identity. An entry sits in at most one container at a time, so the
    in-place [entry.data.push] is a functional update of the stored
    record. *)
Record ControlPending := {
  entryId : nat;
  command : string;
  data : list string;
}.

(** How a promise was settled; a promise absent from the table is still
    unsettled. *)
Inductive Settled :=
  | Resolved (chunks : list string)
  | Rejected (message : string).

(** Status-line messages set by the control code. *)
Inductive StatusMsg :=
  | MsgNone
  | MsgControlStartFailed (err : string)
  | MsgControlCommandFailed (message : string)
  | MsgControlLost.

(** Calls to the Executor and scheduled refreshes started by the control
    code; none of them is awaited by the code that starts it. *)
Inductive Effect :=
  | CallStartControl (session : string) (profile : HostProfile)
  | CallStopControl (session : string) (profile : HostProfile)
  | CallControlSend (entry : nat) (session command : string) (profile : HostProfile)
  | LoadWindowsThenPaneRefresh (session : string)
  | SchedulePaneRefresh.

Record State := {
  (* React state *)
  mode : Mode;
  controlSessionKey : option string;
  controlDisconnected : bool;
  msg : StatusMsg;
  (* refs *)
  controlRef : option (string * HostProfile);
  controlSessionKeyRef : option string;
  controlStartedRef : bool;
  (* controlStateRef.current *)
  pending : list ControlPending;
  inflight : gmap string ControlPending;
  (* promises handed to callers, and identity supply *)
  promises : gmap nat Settled;
  nextId : nat;
  effects : list Effect;
}.

Definition initial (m : Mode) : State :=
  {| mode := m; controlSessionKey := None; controlDisconnected := false;
     msg := MsgNone; controlRef := None; controlSessionKeyRef := None;
     controlStartedRef := false; pending := []; inflight := ∅;
     promises := ∅; nextId := 0%nat; effects := [] |}.

(** Field updates: [setX v st] is [st] with field [X] replaced by [v]. *)
Definition setMode (v : Mode) (st : State) : State :=
  {| mode := v; controlSessionKey := controlSessionKey st;
     controlDisconnected := controlDisconnected st; msg := msg st;
     controlRef := controlRef st;
     controlSessionKeyRef := controlSessionKeyRef st;
     controlStartedRef := controlStartedRef st; pending := pending st;
     inflight := inflight st; promises := promises st; nextId := nextId st;
     effects := effects st |}.

Definition setControlSessionKey (v : option string) (st : State) : State :=
  {| mode := mode st; controlSessionKey := v;
     controlDisconnected := controlDisconnected st; msg := msg st;
     controlRef := controlRef st;
     controlSessionKeyRef := controlSessionKeyRef st;
     controlStartedRef := controlStartedRef st; pending := pending st;
     inflight := inflight st; promises := promises st; nextId := nextId st;
     effects := effects st |}.

Definition setControlDisconnected (v : bool) (st : State) : State :=
  {| mode := mode st; controlSessionKey := controlSessionKey st;
     controlDisconnected := v; msg := msg st; controlRef := controlRef st;
     controlSessionKeyRef := controlSessionKeyRef st;
     controlStartedRef := controlStartedRef st; pending := pending st;
     inflight := inflight st; promises := promises st; nextId := nextId st;
     effects := effects st |}.

Definition setMsg (v : StatusMsg) (st : State) : State :=
  {| mode := mode st; controlSessionKey := controlSessionKey st;
     controlDisconnected := controlDisconnected st; msg := v;
     controlRef := controlRef st;
     controlSessionKeyRef := controlSessionKeyRef st;
     controlStartedRef := controlStartedRef st; pending := pending st;
     inflight := inflight st; promises := promises st; nextId := nextId st;
     effects := effects st |}.

Definition setControlRef (v : option (string * HostProfile)) (st : State) : State :=
  {| mode := mode st; controlSessionKey := controlSessionKey st;
     controlDisconnected := controlDisconnected st; msg := msg st;
     controlRef := v; controlSessionKeyRef := controlSessionKeyRef st;
     controlStartedRef := controlStartedRef st; pending := pending st;
     inflight := inflight st; promises := promises st; nextId := nextId st;
     effects := effects st |}.

Definition setControlSessionKeyRef (v : option string) (st : State) : State :=
  {| mode := mode st; controlSessionKey := controlSessionKey st;
     controlDisconnected := controlDisconnected st; msg := msg st;
     controlRef := controlRef st; controlSessionKeyRef := v;
     controlStartedRef := controlStartedRef st; pending := pending st;
     inflight := inflight st; promises := promises st; nextId := nextId st;
     effects := effects st |}.

Definition setControlStartedRef (v : bool) (st : State) : State :=
  {| mode := mode st; controlSessionKey := controlSessionKey st;
     controlDisconnected := controlDisconnected st; msg := msg st;
     controlRef := controlRef st;
     controlSessionKeyRef := controlSessionKeyRef st; controlStartedRef := v;
     pending := pending st; inflight := inflight st; promises := promises st;
     nextId := nextId st; effects := effects st |}.

Definition setPending (v : list ControlPending) (st : State) : State :=
  {| mode := mode st; controlSessionKey := controlSessionKey st;
     controlDisconnected := controlDisconnected st; msg := msg st;
     controlRef := controlRef st;
     controlSessionKeyRef := controlSessionKeyRef st;
     controlStartedRef := controlStartedRef st; pending := v;
     inflight := inflight st; promises := promises st; nextId := nextId st;
     effects := effects st |}.

Definition setInflight (v : gmap string ControlPending) (st : State) : State :=
  {| mode := mode st; controlSessionKey := controlSessionKey st;
     controlDisconnected := controlDisconnected st; msg := msg st;
     controlRef := controlRef st;
     controlSessionKeyRef := controlSessionKeyRef st;
     controlStartedRef := controlStartedRef st; pending := pending st;
     inflight := v; promises := promises st; nextId := nextId st;
     effects := effects st |}.

Definition setPromises (v : gmap nat Settled) (st : State) : State :=
  {| mode := mode st; controlSessionKey := controlSessionKey st;
     controlDisconnected := controlDisconnected st; msg := msg st;
     controlRef := controlRef st;
     controlSessionKeyRef := controlSessionKeyRef st;
     controlStartedRef := controlStartedRef st; pending := pending st;
     inflight := inflight st; promises := v; nextId := nextId st;
     effects := effects st |}.

Definition setNextId (v : nat) (st : State) : State :=
  {| mode := mode st; controlSessionKey := controlSessionKey st;
     controlDisconnected := controlDisconnected st; msg := msg st;
     controlRef := controlRef st;
     controlSessionKeyRef := controlSessionKeyRef st;
     controlStartedRef := controlStartedRef st; pending := pending st;
     inflight := inflight st; promises := promises st; nextId := v;
     effects := effects st |}.

Definition setEffects (v : list Effect) (st : State) : State :=
  {| mode := mode st; controlSessionKey := controlSessionKey st;
     controlDisconnected := controlDisconnected st; msg := msg st;
     controlRef := controlRef st;
     controlSessionKeyRef := controlSessionKeyRef st;
     controlStartedRef := controlStartedRef st; pending := pending st;
     inflight := inflight st; promises := promises st; nextId := nextId st;
     effects := v |}.

(** [st |> f |> g]: the statements [f], then [g], run on [st]. *)
Local Notation "st |> f" := (f st) (at level 45, left associativity, only parsing).

(** Settling a promise: only the first [resolve]/[reject] counts. *)
Definition settle (id : nat) (o : Settled) (p : gmap nat Settled) : gmap nat Settled :=
  match p !! id with
  | Some _ => p
  | None => <[id := o]> p
  end.

Definition rejectAll (message : string) (entries : list ControlPending)
    (p : gmap nat Settled) : gmap nat Settled :=
  foldl (fun acc e => settle (entryId e) (Rejected message) acc) p entries.

Definition inflightEntries (st : State) : list ControlPending :=
  (map_to_list (inflight st)).*2.

Definition addEffect (e : Effect) (st : State) : State :=
  setEffects (effects st ++ [e]) st.

Definition resetControlQueues (reason : option string) (st : State) : State :=
  let error :=
    match reason with
    | Some r => if Js.truthy r then r else "control session reset"
    | None => "control session reset"
    end in
  st |> setPromises (rejectAll error (inflightEntries st)
                       (rejectAll error (pending st) (promises st)))
     |> setPending []
     |> setInflight ∅.

Definition startControlSession (sessionName : string) (profile : HostProfile)
    (st : State) : State :=
  let cloned := cloneProfile profile in
  let key := controlSessionKeyFor cloned sessionName in
  st |> setControlRef (Some (sessionName, cloned))
     |> setControlSessionKeyRef (Some key)
     |> setControlSessionKey (Some key)
     |> setControlDisconnected false
     |> setControlStartedRef false
     |> resetControlQueues None
     |> addEffect (CallStartControl sessionName cloned).

(** The [.catch] of the start request. *)
Definition startControlFailed (err : string) (st : State) : State :=
  st |> setControlDisconnected true
     |> setMsg (MsgControlStartFailed err).

Definition stopControlSession (st : State) : State :=
  match controlRef st with
  | None => st
  | Some (session, profile) =>
      st |> resetControlQueues None
         |> addEffect (CallStopControl session profile)
         |> setControlSessionKey None
         |> setControlSessionKeyRef None
         |> setControlDisconnected false
         |> setControlStartedRef false
  end.

Definition controlReady (st : State) : bool :=
  isRemote (mode st)
  && negb (controlDisconnected st)
  && bool_decide (controlRef st <> None)
  && bool_decide (controlSessionKeyRef st <> None)
  && controlStartedRef st.

(** Replace the correlation structures and leave the rest untouched. *)
Definition withQueues (p : list ControlPending) (i : gmap string ControlPending)
    (pr : gmap nat Settled) (st : State) : State :=
  st |> setPending p |> setInflight i |> setPromises pr.

(** The message of the error built by the [%%end] branch: the lines
    joined by newlines, or [tmux error <status>] when that text is
    falsy. *)
Definition endErrorMessage (lines : list string) (status : string) : string :=
  let joined := Js.join (String Js.newline EmptyString) lines in
  if Js.truthy joined then joined else "tmux error " +:+ status.

Definition handleBegin (line : string) (st : State) : State :=
  let parts := Js.split Js.space line in
  match parts !! 1%nat with
  | None => st          (* unreachable: the line starts with "%%begin " *)
  | Some tag =>
      match pending st with
      | entry :: rest =>
          withQueues rest (<[tag := entry]> (inflight st)) (promises st) st
      | [] => st        (* console.warn only *)
      end
  end.

Definition handleData (line : string) (st : State) : State :=
  let rest := Js.sliceFrom 7 line in      (* "%%data ".length *)
  match Js.indexOf Js.space rest with
  | None => st
  | Some spaceIdx =>
      let tag := Js.sliceTo spaceIdx rest in
      let payload := Js.sliceFrom (S spaceIdx) rest in
      match inflight st !! tag with
      | Some entry =>
          let entry' := {| entryId := entryId entry; command := command entry;
                           data := data entry ++ [payload] |} in
          withQueues (pending st) (<[tag := entry']> (inflight st)) (promises st) st
      | None => st
      end
  end.

Definition handleEnd (line : string) (st : State) : State :=
  let parts := Js.split Js.space line in
  match parts !! 1%nat with
  | None => st          (* unreachable: the line starts with "%%end " *)
  | Some tag =>
      let status := default "0" (parts !! 2%nat) in
      match inflight st !! tag with
      | Some entry =>
          let outcome :=
            if bool_decide (status = "0") then Resolved (data entry)
            else Rejected (endErrorMessage (data entry) status) in
          withQueues (pending st) (delete tag (inflight st))
                     (settle (entryId entry) outcome (promises st)) st
      | None => st
      end
  end.

Definition handleControlLine (line : string) (st : State) : State :=
  if Js.startsWith line "%%begin " then handleBegin line st
  else if Js.startsWith line "%%data " then handleData line st
  else if Js.startsWith line "%%end " then handleEnd line st
  else if Js.startsWith line "%window-" || Js.startsWith line "%session-" then
    match controlRef st with
    | Some (session, _) => addEffect (LoadWindowsThenPaneRefresh session) st
    | None => st
    end
  else if Js.startsWith line "%output" then
    if isRemote (mode st) then addEffect SchedulePaneRefresh st else st
  else st.              (* "%error": console.error only; anything else: ignored *)

(** [sendControlCommand]: the new promise's identity and the state after
    the synchronous part of the call. *)
Definition sendControlCommand (cmd : string) (st : State) : nat * State :=
  let id := nextId st in
  let active :=
    match controlRef st, controlSessionKeyRef st with
    | Some c, Some k => if Js.truthy k then Some c else None
    | _, _ => None
    end in
  match active with
  | None =>
      (id,
       st |> setNextId (S id)
          |> setPromises (settle id (Rejected "control session inactive") (promises st)))
  | Some (session, profile) =>
      let entry := {| entryId := id; command := cmd; data := [] |} in
      (id,
       st |> setNextId (S id)
          |> setPending (pending st ++ [entry])
          |> addEffect (CallControlSend id session cmd profile))
  end.

(** [pending.indexOf(entry)] followed by [splice(idx, 1)]: drop the first
    element that is this very object. *)
Fixpoint removeEntry (id : nat) (q : list ControlPending) : list ControlPending :=
  match q with
  | [] => []
  | e :: rest => if bool_decide (entryId e = id) then rest else e :: removeEntry id rest
  end.

(** The [.catch] handler of the send of entry [id], run when the
    Executor's [controlSend] rejects with [message]. *)
Definition controlSendFailed (id : nat) (message : string) (st : State) : State :=
  st |> setPending (removeEntry id (pending st))
     |> setControlDisconnected true
     |> setMsg (MsgControlCommandFailed message)
     |> setPromises (settle id (Rejected message) (promises st)).

(** A successful [controlSend] has no continuation. *)
Definition controlSendSucceeded (id : nat) (st : State) : State := st.

(** The payload of a [tmux-control-event]. *)
Record ControlEventPayload := {
  ev_key : string;
  ev_kind : string;
  ev_line : option string;
}.

Definition controlEventListener (payload : option ControlEventPayload)
    (st : State) : State :=
  match payload with
  | None => st
  | Some p =>
      if negb (bool_decide (Some (ev_key p) = controlSessionKeyRef st)) then st
      else if bool_decide (ev_kind p = "line") then
        match ev_line p with
        | Some l => if Js.truthy l then handleControlLine l st else st
        | None => st
        end
      else if bool_decide (ev_kind p = "started") then
        st |> resetControlQueues None
           |> setControlDisconnected false
      else if bool_decide (ev_kind p = "stopped") || bool_decide (ev_kind p = "closed") then
        st |> resetControlQueues (Some "control session stopped")
           |> setControlDisconnected true
           |> setControlSessionKey None
           |> setControlSessionKeyRef None
           |> setMsg MsgControlLost
      else st           (* "error": console.error only; default: nothing *)
  end.

(** Everything that can happen to the control state. *)
Inductive Event :=
  | EvStart (session : string) (profile : HostProfile)
  | EvStartFailed (err : string)
  | EvStop
  | EvSend (cmd : string)
  | EvSendSucceeded (id : nat)
  | EvSendFailed (id : nat) (message : string)
  | EvControl (payload : option ControlEventPayload)
  | EvSetMode (m : Mode).

Definition step (st : State) (e : Event) : State :=
  match e with
  | EvStart s p => startControlSession s p st
  | EvStartFailed err => startControlFailed err st
  | EvStop => stopControlSession st
  | EvSend cmd => snd (sendControlCommand cmd st)
  | EvSendSucceeded id => controlSendSucceeded id st
  | EvSendFailed id m => controlSendFailed id m st
  | EvControl p => controlEventListener p st
  | EvSetMode m => setMode m st
  end.

Definition run (st : State) (events : list Event) : State := foldl step st events.

End Control.

(** ** Window normalisation ([normalizeWindows]) *)

Module Windows.
Import Profile.

Record TmuxWindow := {
  index : Z;
  id : option string;      (* read with [?.] and [??]: may be null *)
  name : string;
  active : bool;
  panes : Z;
}.

Definition toCacheWindow (w : TmuxWindow) : WindowCache.CacheWindow :=
  {| WindowCache.cw_index := index w; WindowCache.cw_id := id w |}.

(** [cacheKeyFor(sessionName, w, profileOverride)] *)
Definition cacheKeyFor (mode : Mode) (sessionName : string) (w : TmuxWindow)
    (profileOverride : option HostProfile) : string :=
  WindowCache.buildWindowCacheKey (cacheScope mode profileOverride) sessionName
                                  (index w) (id w).

(** The local [Map<string, TmuxWindow>], in insertion order. *)
Definition ordmap := list (string * TmuxWindow).

Fixpoint mapGet (key : string) (m : ordmap) : option TmuxWindow :=
  match m with
  | [] => None
  | (k, v) :: rest => if bool_decide (k = key) then Some v else mapGet key rest
  end.

(** [Map.set]: an existing key keeps its position, a new one goes last. *)
Fixpoint mapSet (key : string) (v : TmuxWindow) (m : ordmap) : ordmap :=
  match m with
  | [] => [(key, v)]
  | (k, x) :: rest =>
      if bool_decide (k = key) then (k, v) :: rest else (k, x) :: mapSet key v rest
  end.

(** [w.id?.trim()], the empty string when [w.id] is null or undefined. *)
Definition trimmedIdOf (w : TmuxWindow) : string :=
  match id w with
  | Some i => Js.trim i
  | None => Js.empty
  end.

(** The grouping key of a row inside [normalizeWindows]. *)
Definition identityKey (w : TmuxWindow) : string :=
  let trimmedId := trimmedIdOf w in
  if Js.truthy trimmedId then "id:" +:+ trimmedId else "idx:" +:+ pretty (index w).

(** The name given to a row, and the name cache after it: a non-empty
    trimmed name is stored, an empty one is replaced by a non-empty
    cached name when there is one. *)
Definition resolveName (cacheKey : string) (w : TmuxWindow)
    (nameCache : gmap string string) : string * gmap string string :=
  let trimmedName := Js.trim (name w) in
  if Js.truthy trimmedName then (trimmedName, <[cacheKey := trimmedName]> nameCache)
  else
    match nameCache !! cacheKey with
    | Some cached => if Js.truthy cached then (cached, nameCache) else (trimmedName, nameCache)
    | None => (trimmedName, nameCache)
    end.

Definition candidateOf (w : TmuxWindow) (resolved : string) : TmuxWindow :=
  let trimmedId := trimmedIdOf w in
  {| index := index w;
     id := if Js.truthy trimmedId then Some trimmedId else id w;
     name := resolved;
     active := active w;
     panes := panes w |}.

Definition useCandidate (candidate existing : TmuxWindow) : bool :=
  let existingName := Js.trim (name existing) in
  let candidateName := name candidate in
  (String.length existingName <? String.length candidateName)%nat
  || ((String.length candidateName =? String.length existingName)%nat
      && active candidate && negb (active existing)).

(** One iteration of the [for (const w of ws)] loop. *)
Definition normalizeRow (mode : Mode) (sessionName : string)
    (acc : ordmap * gmap string string) (w : TmuxWindow)
  : ordmap * gmap string string :=
  let '(byKey, nameCache) := acc in
  let key := identityKey w in
  let cacheKey := cacheKeyFor mode sessionName w None in
  let '(trimmedName, nameCache') := resolveName cacheKey w nameCache in
  let candidate := candidateOf w trimmedName in
  match mapGet key byKey with
  | None => (mapSet key candidate byKey, nameCache')
  | Some existing =>
      if useCandidate candidate existing
      then (mapSet key candidate byKey, nameCache')
      else (byKey, nameCache')
  end.

(** [Array.prototype.sort] with [(a, b) => a.index - b.index]: a stable
    sort by index. *)
Fixpoint insertByIndex (w : TmuxWindow) (l : list TmuxWindow) : list TmuxWindow :=
  match l with
  | [] => [w]
  | x :: rest => if (index w <=? index x)%Z then w :: x :: rest
                 else x :: insertByIndex w rest
  end.

Definition sortByIndex (l : list TmuxWindow) : list TmuxWindow :=
  foldr insertByIndex [] l.

Definition groupRows (mode : Mode) (sessionName : string) (ws : list TmuxWindow)
    (nameCache : gmap string string) : ordmap * gmap string string :=
  foldl (normalizeRow mode sessionName) ([], nameCache) ws.

(** The returned list and the name cache after the call. *)
Definition normalizeWindows (mode : Mode) (sessionName : string)
    (ws : list TmuxWindow) (nameCache : gmap string string)
  : list TmuxWindow * gmap string string :=
  let '(byKey, nameCache') := groupRows mode sessionName ws nameCache in
  (sortByIndex byKey.*2, nameCache').

End Windows.

(** ** The token-guarded background fetch of [selectSession]

    The async block that [selectSession] starts after taking a token:
    each continuation of an [await] is a function on the state, applied
    to the outcome of the awaited call. [getWindows] and [getPane] reach
    the Executor and touch no state of the component on the way (the
    control-channel branch needs [controlReady()]); what they return is
    the [Outcome] given to the continuation. *)

Module SessionLoad.
Import Profile Windows.

Inductive StatusMsg :=
  | MsgEmpty
  | MsgLoading (session : string)
  | MsgNoWindows (session : string)
  | MsgLoadFailed (session raw : string).

Record State := {
  (* React state *)
  windows : list TmuxWindow;
  activeWin : option Z;
  activeWinId : option string;
  paneText : string;
  msg : StatusMsg;
  pollPaused : bool;
  sessionLoading : bool;
  (* refs *)
  nameCache : gmap string string;
  paneCache : gmap string string;
  windowsCache : gmap string (list TmuxWindow);
  remoteSessionToken : Z;
  activeWinRef : option Z;
  activeWinIdRef : option string;
}.

(** Field updates: [setX v st] is [st] with field [X] replaced by [v]. *)
Definition setWindows (v : list TmuxWindow) (st : State) : State :=
  {| windows := v; activeWin := activeWin st; activeWinId := activeWinId st;
     paneText := paneText st; msg := msg st; pollPaused := pollPaused st;
     sessionLoading := sessionLoading st; nameCache := nameCache st;
     paneCache := paneCache st; windowsCache := windowsCache st;
     remoteSessionToken := remoteSessionToken st;
     activeWinRef := activeWinRef st; activeWinIdRef := activeWinIdRef st |}.

Definition setActiveWin (v : option Z) (st : State) : State :=
  {| windows := windows st; activeWin := v; activeWinId := activeWinId st;
     paneText := paneText st; msg := msg st; pollPaused := pollPaused st;
     sessionLoading := sessionLoading st; nameCache := nameCache st;
     paneCache := paneCache st; windowsCache := windowsCache st;
     remoteSessionToken := remoteSessionToken st;
     activeWinRef := activeWinRef st; activeWinIdRef := activeWinIdRef st |}.

Definition setActiveWinId (v : option string) (st : State) : State :=
  {| windows := windows st; activeWin := activeWin st; activeWinId := v;
     paneText := paneText st; msg := msg st; pollPaused := pollPaused st;
     sessionLoading := sessionLoading st; nameCache := nameCache st;
     paneCache := paneCache st; windowsCache := windowsCache st;
     remoteSessionToken := remoteSessionToken st;
     activeWinRef := activeWinRef st; activeWinIdRef := activeWinIdRef st |}.

Definition setPaneText (v : string) (st : State) : State :=
  {| windows := windows st; activeWin := activeWin st;
     activeWinId := activeWinId st; paneText := v; msg := msg st;
     pollPaused := pollPaused st; sessionLoading := sessionLoading st;
     nameCache := nameCache st; paneCache := paneCache st;
     windowsCache := windowsCache st;
     remoteSessionToken := remoteSessionToken st;
     activeWinRef := activeWinRef st; activeWinIdRef := activeWinIdRef st |}.

Definition setMsg (v : StatusMsg) (st : State) : State :=
  {| windows := windows st; activeWin := activeWin st;
     activeWinId := activeWinId st; paneText := paneText st; msg := v;
     pollPaused := pollPaused st; sessionLoading := sessionLoading st;
     nameCache := nameCache st; paneCache := paneCache st;
     windowsCache := windowsCache st;
     remoteSessionToken := remoteSessionToken st;
     activeWinRef := activeWinRef st; activeWinIdRef := activeWinIdRef st |}.

Definition setPollPaused (v : bool) (st : State) : State :=
  {| windows := windows st; activeWin := activeWin st;
     activeWinId := activeWinId st; paneText := paneText st; msg := msg st;
     pollPaused := v; sessionLoading := sessionLoading st;
     nameCache := nameCache st; paneCache := paneCache st;
     windowsCache := windowsCache st;
     remoteSessionToken := remoteSessionToken st;
     activeWinRef := activeWinRef st; activeWinIdRef := activeWinIdRef st |}.

Definition setSessionLoading (v : bool) (st : State) : State :=
  {| windows := windows st; activeWin := activeWin st;
     activeWinId := activeWinId st; paneText := paneText st; msg := msg st;
     pollPaused := pollPaused st; sessionLoading := v;
     nameCache := nameCache st; paneCache := paneCache st;
     windowsCache := windowsCache st;
     remoteSessionToken := remoteSessionToken st;
     activeWinRef := activeWinRef st; activeWinIdRef := activeWinIdRef st |}.

Definition setNameCache (v : gmap string string) (st : State) : State :=
  {| windows := windows st; activeWin := activeWin st;
     activeWinId := activeWinId st; paneText := paneText st; msg := msg st;
     pollPaused := pollPaused st; sessionLoading := sessionLoading st;
     nameCache := v; paneCache := paneCache st;
     windowsCache := windowsCache st;
     remoteSessionToken := remoteSessionToken st;
     activeWinRef := activeWinRef st; activeWinIdRef := activeWinIdRef st |}.

Definition setPaneCache (v : gmap string string) (st : State) : State :=
  {| windows := windows st; activeWin := activeWin st;
     activeWinId := activeWinId st; paneText := paneText st; msg := msg st;
     pollPaused := pollPaused st; sessionLoading := sessionLoading st;
     nameCache := nameCache st; paneCache := v;
     windowsCache := windowsCache st;
     remoteSessionToken := remoteSessionToken st;
     activeWinRef := activeWinRef st; activeWinIdRef := activeWinIdRef st |}.

Definition setWindowsCache (v : gmap string (list TmuxWindow)) (st : State) : State :=
  {| windows := windows st; activeWin := activeWin st;
     activeWinId := activeWinId st; paneText := paneText st; msg := msg st;
     pollPaused := pollPaused st; sessionLoading := sessionLoading st;
     nameCache := nameCache st; paneCache := paneCache st; windowsCache := v;
     remoteSessionToken := remoteSessionToken st;
     activeWinRef := activeWinRef st; activeWinIdRef := activeWinIdRef st |}.

Definition setRemoteSessionToken (v : Z) (st : State) : State :=
  {| windows := windows st; activeWin := activeWin st;
     activeWinId := activeWinId st; paneText := paneText st; msg := msg st;
     pollPaused := pollPaused st; sessionLoading := sessionLoading st;
     nameCache := nameCache st; paneCache := paneCache st;
     windowsCache := windowsCache st; remoteSessionToken := v;
     activeWinRef := activeWinRef st; activeWinIdRef := activeWinIdRef st |}.

Definition setActiveWinRef (v : option Z) (st : State) : State :=
  {| windows := windows st; activeWin := activeWin st;
     activeWinId := activeWinId st; paneText := paneText st; msg := msg st;
     pollPaused := pollPaused st; sessionLoading := sessionLoading st;
     nameCache := nameCache st; paneCache := paneCache st;
     windowsCache := windowsCache st;
     remoteSessionToken := remoteSessionToken st; activeWinRef := v;
     activeWinIdRef := activeWinIdRef st |}.

Definition setActiveWinIdRef (v : option string) (st : State) : State :=
  {| windows := windows st; activeWin := activeWin st;
     activeWinId := activeWinId st; paneText := paneText st; msg := msg st;
     pollPaused := pollPaused st; sessionLoading := sessionLoading st;
     nameCache := nameCache st; paneCache := paneCache st;
     windowsCache := windowsCache st;
     remoteSessionToken := remoteSessionToken st;
     activeWinRef := activeWinRef st; activeWinIdRef := v |}.

(** [st |> f |> g]: the statements [f], then [g], run on [st]. *)
Local Notation "st |> f" := (f st) (at level 45, left associativity, only parsing).

(** What the closure of the async block captured. *)
Record Ctx := {
  token : Z;
  sessionName : string;
  profile : HostProfile;
  mode : Mode;
}.

Definition scope (c : Ctx) : string := cacheScope (mode c) (Some (profile c)).
Definition cacheKey (c : Ctx) : string := sessionCacheKeyForScope (scope c) (sessionName c).
Definition paneKey (c : Ctx) (w : TmuxWindow) : string :=
  cacheKeyFor (mode c) (sessionName c) w (Some (profile c)).

(** The result of an awaited call; [Failed raw] carries
    the text of the caught error. *)
Inductive Outcome (A : Type) :=
  | Fulfilled (a : A)
  | Failed (raw : string).
Arguments Fulfilled {A} a.
Arguments Failed {A} raw.

Definition stale (c : Ctx) (st : State) : bool :=
  negb (bool_decide (token c = remoteSessionToken st)).

(** [const token = ++remoteSessionToken.current] *)
Definition bumpToken (st : State) : Z * State :=
  let t := remoteSessionToken st + 1 in
  (t, setRemoteSessionToken t st).

(** [pane || " "] *)
Definition orBlank (pane : string) : string := if Js.truthy pane then pane else " ".

(** The [finally] block. *)
Definition finallyBlock (c : Ctx) (st : State) : State :=
  if stale c st then st
  else st |> setPollPaused false |> setSessionLoading false.

(** The [catch] block. *)
Definition catchBlock (c : Ctx) (raw : string) (st : State) : State :=
  if stale c st then st
  else st |> setMsg (MsgLoadFailed (sessionName c) raw)
          |> setPaneText ("<< " +:+ raw +:+ " >>").

(** From the second token check to the end of the [try] block. *)
Definition publish (c : Ctx) (normalized : list TmuxWindow)
    (preferred : option TmuxWindow) (pane : string) (st : State) : State :=
  if stale c st then st
  else
    let st1 :=
      st |> setWindows normalized
         |> setPaneCache (WindowCache.pruneWindowCache (paneCache st) (scope c)
                            (sessionName c) (toCacheWindow <$> normalized)) in
    let st2 :=
      match preferred with
      | Some p =>
          st1 |> setActiveWin (Some (index p))
              |> setActiveWinId (id p)
              |> setActiveWinRef (Some (index p))
              |> setActiveWinIdRef (id p)
              |> setPaneText (orBlank pane)
      | None =>
          st1 |> setActiveWin None
              |> setActiveWinId None
              |> setActiveWinRef None
              |> setActiveWinIdRef None
              |> setPaneText " "
      end in
    match normalized with
    | [] => setMsg (MsgNoWindows (sessionName c)) st2
    | _ => setMsg MsgEmpty st2
    end.

(** Where the async block stands after a continuation has run. *)
Inductive Progress :=
  | Finished (st : State)
  | AwaitingPane (st : State) (normalized : list TmuxWindow) (preferred : TmuxWindow).

(** [normalized.find((w) => w.active) ?? normalized[0] ?? null] *)
Definition preferredOf (normalized : list TmuxWindow) : option TmuxWindow :=
  match List.find active normalized with
  | Some w => Some w
  | None => head normalized
  end.

(** The continuation of [await getWindows(sessionName, profile)]. *)
Definition afterWindows (c : Ctx) (r : Outcome (list TmuxWindow)) (st : State)
  : Progress :=
  match r with
  | Failed raw => Finished (finallyBlock c (catchBlock c raw st))
  | Fulfilled rawWindows =>
      if stale c st then Finished (finallyBlock c st)
      else
        let '(normalized, names) :=
          normalizeWindows (mode c) (sessionName c) rawWindows (nameCache st) in
        let st1 :=
          st |> setNameCache names
             |> setWindowsCache (<[cacheKey c := normalized]> (windowsCache st)) in
        match preferredOf normalized with
        | None => Finished (finallyBlock c (publish c normalized None Js.empty st1))
        | Some preferred =>
            let st2 :=
              match paneCache st1 !! paneKey c preferred with
              | Some cached => if Js.truthy cached then setPaneText cached st1 else st1
              | None => st1
              end in
            AwaitingPane st2 normalized preferred
        end
  end.

(** The continuation of [await getPane(...)], for the block suspended
    with [normalized] and [preferred]. *)
Definition afterPane (c : Ctx) (normalized : list TmuxWindow) (preferred : TmuxWindow)
    (r : Outcome string) (st : State) : State :=
  match r with
  | Failed raw => finallyBlock c (catchBlock c raw st)
  | Fulfilled pane =>
      let st1 :=
        setPaneCache (<[paneKey c preferred := orBlank pane]> (paneCache st)) st in
      finallyBlock c (publish c normalized (Some preferred) pane st1)
  end.

(** Another session or mode switch while the block is suspended
    ([++remoteSessionToken.current] or [remoteSessionToken.current++]). *)
Definition supersede (st : State) : State := snd (bumpToken st).

End SessionLoad.

(** ** Reference definitions that follow the specification's wording *)

Module Reference.

(** "single-quoted with each ['] escaped as quote, double quote, quote,
    double quote, quote": the characters of the value one by one. *)
Definition quotedBody (value : string) : string :=
  string_of_list_ascii
    (mjoin ((fun c : ascii =>
               if bool_decide (c = Js.squote)
               then [Js.squote; Js.dquote; Js.squote; Js.dquote; Js.squote]
               else [c]) <$> list_ascii_of_string value)).

(** The text emitted for a value: verbatim when it is non-empty and
    every character is in the class, single-quoted otherwise. *)
Definition emitted (value : string) : string :=
  if bool_decide (value <> EmptyString)
     && forallb Commands.argChar (list_ascii_of_string value)
  then value
  else "'" +:+ quotedBody value +:+ "'".

(** The specification's wording of the quoting rule, read literally: a
    value made only of characters of the class is emitted verbatim. *)
Definition verbatim_when_in_class : Prop :=
  forall value,
    Js.all Commands.argChar value = true -> Commands.escapeArg value = value.

End Reference.

(** ** Protocol lines and events used to state the properties *)

Module Wire.
Import Control.

(** [%%begin <tag>], optionally followed by a space and more fields. *)
Definition beginLine (tag : string) (rest : option string) : string :=
  match rest with
  | None => "%%begin " +:+ tag
  | Some r => "%%begin " +:+ tag +:+ " " +:+ r
  end.

(** [%%end <tag> <status>] *)
Definition endLine (tag status : string) : string :=
  "%%end " +:+ tag +:+ " " +:+ status.

(** [%%end <tag>] with no status field. *)
Definition endLineBare (tag : string) : string := "%%end " +:+ tag.

(** A word: text without a space. *)
Definition word (s : string) : Prop := Js.indexOf Js.space s = None.

(** A line delivered by the Executor for the connection [key]. *)
Definition lineEvent (key line : string) : Event :=
  EvControl (Some {| ev_key := key; ev_kind := "line"; ev_line := Some line |}).

Definition lifecycleEvent (key kind : string) : Event :=
  EvControl (Some {| ev_key := key; ev_kind := kind; ev_line := None |}).

(** Completions of sends that succeeded, in any order. *)
Definition sendsSucceeded (ids : list nat) : list Event := EvSendSucceeded <$> ids.

End Wire.

(** ** Concrete inputs used in examples *)

Module Examples.
Import Profile Control Wire.

Definition opsProfile : HostProfile :=
  {| host := "node"; port := None; user := "ops"; auth := Some AuthAgent;
     key_path := None; key_pass := None; use_agent := None; password := None |}.

(** The key of the control connection for session [arc] on [opsProfile]. *)
Definition arcKey : string := controlSessionKeyFor opsProfile "arc".

(** Remote mode with a control session requested for [arc]. *)
Definition started : State :=
  run (initial (Remote opsProfile)) [EvStart "arc" opsProfile].

(** One command issued, its reply block opened under tag [7], and one
    [%%data] line with an empty payload received. *)
Definition oneEmptyLine : State :=
  run started [EvSend "list-windows -t arc";
               lineEvent arcKey (beginLine "7" (Some "1700000000 1"));
               lineEvent arcKey "%%data 7 "].

(** Two commands issued, none answered yet. *)
Definition twoQueued : State :=
  run started [EvSend "list-windows -t arc"; EvSend "capture-pane -p -t arc:0 -S -200 -J"].

End Examples.

(** ** The claims about rejection, read literally *)

Module Claimed.
Import Control.

(** "the accumulated lines joined, or a generic status message when no
    lines were accumulated" *)
Definition rejectionMessage (lines : list string) (status : string) : string :=
  match lines with
  | [] => "tmux error " +:+ status
  | _ => Js.join (String Js.newline EmptyString) lines
  end.

(** "if the underlying send of any command fails, the connection becomes
    Disconnected and every outstanding pending command is rejected" *)
Definition sendFailureRejectsAll (st : State) (id : nat) (message : string) : Prop :=
  let st' := controlSendFailed id message st in
  controlDisconnected st' = true
  /\ forall e, e ∈ (pending st ++ inflightEntries st)%list ->
       exists m, promises st' !! entryId e = Some (Rejected m).

End Claimed.

(** ** Vocabulary for the window merge *)

Module Merge.
Import Profile Windows.

(** The row built from [w] when it is met with name cache [names], and
    the name cache after it. *)
Definition resolved (mode : Mode) (sessionName : string) (w : TmuxWindow)
    (names : gmap string string) : TmuxWindow :=
  candidateOf w (resolveName (cacheKeyFor mode sessionName w None) w names).1.

Definition namesAfter (mode : Mode) (sessionName : string) (w : TmuxWindow)
    (names : gmap string string) : gmap string string :=
  (resolveName (cacheKeyFor mode sessionName w None) w names).2.

(** The specification's rule for two rows of one identity: the strictly
    longer name wins; on equal lengths the active row wins, and the
    earlier row is kept when that does not decide. *)
Definition keptOfTwo (first second : TmuxWindow) : TmuxWindow :=
  if (String.length (name first) <? String.length (name second))%nat then second
  else if (String.length (name second) <? String.length (name first))%nat then first
  else if active second && negb (active first) then second
  else first.

(** The local map holds one row per identity key of the rows seen so
    far, each filed under its own key. *)
Definition grouped (seen : list TmuxWindow) (byKey : ordmap) : Prop :=
  NoDup byKey.*1
  /\ (forall k, k ∈ byKey.*1 <-> k ∈ identityKey <$> seen)
  /\ Forall (fun kv => identityKey kv.2 = kv.1) byKey.

Definition byIndex (a b : TmuxWindow) : Prop := (index a <= index b)%Z.

End Merge.

(** ** A session load that is superseded while the pane is fetched *)

Module LoadExample.
Import Profile Windows SessionLoad.

Definition progressState (p : Progress) : State :=
  match p with
  | Finished st => st
  | AwaitingPane st _ _ => st
  end.

Definition idle : State :=
  {| windows := []; activeWin := None; activeWinId := None;
     paneText := EmptyString; msg := MsgEmpty; pollPaused := true;
     sessionLoading := true; nameCache := ∅; paneCache := ∅; windowsCache := ∅;
     remoteSessionToken := 0; activeWinRef := None; activeWinIdRef := None |}.

Definition shell : TmuxWindow :=
  {| index := 0; id := Some "@1"; name := "shell"; active := true; panes := 1 |}.

(** [selectSession("arc")] has taken token 1. *)
Definition requested : State := snd (bumpToken idle).

Definition ctx : Ctx :=
  {| token := fst (bumpToken idle); sessionName := "arc";
     profile := Examples.opsProfile; mode := Remote Examples.opsProfile |}.

(** The window list arrives while token 1 is current; the block now
    awaits the pane. *)
Definition listed : Progress := afterWindows ctx (Fulfilled [shell]) requested.

(** Another selection takes token 2 before the pane arrives. *)
Definition superseded : State := supersede (progressState listed).

(** The pane of the superseded load arrives. *)
Definition resumed : State :=
  afterPane ctx [shell] shell (Fulfilled "output") superseded.

End LoadExample.

Module MergeTrace.
Import Profile Windows Merge.

(** The name cache when the rows [pre] have been processed. *)
Definition namesAfterRows (mode : Mode) (sessionName : string)
    (pre : list TmuxWindow) (names : gmap string string) : gmap string string :=
  (groupRows mode sessionName pre names).2.

(** [r] is one of the rows of [ws], resolved against the name cache as it
    stood when that row was met. *)
Definition originates (mode : Mode) (sessionName : string)
    (names : gmap string string) (ws : list TmuxWindow) (r : TmuxWindow) : Prop :=
  exists pre w post,
    ws = (pre ++ w :: post)%list
    /\ r = resolved mode sessionName w (namesAfterRows mode sessionName pre names).

End MergeTrace.

Module MergeFold.
Import Profile Windows Merge.

(** The input rows in order, each resolved against the name cache left
    by the rows before it. *)
Fixpoint resolvedRows (mode : Mode) (sessionName : string)
    (ws : list TmuxWindow) (names : gmap string string) : list TmuxWindow :=
  match ws with
  | [] => []
  | w :: rest =>
      resolved mode sessionName w names
      :: resolvedRows mode sessionName rest (namesAfter mode sessionName w names)
  end.

(** The row kept among rows of one identity, met in this order. *)
Definition keptAmong (rows : list TmuxWindow) : option TmuxWindow :=
  match rows with
  | [] => None
  | r :: rest => Some (foldl keptOfTwo r rest)
  end.

(** Every cached name is trimmed. *)
Definition trimmedNames (names : gmap string string) : Prop :=
  forall k v, names !! k = Some v -> Js.trim v = v.

(** The resolved rows with identity key [k]. *)
Definition rowsOfKey (k : string) (rows : list TmuxWindow) : list TmuxWindow :=
  filter (fun r => identityKey r = k) rows.

End MergeFold.

Module Fifo.
Import Control Wire.

(** The entries created by issuing the commands [cmds] in order, the
    first one with identity [first]. *)
Fixpoint entriesFrom (first : nat) (cmds : list string) : list ControlPending :=
  match cmds with
  | [] => []
  | c :: rest =>
      {| entryId := first; command := c; data := [] |} :: entriesFrom (S first) rest
  end.

(** One [%%begin] line per tag, each with its trailing fields. *)
Definition beginEvents (key : string) (tags : list (string * option string))
  : list Event :=
  (fun tr => lineEvent key (beginLine tr.1 tr.2)) <$> tags.

End Fifo.

(** * Further code of the repository *)

(** ** [lib/windowCache.ts]: renaming a session *)

Module WindowCacheRename.
Import WindowCache.

(** The [updates] array of [renameSessionInCache], collected from the
    entries in the order the map yields them. *)
Definition renameUpdates {T} (oldPrefix newPrefix : string)
    (entries : list (string * T)) : list (string * string * T) :=
  omap (fun '(key, value) =>
          if Js.startsWith key oldPrefix
          then Some (key, newPrefix +:+ Js.sliceFrom (String.length oldPrefix) key, value)
          else None) entries.

(** The body of [renameSessionInCache] for a given enumeration of the
    entries: collect the updates, delete the old keys, set the new ones. *)
Definition renameEntries {T} (entries : list (string * T)) (cache : gmap string T)
    (scope oldSession newSession : string) : gmap string T :=
  if bool_decide (oldSession = newSession) then cache
  else
    let oldPrefix := sessionPrefix scope oldSession in
    let newPrefix := sessionPrefix scope newSession in
    let updates := renameUpdates oldPrefix newPrefix entries in
    let deleted := foldl (fun c u => delete u.1.1 c) cache updates in
    foldl (fun c u => <[u.1.2 := u.2]> c) deleted updates.

Definition renameSessionInCache {T} (cache : gmap string T)
    (scope oldSession newSession : string) : gmap string T :=
  renameEntries (map_to_list cache) cache scope oldSession newSession.

(** [entries] lists the bindings of [cache], each once, in some order. *)
Definition enumerates {T} (entries : list (string * T)) (cache : gmap string T) : Prop :=
  NoDup entries.*1 /\ forall k v, (k, v) ∈ entries <-> cache !! k = Some v.

(** A session name without a slash. *)
Definition slashFree (s : string) : Prop := Js.indexOf "/"%char s = None.

End WindowCacheRename.

(** ** Profiles, scopes and the window-list cache *)

Module ProfileMore.
Import Profile Windows.

Definition isRemoteLike (mode : Mode) (profileOverride : option HostProfile) : bool :=
  match resolveEffectiveProfile mode profileOverride with
  | Some _ => true
  | None => false
  end.

Definition sessionCacheKey (session : string) (profile : option HostProfile) : string :=
  sessionCacheKeyForScope (scopeKeyForProfile profile) session.

(** [renameWindowsCacheEntry]; a stored window list, being an array, is
    always truthy. *)
Definition renameWindowsCacheEntry (cache : gmap string (list TmuxWindow))
    (scope oldSession newSession : string) : gmap string (list TmuxWindow) :=
  if bool_decide (oldSession = newSession) then cache
  else
    let oldKey := sessionCacheKeyForScope scope oldSession in
    match cache !! oldKey with
    | None => cache
    | Some existing =>
        <[sessionCacheKeyForScope scope newSession := existing]> (delete oldKey cache)
    end.

End ProfileMore.

(** ** The other command builders *)

Module CommandsMore.
Import Commands.

Definition tab : ascii := "009"%char.

(** [WINDOW_FORMAT]: five tmux format fields separated by tabs. *)
Definition WINDOW_FORMAT : string :=
  "#{window_index}" +:+ String tab
    ("#{window_id}" +:+ String tab
       ("#{window_name}" +:+ String tab
          ("#{?window_active,1,0}" +:+ String tab "#{window_panes}"))).

Definition buildListWindowsCommand (session : string) : string :=
  "list-windows -t " +:+ escapeArg session +:+ " -F "
    +:+ String Js.dquote (WINDOW_FORMAT +:+ String Js.dquote EmptyString).

(** [lines] is [None] when the argument is omitted (default 200). *)
Definition buildCapturePaneCommand (target : string) (lines : option Z) : string :=
  "capture-pane -p -t " +:+ escapeArg target +:+ " -S -"
    +:+ pretty (Z.abs (default 200 lines)) +:+ " -J".

(** What may follow an emitted value in a command: nothing, or text
    whose first character is neither of the class nor a quote. *)
Definition terminator (r : string) : Prop :=
  match r with
  | EmptyString => True
  | String c _ => argChar c = false /\ c <> Js.squote /\ c <> Js.dquote
  end.

End CommandsMore.

(** ** Reply blocks and lifecycle events used to state further properties *)

Module ControlMore.
Import Control Wire.

(** [%%data <tag> <payload>]: the payload is everything after the first
    space that follows the tag. *)
Definition dataLine (tag payload : string) : string :=
  "%%data " +:+ tag +:+ " " +:+ payload.

(** Data lines [(tag, payload)] delivered for the connection [key]. *)
Definition dataEvents (key : string) (ds : list (string * string)) : list Event :=
  (fun d => lineEvent key (dataLine d.1 d.2)) <$> ds.

(** The payloads of the lines that carry [tag], in arrival order. *)
Definition payloadsFor (tag : string) (ds : list (string * string)) : list string :=
  (filter (fun d => d.1 = tag) ds).*2.

(** [entry.data.push] of each of [more], in order. *)
Definition pushData (more : list string) (e : ControlPending) : ControlPending :=
  {| entryId := entryId e; command := command e; data := data e ++ more |}.

(** The events that empty the queues, with the message of the error the
    outstanding promises are rejected with. *)
Definition resets (s : string) (p : Profile.HostProfile) (key : string)
  : list (Event * string) :=
  [ (EvStart s p, "control session reset");
    (EvStop, "control session reset");
    (lifecycleEvent key "started", "control session reset");
    (lifecycleEvent key "stopped", "control session stopped");
    (lifecycleEvent key "closed", "control session stopped") ].

(** The events after which no connection is current. *)
Definition disconnects (key : string) : list Event :=
  [ EvStop; lifecycleEvent key "stopped"; lifecycleEvent key "closed" ].

End ControlMore.

(** ** Pruning the caches by listed session ([refreshSessions]) *)

Module SessionPrune.

Definition slash : ascii := "/"%char.

(** The session a cache key under [scope] belongs to:
    [key.slice(scope.length + 1).split("/")[0] ?? ""]. *)
Definition sessionOfKey (scope key : string) : string :=
  let rest := Js.sliceFrom (String.length scope + 1) key in
  default Js.empty (Js.split slash rest !! 0%nat).

(** The loop body of [pruneBySessions], run over a snapshot of the keys. *)
Definition pruneSessionKey {T} (scope : string) (allowed : gset string)
    (map : gmap string T) (key : string) : gmap string T :=
  if negb (Js.startsWith key (scope +:+ "/")) then map
  else if negb (bool_decide (sessionOfKey scope key ∈ allowed)) then delete key map
  else map.

Definition pruneBySessions {T} (scope : string) (allowed : gset string)
    (map : gmap string T) : gmap string T :=
  foldl (pruneSessionKey scope allowed) map (map_to_list map).*1.

(** [new Set(s.map((x) => x.name))] *)
Definition allowedOf (names : list string) : gset string := list_to_set names.

End SessionPrune.

(** ** [loadWindows] *)

Module WindowsLoad.
Import Profile Windows SessionLoad.

Local Notation "st |> f" := (f st) (at level 45, left associativity, only parsing).

(** [normalized.some((w) => w.index === currentActive)] *)
Definition listsIndex (normalized : list TmuxWindow) (i : Z) : bool :=
  existsb (fun w => bool_decide (index w = i)) normalized.

(** [loadWindows(session)] from the point where [getWindows] settles.
    The second component is the text of the caught error when the status
    line is set to the list-failure message, which is all the [catch]
    block does. *)
Definition loadWindows (mode : Mode) (session : string)
    (r : Outcome (list TmuxWindow)) (st : State) : State * option string :=
  match r with
  | Failed raw => (st, Some raw)
  | Fulfilled ws =>
      let '(normalized, names) := normalizeWindows mode session ws (nameCache st) in
      let st1 :=
        st |> setNameCache names
           |> setWindows normalized
           |> setWindowsCache
                (<[sessionCacheKeyForScope (cacheScope mode None) session := normalized]>
                   (windowsCache st))
           |> setPaneCache
                (WindowCache.pruneWindowCache (paneCache st) (cacheScope mode None)
                   session (toCacheWindow <$> normalized)) in
      let currentActive := activeWinRef st in
      let st2 :=
        match normalized with
        | [] =>
            st1 |> setActiveWin None
                |> setActiveWinId None
                |> setPaneText Js.empty
                |> setMsg (MsgNoWindows session)
                |> setActiveWinRef None
                |> setActiveWinIdRef None
        | first :: _ =>
            match currentActive with
            | Some i =>
                if negb (listsIndex normalized i) then
                  st1 |> setActiveWin (Some (index first))
                      |> setActiveWinId (id first)
                      |> setActiveWinRef (Some (index first))
                      |> setActiveWinIdRef (id first)
                else
                  match List.find (fun w => bool_decide (index w = i)) normalized with
                  | Some current =>
                      st1 |> setActiveWinId (id current)
                          |> setActiveWinRef (Some (index current))
                          |> setActiveWinIdRef (id current)
                  | None => st1
                  end
            | None =>
                st1 |> setActiveWin (Some (index first))
                    |> setActiveWinId (id first)
                    |> setActiveWinRef (Some (index first))
                    |> setActiveWinIdRef (id first)
            end
        end in
      (st2, None)
  end.

End WindowsLoad.

(** ** Octal escaping, as the sender of payloads applies it *)

Module DecodeMore.
Import Decode.

(** The three octal digits of a code unit below 512. *)
Definition octalDigits (c : N) : list N :=
  [(48 + c / 64)%N; (48 + (c / 8) mod 8)%N; (48 + c mod 8)%N].

(** The code units selected by [must] are written as a backslash and
    three octal digits, the others as they are. *)
Fixpoint escapeOctal (must : N -> bool) (s : jsstring) : jsstring :=
  match s with
  | [] => []
  | c :: t =>
      if must c then backslash :: octalDigits c ++ escapeOctal must t
      else c :: escapeOctal must t
  end.

(** No two backslashes in a row. *)
Fixpoint noDoubledBackslash (s : jsstring) : bool :=
  match s with
  | [] => true
  | c :: t =>
      match t with
      | c' :: _ => negb ((c =? backslash)%N && (c' =? backslash)%N)
      | [] => true
      end && noDoubledBackslash t
  end.

End DecodeMore.

(** ** Accounting for the promises handed out *)

Module Conservation.
Import Control.

(** The promise [id] is accounted for: its command is queued or in
    flight, or the promise is settled. *)
Definition holds (id : nat) (st : State) : Prop :=
  (exists e, e ∈ pending st /\ entryId e = id)
  \/ (exists tag e, inflight st !! tag = Some e /\ entryId e = id)
  \/ is_Some (promises st !! id).

(** Every promise handed out so far is accounted for. *)
Definition accounted (st : State) : Prop :=
  forall id, (id < nextId st)%nat -> holds id st.

(** The step replaces the entry in flight under some tag by another
    entry (a [%%begin] line that reuses a tag still in flight). *)
Definition overwrites (st : State) (ev : Event) : Prop :=
  exists tag e e', inflight st !! tag = Some e
    /\ inflight (step st ev) !! tag = Some e' /\ entryId e' <> entryId e.

Fixpoint neverOverwrites (st : State) (events : list Event) : Prop :=
  match events with
  | [] => True
  | ev :: rest => ~ overwrites st ev /\ neverOverwrites (step st ev) rest
  end.

End Conservation.

(** ** The remote password and its listeners ([remoteSecrets])

    A listener is told apart by its identity, a number; the calls made
    to listeners are recorded in the order they happen. Listeners are
    taken not to call back into this module while they run. *)

Module RemoteSecrets.

Record State := {
  current : string;
  subs : list nat;              (* the [Set<Listener>], in insertion order *)
  calls : list (nat * string);  (* [fn(pw)], oldest first *)
}.

Definition initial : State :=
  {| current := EmptyString; subs := []; calls := [] |}.

(** [Set.prototype.add] and [Set.prototype.delete] *)
Definition setAdd (fn : nat) (s : list nat) : list nat :=
  if bool_decide (fn ∈ s) then s else (s ++ [fn])%list.

Definition setDelete (fn : nat) (s : list nat) : list nat :=
  filter (fun x => x <> fn) s.

Definition setRemotePassword (pw : string) (st : State) : State :=
  {| current := pw; subs := subs st;
     calls := (calls st ++ ((fun fn => (fn, pw)) <$> subs st))%list |}.

Definition getRemotePassword (st : State) : string := current st.

Definition onRemotePasswordChange (fn : nat) (st : State) : State :=
  {| current := current st; subs := setAdd fn (subs st); calls := calls st |}.

(** The function returned by [onRemotePasswordChange(fn)]. *)
Definition unsubscribe (fn : nat) (st : State) : State :=
  {| current := current st; subs := setDelete fn (subs st); calls := calls st |}.

Inductive Op :=
  | SetPassword (pw : string)
  | Subscribe (fn : nat)
  | Unsubscribe (fn : nat).

Definition step (st : State) (op : Op) : State :=
  match op with
  | SetPassword pw => setRemotePassword pw st
  | Subscribe fn => onRemotePasswordChange fn st
  | Unsubscribe fn => unsubscribe fn st
  end.

Definition run (st : State) (ops : list Op) : State := foldl step st ops.

(** The passwords listener [fn] was called with, oldest first. *)
Definition heard (fn : nat) (st : State) : list string :=
  (filter (fun c => c.1 = fn) (calls st)).*2.

(** What the operations mean for one listener, read off the operations
    alone: whether it is subscribed after them, which passwords were set
    while it was, and the last password set. *)
Definition subscribedAfter (fn : nat) (ops : list Op) : bool :=
  foldl (fun b op =>
           match op with
           | Subscribe g => if bool_decide (g = fn) then true else b
           | Unsubscribe g => if bool_decide (g = fn) then false else b
           | SetPassword _ => b
           end) false ops.

Definition setWhileSubscribed (fn : nat) (ops : list Op) : list string :=
  (foldl (fun (acc : bool * list string) op =>
            match op with
            | Subscribe g => if bool_decide (g = fn) then (true, acc.2) else acc
            | Unsubscribe g => if bool_decide (g = fn) then (false, acc.2) else acc
            | SetPassword pw => if acc.1 then (acc.1, (acc.2 ++ [pw])%list) else acc
            end) (false, []) ops).2.

Definition lastSet (ops : list Op) : string :=
  foldl (fun cur op => match op with SetPassword pw => pw | _ => cur end)
        EmptyString ops.

End RemoteSecrets.

(** ** The pane poller

    The continuation of [await Promise.all([getWindows(...), getPane(...)])]
    in [tick], for the targets the tick settled on before the calls.
    [cancelled] is the flag of the effect that started the tick, as it
    stands when the calls settle. The status line is outside the state:
    what the tick does to it is returned beside the state. *)

Module Poll.
Import Profile Windows SessionLoad WindowsLoad.

Local Notation "st |> f" := (f st) (at level 45, left associativity, only parsing).

Inductive MsgUpdate :=
  | KeepMsg
  | ClearRemoteWarning          (* emptied when it shows a remote warning *)
  | RefreshFailed (text : string).

(** [paneKeyFromParts(sessionName, index, id, profileOverride)] *)
Definition paneKeyFromParts (mode : Mode) (sessionName : string) (index : Z)
    (id : option string) (profileOverride : option HostProfile) : string :=
  WindowCache.buildWindowCacheKey (cacheScope mode profileOverride) sessionName index id.

Definition tickAfter (mode : Mode) (session : string) (indexTarget : Z)
    (idTarget : option string) (cancelled : bool)
    (r : Outcome (list TmuxWindow * string)) (st : State) : State * MsgUpdate :=
  match r with
  | Failed text => (st, if cancelled then KeepMsg else RefreshFailed text)
  | Fulfilled (list, pane) =>
      if cancelled then (st, KeepMsg)
      else
        let '(normalized, names) := normalizeWindows mode session list (nameCache st) in
        let pruned :=
          WindowCache.pruneWindowCache (paneCache st) (cacheScope mode None) session
            (toCacheWindow <$> normalized) in
        let key := paneKeyFromParts mode session indexTarget idTarget None in
        let st1 :=
          st |> setNameCache names
             |> setWindows normalized
             |> setPaneCache (<[key := orBlank pane]> pruned)
             |> setPaneText (orBlank pane) in
        let st2 :=
          match normalized with
          | first :: _ =>
              if negb (listsIndex normalized indexTarget) then
                st1 |> setActiveWin (Some (index first))
                    |> setActiveWinId (id first)
                    |> setActiveWinRef (Some (index first))
                    |> setActiveWinIdRef (id first)
              else
                match List.find (fun w => bool_decide (index w = indexTarget)) normalized with
                | Some current =>
                    st1 |> setActiveWinId (id current)
                        |> setActiveWinRef (Some (index current))
                        |> setActiveWinIdRef (id current)
                | None => st1
                end
          | [] => st1
          end in
        (st2, ClearRemoteWarning)
  end.

End Poll.

(** ** [selectSession], up to the start of the background fetch *)

Module Select.
Import Profile Windows.

Local Notation "st |> f" := (f st) (at level 45, left associativity, only parsing).







End Select.

(** ** Rows that normalisation leaves alone *)

Module Fixed.
Import Profile Windows.

(** A row that [normalizeWindows] hands back as it is when the name
    cache is [names]: its id and name are in normal form, and when its
    name is empty the cache has no name to give it. *)
Definition fixedRow (mode : Mode) (s : string) (names : gmap string string)
    (r : TmuxWindow) : Prop :=
  candidateOf r (name r) = r
  /\ Js.trim (name r) = name r
  /\ (Js.truthy (name r) = false ->
      forall c, names !! cacheKeyFor mode s r None = Some c -> Js.truthy c = false).

End Fixed.

(** ** Forgetting a session ([onKillSession]) *)

Module Forget.
Import Profile WindowCache Windows.

(** What [onKillSession] does to the three caches before it calls the
    Executor: [(nameCache, paneCache, windowsCache)] afterwards. *)
Definition forgetSession (scope activeSession : string)
    (nameCache paneCache : gmap string string)
    (windowsCache : gmap string (list TmuxWindow))
  : gmap string string * gmap string string * gmap string (list TmuxWindow) :=
  (clearWindowCacheForSession nameCache scope activeSession,
   clearWindowCacheForSession paneCache scope activeSession,
   delete (sessionCacheKeyForScope scope activeSession) windowsCache).

End Forget.

(** ** Payload decoding, pass by pass, written as rules

    A second description of the two passes, independent of the functions
    of [Decode]: each pass is a relation between the text before and the
    text after, given by one rule per case, scanning from the left. *)

Module ReferenceDecode.

Definition text := list N.

(** The code units of [0] to [9] and of [0] to [7]. *)
Definition decimalDigit (c : N) : Prop := (48 <= c <= 57)%N.
Definition octalDigit (c : N) : Prop := (48 <= c <= 55)%N.

(** What three decimal digits denote when read in base 8 up to the first
    digit that is no octal digit; 0 when the first digit is none. *)
Definition escapeValue (d1 d2 d3 : N) : N :=
  if (55 <? d1)%N then 0%N
  else if (55 <? d2)%N then (d1 - 48)%N
  else if (55 <? d3)%N then (8 * (d1 - 48) + (d2 - 48))%N
  else (64 * (d1 - 48) + 8 * (d2 - 48) + (d3 - 48))%N.

(** The text starts with a backslash and three decimal digits. *)
Definition startsEscape (s : text) : Prop :=
  exists d1 d2 d3 rest,
    s = 92%N :: d1 :: d2 :: d3 :: rest
    /\ decimalDigit d1 /\ decimalDigit d2 /\ decimalDigit d3.

(** The text starts with two backslashes. *)
Definition startsPair (s : text) : Prop := exists rest, s = 92%N :: 92%N :: rest.

(** The octal pass: an escape at the head is replaced by the code unit
    it denotes and the scan goes on after it; any other code unit is
    kept. *)
Inductive OctalPass : text -> text -> Prop :=
  | octal_done : OctalPass [] []
  | octal_escape d1 d2 d3 rest out :
      decimalDigit d1 -> decimalDigit d2 -> decimalDigit d3 ->
      OctalPass rest out ->
      OctalPass (92%N :: d1 :: d2 :: d3 :: rest) (escapeValue d1 d2 d3 :: out)
  | octal_keep c rest out :
      ~ startsEscape (c :: rest) ->
      OctalPass rest out ->
      OctalPass (c :: rest) (c :: out).

(** The pair pass: two backslashes at the head become one and the scan
    goes on after them; any other code unit is kept. *)
Inductive PairPass : text -> text -> Prop :=
  | pair_done : PairPass [] []
  | pair_collapse rest out :
      PairPass rest out ->
      PairPass (92%N :: 92%N :: rest) (92%N :: out)
  | pair_keep c rest out :
      ~ startsPair (c :: rest) ->
      PairPass rest out ->
      PairPass (c :: rest) (c :: out).

End ReferenceDecode.

(** ** The claim about escapes, read literally *)

Module ClaimedDecode.
Import Decode ReferenceDecode.

(** "replaces each three-digit-octal escape with the corresponding
    byte": the payload made of one escape decodes to one byte. *)
Definition escapesDecodeToBytes : Prop :=
  forall d1 d2 d3,
    octalDigit d1 -> octalDigit d2 -> octalDigit d3 ->
    exists b, (b < 256)%N /\ decodeTmuxData [[92%N; d1; d2; d3]] = [b].

End ClaimedDecode.

(** * Properties *)

(** ** String primitives *)

Section JsFacts.

Lemma startsWith_app (p r : string) : Js.startsWith (p +:+ r) p = true.
Proof.
  induction p as [|a p IH]; simpl; [done|].
  rewrite bool_decide_eq_true_2 by done. exact IH.
Qed.

Lemma startsWith_inv (s p : string) :
  Js.startsWith s p = true -> exists r, s = p +:+ r.
Proof.
  revert s. induction p as [|a p IH]; intros s H; simpl in *.
  - by exists s.
  - destruct s as [|b s]; [done|].
    apply andb_true_iff in H as [Hab Hrest].
    apply bool_decide_eq_true_1 in Hab. subst b.
    destruct (IH _ Hrest) as [r ->]. by exists r.
Qed.

Lemma startsWith_iff (s p : string) :
  Js.startsWith s p = true <-> exists r, s = p +:+ r.
Proof.
  split; [apply startsWith_inv|]. intros [r ->]. apply startsWith_app.
Qed.

End JsFacts.

(** ** The window cache *)

Section WindowCacheFacts.
Import WindowCache.

Context {T : Type}.
Implicit Types (cache : gmap string T) (key : string).

(** Running the loop body over any list of keys deletes the listed keys
    that satisfy the test and touches nothing else. *)
Lemma prune_loop_lookup prefix keep keys cache key :
  foldl (pruneKey prefix keep) cache keys !! key =
    if bool_decide (key ∈ keys)
       && (Js.startsWith key prefix && negb (bool_decide (key ∈ keep)))
    then None else cache !! key.
Proof.
  revert cache. induction keys as [|k keys IH]; intros cache; cbn [foldl].
  - case_bool_decide as Hin; [by apply elem_of_nil in Hin|done].
  - rewrite IH. unfold pruneKey.
    destruct (decide (key = k)) as [->|Hne].
    + rewrite (bool_decide_eq_true_2 (k ∈ k :: keys)) by apply list_elem_of_here.
      destruct (Js.startsWith k prefix && negb (bool_decide (k ∈ keep))) eqn:Hc;
        simpl.
      * rewrite lookup_delete_eq. by destruct (bool_decide _ && true).
      * by rewrite andb_false_r.
    + assert (bool_decide (key ∈ k :: keys) = bool_decide (key ∈ keys)) as ->.
      { apply bool_decide_ext. rewrite elem_of_cons. tauto. }
      destruct (Js.startsWith k prefix && negb (bool_decide (k ∈ keep)));
        [by rewrite lookup_delete_ne|done].
Qed.

Lemma keepSet_elem scope session (W : list CacheWindow) key :
  key ∈ keepSet scope session W <->
  exists w, w ∈ W /\ key = buildWindowCacheKey scope session (cw_index w) (cw_id w).
Proof.
  unfold keepSet. rewrite elem_of_list_to_set.
  rewrite list_elem_of_fmap. split; intros (w & H1 & H2); eauto.
Qed.

Lemma pruneWindowCache_lookup cache scope session (W : list CacheWindow) key :
  pruneWindowCache cache scope session W !! key =
    if Js.startsWith key (sessionPrefix scope session)
       && negb (bool_decide (key ∈ keepSet scope session W))
    then None else cache !! key.
Proof.
  unfold pruneWindowCache. rewrite prune_loop_lookup.
  destruct (Js.startsWith key _ && negb _); [|by rewrite andb_false_r].
  rewrite andb_true_r. case_bool_decide as Hin; [done|].
  destruct (cache !! key) as [v|] eqn:Hv; [|done].
  exfalso. apply Hin. apply list_elem_of_fmap. exists (key, v). split; [done|].
  by apply elem_of_map_to_list.
Qed.

(** C8. [pruneWindowCache] deletes exactly the keys that start with
    the prefix [scope/session/] and are not the cache key of a window of
    [W]; every other key keeps its binding. On the cache with keys
    [scope/a/id:1], [scope/a/idx:0] and [scope/b/idx:1], pruning session
    [a] against the single window of index 0 leaves [scope/a/idx:0] and
    [scope/b/idx:1]. *)
Theorem pruneWindowCache_exact cache scope session (W : list CacheWindow) :
  (forall key,
     pruneWindowCache cache scope session W !! key =
       if Js.startsWith key (scope +:+ "/" +:+ session +:+ "/")
          && negb (bool_decide
               (key ∈ (fun w => buildWindowCacheKey scope session (cw_index w) (cw_id w))
                        <$> W))
       then None else cache !! key)
  /\ (forall v1 v2 v3 : T,
       pruneWindowCache
         (<["scope/a/id:1" := v1]> (<["scope/a/idx:0" := v2]> {["scope/b/idx:1" := v3]}))
         "scope" "a" [ {| cw_index := 0; cw_id := None |} ]
       = <["scope/a/idx:0" := v2]> {["scope/b/idx:1" := v3]}).
Proof.
  split.
  - intros key. rewrite pruneWindowCache_lookup. unfold sessionPrefix.
    rewrite (bool_decide_ext (key ∈ keepSet scope session W)
               (key ∈ (fun w => buildWindowCacheKey scope session (cw_index w) (cw_id w))
                        <$> W)); [done|].
    unfold keepSet. by rewrite elem_of_list_to_set.
  - intros v1 v2 v3. vm_compute. reflexivity.
Qed.

End WindowCacheFacts.

(** ** Generated command text *)

Section CommandFacts.
Import Commands.

Lemma all_forallb (p : ascii -> bool) (s : string) :
  Js.all p s = forallb p (list_ascii_of_string s).
Proof. induction s as [|c s IH]; simpl; [done|]. by rewrite IH. Qed.

Lemma truthy_nonempty (s : string) :
  Js.truthy s = bool_decide (s <> EmptyString).
Proof. by destruct s. Qed.

Lemma string_of_list_ascii_app (l1 l2 : list ascii) :
  string_of_list_ascii (l1 ++ l2) =
  string_of_list_ascii l1 +:+ string_of_list_ascii l2.
Proof. induction l1 as [|c l1 IH]; simpl; [done|]. by rewrite IH. Qed.

Lemma replaceChar_quotedBody (value : string) :
  Js.replaceChar Js.squote quoteEscape value = Reference.quotedBody value.
Proof.
  unfold Reference.quotedBody.
  induction value as [|c value IH]; [done|].
  cbn [Js.replaceChar list_ascii_of_string].
  rewrite fmap_cons, IH. cbn [mjoin list_join].
  rewrite string_of_list_ascii_app.
  by case_bool_decide.
Qed.

Lemma escapeArg_emitted (value : string) :
  escapeArg value = Reference.emitted value.
Proof.
  unfold escapeArg, Reference.emitted, plainArg.
  rewrite all_forallb, truthy_nonempty, replaceChar_quotedBody. done.
Qed.

(** C9, counterexample. The empty string has no character outside the
    class, yet it is emitted as two single quotes. *)
Lemma escapeArg_empty_is_quoted :
  Js.all argChar EmptyString = true
  /\ escapeArg EmptyString = "''"
  /\ buildSendKeysControlCommand "arc:0" EmptyString false = ["send-keys -t arc:0 -l ''"]
  /\ ~ Reference.verbatim_when_in_class.
Proof.
  repeat split; try reflexivity.
  intros H. specialize (H EmptyString eq_refl). discriminate H.
Qed.

(** C9, amended. With [withEnter] the builder yields the literal
    [send-keys -t <target> -l <keys>] command followed by the
    [send-keys -t <target> Enter] command, without it only the first;
    each value is emitted verbatim when it is non-empty and made only of
    characters of the class, and otherwise single-quoted with each quote
    escaped. Keys [ls -la] for target [arc:0] give the two commands of
    the specification. *)
Theorem buildSendKeysControlCommand_spec (target keys : string) :
  buildSendKeysControlCommand target keys true =
    [ "send-keys -t " +:+ Reference.emitted target +:+ " -l " +:+ Reference.emitted keys;
      "send-keys -t " +:+ Reference.emitted target +:+ " Enter" ]
  /\ buildSendKeysControlCommand target keys false =
    [ "send-keys -t " +:+ Reference.emitted target +:+ " -l " +:+ Reference.emitted keys ]
  /\ buildSendKeysControlCommand "arc:0" "ls -la" true =
    [ "send-keys -t arc:0 -l 'ls -la'"; "send-keys -t arc:0 Enter" ].
Proof.
  unfold buildSendKeysControlCommand. rewrite !escapeArg_emitted.
  repeat split; reflexivity.
Qed.

End CommandFacts.

(** ** Payload decoding *)

Section DecodeFacts.
Local Open Scope list_scope.
Import Decode.

Lemma isDigit_backslash : isDigit backslash = false.
Proof. reflexivity. Qed.

Lemma isOctalDigit_isDigit d : isOctalDigit d = true -> isDigit d = true.
Proof.
  unfold isOctalDigit, isDigit. intros H.
  apply andb_true_iff in H as [H1 H2].
  apply N.leb_le in H1, H2. apply andb_true_iff.
  split; apply N.leb_le; lia.
Qed.

(** One step of the scan, as an equation. *)
Lemma replaceOctal_cons c t :
  replaceOctal (c :: t) =
    match t with
    | d1 :: d2 :: d3 :: rest =>
        if (c =? backslash)%N && isDigit d1 && isDigit d2 && isDigit d3
        then fromCharCode (parseInt8 [d1; d2; d3]) :: replaceOctal rest
        else c :: replaceOctal t
    | _ => c :: replaceOctal t
    end.
Proof. reflexivity. Qed.

(** A match never extends over a backslash, so the scan of a prefix is
    not disturbed by what follows the next backslash. *)
Lemma replaceOctal_app_backslash pre rest :
  replaceOctal (pre ++ backslash :: rest) =
  replaceOctal pre ++ replaceOctal (backslash :: rest).
Proof.
  remember (List.length pre) as n eqn:Hn. revert pre Hn.
  induction n as [n IH] using lt_wf_ind. intros pre ->.
  destruct pre as [|c t]; [done|].
  change ((c :: t) ++ backslash :: rest) with (c :: (t ++ backslash :: rest)).
  rewrite (replaceOctal_cons c (t ++ _)), (replaceOctal_cons c t).
  destruct t as [|x [|y [|z t']]]; cbn [app].
  - rewrite isDigit_backslash, andb_false_r.
    destruct rest as [|? [|? ?]]; reflexivity.
  - assert (replaceOctal (x :: backslash :: rest)
            = replaceOctal [x] ++ replaceOctal (backslash :: rest)) as Hx.
    { apply (IH 1%nat) with (pre := [x]); [simpl; lia|done]. }
    destruct rest as [|r rest]; [by rewrite Hx|].
    rewrite isDigit_backslash, andb_false_r, andb_false_l. by rewrite Hx.
  - assert (replaceOctal (x :: y :: backslash :: rest)
            = replaceOctal [x; y] ++ replaceOctal (backslash :: rest)) as Hx.
    { apply (IH 2%nat) with (pre := [x; y]); [simpl; lia|done]. }
    rewrite isDigit_backslash, andb_false_r. by rewrite Hx.
  - destruct ((c =? backslash)%N && isDigit x && isDigit y && isDigit z).
    + cbn [app]. f_equal.
      apply (IH (List.length t')) with (pre := t'); [simpl; lia|done].
    + cbn [app]. f_equal.
      apply (IH (List.length (x :: y :: z :: t'))) with (pre := x :: y :: z :: t');
        [simpl; lia|done].
Qed.

Lemma octal_escape_value d1 d2 d3 :
  isOctalDigit d1 = true -> isOctalDigit d2 = true -> isOctalDigit d3 = true ->
  fromCharCode (parseInt8 [d1; d2; d3])
  = (64 * (d1 - 48) + 8 * (d2 - 48) + (d3 - 48))%N.
Proof.
  intros H1 H2 H3. unfold parseInt8, parseOctalFrom. rewrite H1, H2, H3.
  unfold isOctalDigit in *.
  apply andb_true_iff in H1 as [H1 H1'], H2 as [H2 H2'], H3 as [H3 H3'].
  apply N.leb_le in H1, H1', H2, H2', H3, H3'.
  unfold fromCharCode. rewrite N.mod_small by lia. lia.
Qed.

Lemma replaceOctal_escape pre d1 d2 d3 post :
  isOctalDigit d1 = true -> isOctalDigit d2 = true -> isOctalDigit d3 = true ->
  replaceOctal (pre ++ backslash :: d1 :: d2 :: d3 :: post) =
  replaceOctal pre
    ++ (64 * (d1 - 48) + 8 * (d2 - 48) + (d3 - 48))%N :: replaceOctal post.
Proof.
  intros H1 H2 H3. rewrite replaceOctal_app_backslash, replaceOctal_cons.
  rewrite !isOctalDigit_isDigit by done.
  rewrite N.eqb_refl. cbn [andb].
  by rewrite octal_escape_value.
Qed.

(** Text without a backslash goes through both passes unchanged. *)
Lemma replaceOctal_plain s :
  Forall (fun c => c <> backslash) s -> replaceOctal s = s.
Proof.
  induction 1 as [|c t Hc _ IH]; [done|].
  rewrite replaceOctal_cons.
  apply N.eqb_neq in Hc. rewrite Hc. cbn [andb].
  destruct t as [|? [|? [|? ?]]]; by rewrite IH.
Qed.

Lemma collapseBackslashes_cons c t :
  collapseBackslashes (c :: t) =
    match t with
    | c' :: rest =>
        if (c =? backslash)%N && (c' =? backslash)%N
        then backslash :: collapseBackslashes rest
        else c :: collapseBackslashes t
    | [] => [c]
    end.
Proof. reflexivity. Qed.

Lemma collapseBackslashes_plain s :
  Forall (fun c => c <> backslash) s -> collapseBackslashes s = s.
Proof.
  induction 1 as [|c t Hc _ IH]; [done|].
  rewrite collapseBackslashes_cons.
  apply N.eqb_neq in Hc. rewrite Hc. cbn [andb].
  destruct t; by rewrite ?IH.
Qed.

(** A pair of backslashes that follows text not ending in a backslash
    becomes one backslash, and the scan resumes after the pair. *)
Lemma collapseBackslashes_pair pre post :
  last pre <> Some backslash ->
  collapseBackslashes (pre ++ backslash :: backslash :: post) =
  collapseBackslashes pre ++ backslash :: collapseBackslashes post.
Proof.
  remember (List.length pre) as n eqn:Hn. revert pre Hn.
  induction n as [n IH] using lt_wf_ind. intros pre -> Hlast.
  destruct pre as [|c [|c' t]]; cbn [app].
  - rewrite collapseBackslashes_cons. by rewrite N.eqb_refl.
  - rewrite collapseBackslashes_cons.
    assert (c <> backslash) as Hc by (intros ->; by apply Hlast).
    apply N.eqb_neq in Hc. rewrite Hc. cbn [andb app].
    rewrite (collapseBackslashes_cons backslash). by rewrite N.eqb_refl.
  - rewrite (collapseBackslashes_cons c (c' :: t ++ _)),
            (collapseBackslashes_cons c (c' :: t)).
    destruct ((c =? backslash)%N && (c' =? backslash)%N) eqn:Hcc.
    + cbn [app]. f_equal.
      apply (IH (List.length t)) with (pre := t); [simpl; lia|done|].
      destruct t as [|x t]; [|done].
      apply andb_true_iff in Hcc as [_ Hc']. apply N.eqb_eq in Hc'.
      subst c'. by exfalso; apply Hlast.
    + cbn [app]. f_equal.
      apply (IH (List.length (c' :: t))) with (pre := c' :: t);
        [simpl; lia|done|done].
Qed.

End DecodeFacts.

(** ** The control channel *)

Section SplitFacts.
Import Wire.

Lemma split_word (w : string) : word w -> Js.split Js.space w = [w].
Proof.
  unfold word. induction w as [|c w IH]; [done|]. cbn [Js.indexOf Js.split].
  case_bool_decide as Hc; [done|]. intros H.
  destruct (Js.indexOf Js.space w); [done|]. by rewrite IH.
Qed.

Lemma split_word_space (w s : string) :
  word w -> Js.split Js.space (w +:+ String Js.space s) = w :: Js.split Js.space s.
Proof.
  unfold word. induction w as [|c w IH].
  - intros _. reflexivity.
  - cbn [Js.indexOf]. case_bool_decide as Hc; [done|]. intros H.
    destruct (Js.indexOf Js.space w) eqn:Hw; [done|].
    change (String c w +:+ String Js.space s) with (String c (w +:+ String Js.space s)).
    cbn [Js.split]. rewrite bool_decide_eq_false_2 by done. by rewrite IH.
Qed.

Lemma split_nonempty (sep : ascii) (s : string) : Js.split sep s <> [].
Proof.
  induction s as [|c s IH]; [done|]. cbn [Js.split].
  case_bool_decide; [done|]. by destruct (Js.split sep s).
Qed.

(** The fields of the three line shapes. *)
Lemma split_beginLine tag rest :
  word tag -> Js.split Js.space (beginLine tag rest) !! 1%nat = Some tag.
Proof.
  intros Hw. destruct rest as [r|]; unfold beginLine.
  - change ("%%begin " +:+ tag +:+ " " +:+ r)
      with ("%%begin" +:+ String Js.space (tag +:+ String Js.space r)).
    rewrite split_word_space by done. cbn [lookup list_lookup].
    by rewrite split_word_space by done.
  - change ("%%begin " +:+ tag) with ("%%begin" +:+ String Js.space tag).
    rewrite split_word_space by done. cbn [lookup list_lookup].
    by rewrite split_word.
Qed.

Lemma split_endLine tag status :
  word tag -> word status ->
  Js.split Js.space (endLine tag status) = ["%%end"; tag; status].
Proof.
  intros Ht Hs. unfold endLine.
  change ("%%end " +:+ tag +:+ " " +:+ status)
    with ("%%end" +:+ String Js.space (tag +:+ String Js.space status)).
  rewrite split_word_space by done. rewrite split_word_space by done.
  by rewrite split_word.
Qed.

Lemma split_endLineBare tag :
  word tag -> Js.split Js.space (endLineBare tag) = ["%%end"; tag].
Proof.
  intros Ht. unfold endLineBare.
  change ("%%end " +:+ tag) with ("%%end" +:+ String Js.space tag).
  rewrite split_word_space by done. by rewrite split_word.
Qed.

End SplitFacts.

Section LifecycleFacts.
Import Profile Control Wire.

Lemma handleControlLine_started line st :
  controlStartedRef (handleControlLine line st) = controlStartedRef st.
Proof.
  unfold handleControlLine, handleBegin, handleData, handleEnd.
  repeat (case_match; try done).
Qed.

Lemma controlEventListener_started payload st :
  controlStartedRef (controlEventListener payload st) = controlStartedRef st.
Proof.
  unfold controlEventListener.
  repeat (case_match; try done); apply handleControlLine_started.
Qed.

(** No handler ever sets [controlStartedRef]. *)
Lemma step_started st e :
  controlStartedRef st = false -> controlStartedRef (step st e) = false.
Proof.
  intros H. destruct e; cbn [step]; try done.
  - unfold stopControlSession. by repeat case_match.
  - unfold sendControlCommand. by repeat case_match.
  - by rewrite controlEventListener_started.
Qed.

Lemma run_started st events :
  controlStartedRef st = false -> controlStartedRef (run st events) = false.
Proof.
  revert st. induction events as [|e events IH]; intros st H; [done|].
  apply IH. by apply step_started.
Qed.

Lemma controlReady_needs_started st :
  controlStartedRef st = false -> controlReady st = false.
Proof. unfold controlReady. intros ->. apply andb_false_r. Qed.

(** C1. What the code does where the claim expects the connection to be
    ready: after [start(session, profile)] in remote mode and a "started"
    event carrying this connection's key, the event is accepted (the
    queues are reset and the disconnected flag is cleared) but
    [controlStartedRef] is still false, so [controlReady()] is false; and
    whatever happens from the initial state, [controlReady()] is false. *)
Theorem controlReady_false_after_started (profile : HostProfile) (session : string)
    (m : Mode) (events : list Event) :
  let key := controlSessionKeyFor (cloneProfile profile) session in
  let st := run (initial (Remote profile))
                [EvStart session profile; lifecycleEvent key "started"] in
  controlSessionKeyRef st = Some key
  /\ controlRef st = Some (session, cloneProfile profile)
  /\ mode st = Remote profile
  /\ controlDisconnected st = false
  /\ controlStartedRef st = false
  /\ controlReady st = false
  /\ controlReady (run (initial m) events) = false.
Proof.
  cbn zeta. split; [|split; [|split; [|split; [|split; [|split]]]]].
  - cbn. by rewrite bool_decide_eq_true_2.
  - cbn. by rewrite bool_decide_eq_true_2.
  - cbn. by rewrite bool_decide_eq_true_2.
  - cbn. by rewrite bool_decide_eq_true_2.
  - by apply run_started.
  - apply controlReady_needs_started. by apply run_started.
  - apply controlReady_needs_started. by apply run_started.
Qed.

End LifecycleFacts.

Section CorrelationFacts.
Import Profile Control Wire.

Lemma handleControlLine_beginLine tag rest st :
  word tag ->
  handleControlLine (beginLine tag rest) st =
    match pending st with
    | entry :: q => withQueues q (<[tag := entry]> (inflight st)) (promises st) st
    | [] => st
    end.
Proof.
  intros Hw. unfold handleControlLine.
  assert (Js.startsWith (beginLine tag rest) "%%begin " = true) as ->.
  { destruct rest; apply startsWith_app. }
  unfold handleBegin. by rewrite split_beginLine.
Qed.

Lemma handleControlLine_endLine tag status st :
  word tag -> word status ->
  handleControlLine (endLine tag status) st =
    match inflight st !! tag with
    | Some entry =>
        withQueues (pending st) (delete tag (inflight st))
          (settle (entryId entry)
             (if bool_decide (status = "0") then Resolved (data entry)
              else Rejected (endErrorMessage (data entry) status))
             (promises st)) st
    | None => st
    end.
Proof.
  intros Ht Hs. unfold handleControlLine.
  change (Js.startsWith (endLine tag status) "%%begin ") with false.
  change (Js.startsWith (endLine tag status) "%%data ") with false.
  assert (Js.startsWith (endLine tag status) "%%end " = true) as ->
    by apply startsWith_app.
  cbn match. unfold handleEnd. by rewrite split_endLine.
Qed.

Lemma handleControlLine_endLineBare tag st :
  word tag ->
  handleControlLine (endLineBare tag) st =
    match inflight st !! tag with
    | Some entry =>
        withQueues (pending st) (delete tag (inflight st))
          (settle (entryId entry) (Resolved (data entry)) (promises st)) st
    | None => st
    end.
Proof.
  intros Ht. unfold handleControlLine.
  change (Js.startsWith (endLineBare tag) "%%begin ") with false.
  change (Js.startsWith (endLineBare tag) "%%data ") with false.
  assert (Js.startsWith (endLineBare tag) "%%end " = true) as ->
    by apply startsWith_app.
  cbn match. unfold handleEnd. by rewrite split_endLineBare.
Qed.

(** A "line" event for the current connection is handed to
    [handleControlLine]. *)
Lemma step_lineEvent key line st :
  controlSessionKeyRef st = Some key -> Js.truthy line = true ->
  step st (lineEvent key line) = handleControlLine line st.
Proof.
  intros Hk Hl. cbn. rewrite Hk, bool_decide_eq_true_2 by done. cbn.
  by rewrite Hl.
Qed.

Lemma run_sendsSucceeded st ids : run st (sendsSucceeded ids) = st.
Proof. induction ids as [|i ids IH]; [done|]. exact IH. Qed.

Lemma run_app st l1 l2 : run st (l1 ++ l2) = run (run st l1) l2.
Proof. apply foldl_app. Qed.

Lemma settle_unsettled id o (p : gmap nat Settled) :
  p !! id = None -> settle id o p !! id = Some o.
Proof. intros H. unfold settle. rewrite H. apply lookup_insert_eq. Qed.

Lemma settle_other id j o (p : gmap nat Settled) :
  j <> id -> settle id o p !! j = p !! j.
Proof.
  intros H. unfold settle. destruct (p !! id); [done|].
  by rewrite lookup_insert_ne.
Qed.

Lemma settle_settled id o (p : gmap nat Settled) :
  is_Some (settle id o p !! id).
Proof.
  unfold settle. destruct (p !! id) eqn:H; [by rewrite H|].
  rewrite lookup_insert_eq. by eexists.
Qed.

End CorrelationFacts.

Section FifoFacts.
Local Open Scope list_scope.
Import Profile Control Wire.

Lemma sendControlCommand_active cmd st session profile key :
  controlRef st = Some (session, profile) ->
  controlSessionKeyRef st = Some key -> Js.truthy key = true ->
  let st' := snd (sendControlCommand cmd st) in
  pending st' = pending st ++ [{| entryId := nextId st; command := cmd; data := [] |}]
  /\ inflight st' = inflight st
  /\ promises st' = promises st
  /\ nextId st' = S (nextId st)
  /\ controlRef st' = controlRef st
  /\ controlSessionKeyRef st' = controlSessionKeyRef st.
Proof.
  intros Hc Hk Ht. unfold sendControlCommand. rewrite Hc, Hk, Ht. by cbn.
Qed.

(** C3. A [%%begin] line hands its tag to the oldest queued entry: after
    commands A, B and C are issued in that order on an idle queue, the
    first, second and third [%%begin] tags are bound to the entries of A,
    B and C, whatever sends have completed in between; a [%%begin] that
    finds the queue empty leaves the state as it is. *)
Theorem begin_tags_follow_issue_order
    (st : State) (key session : string) (profile : HostProfile)
    (A B C t1 t2 t3 : string) (r1 r2 r3 : option string)
    (ok0 ok1 ok2 ok3 ok4 : list nat) :
  controlRef st = Some (session, profile) ->
  controlSessionKeyRef st = Some key -> Js.truthy key = true ->
  pending st = [] ->
  word t1 -> word t2 -> word t3 ->
  let eA := {| entryId := nextId st; command := A; data := [] |} in
  let eB := {| entryId := S (nextId st); command := B; data := [] |} in
  let eC := {| entryId := S (S (nextId st)); command := C; data := [] |} in
  let issued :=
    run st ([EvSend A] ++ sendsSucceeded ok0 ++ [EvSend B] ++ sendsSucceeded ok1
            ++ [EvSend C] ++ sendsSucceeded ok2) in
  let s1 := run issued ([lineEvent key (beginLine t1 r1)] ++ sendsSucceeded ok3) in
  let s2 := run s1 ([lineEvent key (beginLine t2 r2)] ++ sendsSucceeded ok4) in
  let s3 := run s2 [lineEvent key (beginLine t3 r3)] in
  pending issued = [eA; eB; eC]
  /\ (inflight s1 !! t1 = Some eA /\ pending s1 = [eB; eC])
  /\ (inflight s2 !! t2 = Some eB /\ pending s2 = [eC])
  /\ (inflight s3 !! t3 = Some eC /\ pending s3 = [])
  /\ (forall st0 tag rest e q,
        word tag -> pending st0 = e :: q ->
        handleControlLine (beginLine tag rest) st0
        = withQueues q (<[tag := e]> (inflight st0)) (promises st0) st0)
  /\ (forall st0 tag rest,
        word tag -> pending st0 = [] ->
        handleControlLine (beginLine tag rest) st0 = st0).
Proof.
  intros Hc Hk Ht Hq Hw1 Hw2 Hw3. cbn zeta.
  assert (forall t r, Js.truthy (beginLine t r) = true) as Hline
    by (by intros t [r|]).
  (* the three sends *)
  rewrite !run_app, !run_sendsSucceeded. cbn [run foldl step].
  destruct (sendControlCommand_active A st _ _ _ Hc Hk Ht)
    as (HpA & HiA & _ & HnA & HcA & HkA).
  set (sA := snd (sendControlCommand A st)) in *.
  rewrite Hc in HcA. rewrite Hk in HkA.
  destruct (sendControlCommand_active B sA _ _ _ HcA HkA Ht)
    as (HpB & HiB & _ & HnB & HcB & HkB).
  set (sB := snd (sendControlCommand B sA)) in *.
  rewrite HcA in HcB. rewrite HkA in HkB.
  destruct (sendControlCommand_active C sB _ _ _ HcB HkB Ht)
    as (HpC & HiC & _ & HnC & HcC & HkC).
  set (sC := snd (sendControlCommand C sB)) in *.
  rewrite HkB in HkC.
  assert (pending sC = [ {| entryId := nextId st; command := A; data := [] |};
                         {| entryId := S (nextId st); command := B; data := [] |};
                         {| entryId := S (S (nextId st)); command := C; data := [] |} ])
    as HpC'.
  { rewrite HpC, HpB, HpA, Hq, HnB, HnA. done. }
  (* the three begin lines *)
  rewrite (step_lineEvent key _ sC HkC (Hline _ _)).
  rewrite (handleControlLine_beginLine t1 r1 sC Hw1), HpC'.
  set (b1 := withQueues _ _ _ sC).
  rewrite (step_lineEvent key _ b1 HkC (Hline _ _)).
  rewrite (handleControlLine_beginLine t2 r2 b1 Hw2). cbn [b1 withQueues pending setPending setInflight setPromises].
  set (b2 := withQueues _ _ _ b1).
  rewrite (step_lineEvent key _ b2 HkC (Hline _ _)).
  rewrite (handleControlLine_beginLine t3 r3 b2 Hw3). cbn [b2 withQueues pending setPending setInflight setPromises].
  split; [done|].
  split; [split; [apply lookup_insert_eq|done]|].
  split; [split; [apply lookup_insert_eq|done]|].
  split; [split; [apply lookup_insert_eq|done]|].
  split.
  - intros st0 tag rest e q Hw Hp. rewrite handleControlLine_beginLine by done.
    by rewrite Hp.
  - intros st0 tag rest Hw Hp. rewrite handleControlLine_beginLine by done.
    by rewrite Hp.
Qed.

End FifoFacts.

Section FifoWitness.
Import Profile Control Wire Examples.
Local Open Scope list_scope.

(** C3, witness: commands [a], [b], [c] on the connection of session
    [arc], answered under tags 10, 11 and 12 while sends complete out of
    order. *)
Lemma begin_tags_follow_issue_order_witness :
  let issued :=
    run started ([EvSend "a"] ++ sendsSucceeded [0%nat] ++ [EvSend "b"]
                 ++ sendsSucceeded [] ++ [EvSend "c"] ++ sendsSucceeded [2%nat; 1%nat]) in
  let s1 := run issued ([lineEvent arcKey (beginLine "10" (Some "1 1"))]
                        ++ sendsSucceeded []) in
  let s2 := run s1 ([lineEvent arcKey (beginLine "11" None)]
                    ++ sendsSucceeded [1%nat]) in
  let s3 := run s2 [lineEvent arcKey (beginLine "12" (Some "3"))] in
  pending issued = [ {| entryId := nextId started; command := "a"; data := [] |};
                     {| entryId := S (nextId started); command := "b"; data := [] |};
                     {| entryId := S (S (nextId started)); command := "c"; data := [] |} ]
  /\ inflight s3 !! "12"
     = Some {| entryId := S (S (nextId started)); command := "c"; data := [] |}
  /\ pending s3 = [].
Proof.
  destruct (begin_tags_follow_issue_order started arcKey "arc" opsProfile
              "a" "b" "c" "10" "11" "12" (Some "1 1") None (Some "3")
              [0%nat] [] [2%nat; 1%nat] [] [1%nat]
              eq_refl eq_refl eq_refl eq_refl eq_refl eq_refl eq_refl)
    as (H1 & _ & _ & (H3 & H4) & _).
  split; [exact H1|]. split; [exact H3|exact H4].
Defined.

End FifoWitness.

Section ReplyFacts.
Import Profile Control Wire Examples.
Local Open Scope list_scope.

Lemma join_newline_empty (lines : list string) :
  Js.join (String Js.newline EmptyString) lines = EmptyString
  <-> lines = [] \/ lines = [EmptyString].
Proof.
  split.
  - destruct lines as [|x [|y rest]]; cbn [Js.join]; [by left| |].
    + intros ->. by right.
    + destruct x; discriminate.
  - by intros [->| ->].
Qed.

Lemma endErrorMessage_cases (lines : list string) (status : string) :
  endErrorMessage lines status =
    if bool_decide (lines = [] \/ lines = [EmptyString])
    then "tmux error " +:+ status
    else Js.join (String Js.newline EmptyString) lines.
Proof.
  unfold endErrorMessage.
  destruct (Js.join _ lines) as [|c j] eqn:Hj; cbn [Js.truthy].
  - apply (proj1 (join_newline_empty _)) in Hj. by rewrite bool_decide_eq_true_2.
  - rewrite bool_decide_eq_false_2; [done|].
    intros H. apply (proj2 (join_newline_empty _)) in H. congruence.
Qed.

(** C5, counterexample. An entry that accumulated one empty line is
    rejected with the generic status message, not with the (empty) text of
    its joined lines. *)
Lemma end_rejects_empty_line_with_generic_message :
  inflight oneEmptyLine !! "7"
    = Some {| entryId := 0; command := "list-windows -t arc"; data := [EmptyString] |}
  /\ promises oneEmptyLine !! 0%nat = None
  /\ promises (handleControlLine (endLine "7" "1") oneEmptyLine) !! 0%nat
     = Some (Rejected "tmux error 1")
  /\ Claimed.rejectionMessage [EmptyString] "1" = EmptyString
  /\ promises (handleControlLine (endLine "7" "1") oneEmptyLine) !! 0%nat
     <> Some (Rejected (Claimed.rejectionMessage [EmptyString] "1")).
Proof.
  split; [vm_compute; reflexivity|]. split; [vm_compute; reflexivity|].
  split; [vm_compute; reflexivity|]. split; [reflexivity|].
  vm_compute. discriminate.
Qed.

(** C5, amended. A line [%%end t status] for an in-flight entry with tag
    [t] removes the entry from the in-flight map; with status [0] the
    entry's promise resolves with its accumulated lines, and otherwise it
    rejects with the accumulated lines joined by newlines, or with the
    generic [tmux error <status>] message when that text is empty, that
    is when no line or only one empty line was accumulated. *)
Theorem end_line_settles_entry (st : State) (tag status : string)
    (e : ControlPending) :
  word tag -> word status ->
  inflight st !! tag = Some e ->
  promises st !! entryId e = None ->
  let st' := handleControlLine (endLine tag status) st in
  inflight st' = delete tag (inflight st)
  /\ inflight st' !! tag = None
  /\ pending st' = pending st
  /\ promises st' !! entryId e =
       Some (if bool_decide (status = "0") then Resolved (data e)
             else Rejected
                    (if bool_decide (data e = [] \/ data e = [EmptyString])
                     then "tmux error " +:+ status
                     else Js.join (String Js.newline EmptyString) (data e))).
Proof.
  intros Ht Hs He Hp. cbn zeta.
  rewrite handleControlLine_endLine, He by done. cbn [withQueues inflight pending promises setPending setInflight setPromises].
  split; [done|]. split; [apply lookup_delete_eq|]. split; [done|].
  rewrite settle_unsettled by done. by rewrite endErrorMessage_cases.
Qed.

(** C5, witness: status 0 for the entry in flight under tag 7. *)
Lemma end_line_settles_entry_witness :
  promises (handleControlLine (endLine "7" "0") oneEmptyLine) !! 0%nat
    = Some (Resolved [EmptyString])
  /\ inflight (handleControlLine (endLine "7" "0") oneEmptyLine) !! "7" = None.
Proof.
  destruct (end_line_settles_entry oneEmptyLine "7" "0"
              {| entryId := 0; command := "list-windows -t arc"; data := [EmptyString] |}
              eq_refl eq_refl ltac:(vm_compute; reflexivity) ltac:(vm_compute; reflexivity))
    as (_ & H2 & _ & H4).
  split; [exact H4|exact H2].
Defined.

(** C10. A [%%end t] line with no status field is treated as status [0]:
    the in-flight entry with tag [t] is removed and its promise resolves
    with its accumulated lines. *)
Theorem end_without_status_resolves (st : State) (tag : string)
    (e : ControlPending) :
  word tag ->
  inflight st !! tag = Some e ->
  promises st !! entryId e = None ->
  let st' := handleControlLine (endLineBare tag) st in
  handleControlLine (endLineBare tag) st = handleControlLine (endLine tag "0") st
  /\ inflight st' !! tag = None
  /\ promises st' !! entryId e = Some (Resolved (data e)).
Proof.
  intros Ht He Hp. cbn zeta.
  rewrite handleControlLine_endLineBare, handleControlLine_endLine by done.
  rewrite He. cbn [withQueues inflight pending promises setPending setInflight setPromises].
  split; [done|]. split; [apply lookup_delete_eq|].
  by rewrite settle_unsettled.
Qed.

(** C10, witness: a bare [%%end 7] for the entry in flight under tag 7. *)
Lemma end_without_status_resolves_witness :
  promises (handleControlLine (endLineBare "7") oneEmptyLine) !! 0%nat
    = Some (Resolved [EmptyString])
  /\ inflight (handleControlLine (endLineBare "7") oneEmptyLine) !! "7" = None.
Proof.
  destruct (end_without_status_resolves oneEmptyLine "7"
              {| entryId := 0; command := "list-windows -t arc"; data := [EmptyString] |}
              eq_refl ltac:(vm_compute; reflexivity) ltac:(vm_compute; reflexivity))
    as (_ & H2 & H3).
  split; [exact H3|exact H2].
Defined.

End ReplyFacts.

Section SendFailureFacts.
Import Profile Control Wire Examples.
Local Open Scope list_scope.

Lemma removeEntry_split id q1 e q2 :
  Forall (fun x => entryId x <> id) q1 -> entryId e = id ->
  removeEntry id (q1 ++ e :: q2) = q1 ++ q2.
Proof.
  intros Hq He. induction Hq as [|x q1 Hx _ IH]; cbn [app removeEntry].
  - by rewrite bool_decide_eq_true_2.
  - rewrite bool_decide_eq_false_2 by done. by rewrite IH.
Qed.

Lemma removeEntry_other id (q : list ControlPending) other :
  entryId other <> id -> other ∈ removeEntry id q <-> other ∈ q.
Proof.
  intros Hne. induction q as [|x q IH]; cbn [removeEntry]; [done|].
  case_bool_decide as Hx.
  - rewrite elem_of_cons. split; [by right|].
    intros [->|H]; [by subst id|done].
  - by rewrite !elem_of_cons, IH.
Qed.

Lemma rejectAll_lookup message (entries : list ControlPending)
    (p : gmap nat Settled) (id : nat) :
  rejectAll message entries p !! id =
    match p !! id with
    | Some o => Some o
    | None => if bool_decide (id ∈ entryId <$> entries)
              then Some (Rejected message) else None
    end.
Proof.
  unfold rejectAll. revert p.
  induction entries as [|x entries IH]; intros p; cbn [foldl fmap list_fmap].
  - by destruct (p !! id).
  - rewrite IH. destruct (decide (id = entryId x)) as [->|Hne].
    + rewrite (bool_decide_eq_true_2 (entryId x ∈ _ :: _)) by apply list_elem_of_here.
      destruct (p !! entryId x) eqn:Hp.
      * unfold settle. by rewrite Hp, Hp.
      * by rewrite settle_unsettled.
    + rewrite settle_other by done.
      destruct (p !! id); [done|].
      apply (f_equal (fun b : bool => if b then _ else _)).
      apply bool_decide_ext. rewrite elem_of_cons. tauto.
Qed.

(** A reset leaves no outstanding promise unsettled. *)
Lemma resetControlQueues_settles_all reason st e :
  e ∈ pending st ++ inflightEntries st ->
  let st' := resetControlQueues reason st in
  pending st' = [] /\ inflight st' = ∅
  /\ is_Some (promises st' !! entryId e).
Proof.
  intros He. cbn zeta. split; [done|]. split; [done|].
  cbn [resetControlQueues promises setPromises setPending setInflight].
  rewrite !rejectAll_lookup.
  destruct (promises st !! entryId e); [by eexists|].
  apply elem_of_app in He as [He|He].
  - rewrite bool_decide_eq_true_2; [by eexists|].
    apply list_elem_of_fmap. by exists e.
  - case_bool_decide; [by eexists|].
    rewrite bool_decide_eq_true_2; [by eexists|].
    apply list_elem_of_fmap. by exists e.
Qed.

(** C2, counterexample. With two commands queued, a failed send of the
    first rejects only the first: the second stays queued and its promise
    stays unsettled. *)
Lemma send_failure_leaves_others_pending :
  pending twoQueued
    = [ {| entryId := 0; command := "list-windows -t arc"; data := [] |};
        {| entryId := 1; command := "capture-pane -p -t arc:0 -S -200 -J"; data := [] |} ]
  /\ pending (controlSendFailed 0 "broken pipe" twoQueued)
    = [ {| entryId := 1; command := "capture-pane -p -t arc:0 -S -200 -J"; data := [] |} ]
  /\ promises (controlSendFailed 0 "broken pipe" twoQueued) !! 0%nat
    = Some (Rejected "broken pipe")
  /\ promises (controlSendFailed 0 "broken pipe" twoQueued) !! 1%nat = None
  /\ ~ Claimed.sendFailureRejectsAll twoQueued 0 "broken pipe".
Proof.
  assert (pending twoQueued
    = [ {| entryId := 0; command := "list-windows -t arc"; data := [] |};
        {| entryId := 1; command := "capture-pane -p -t arc:0 -S -200 -J"; data := [] |} ])
    as Hq by (vm_compute; reflexivity).
  assert (promises (controlSendFailed 0 "broken pipe" twoQueued) !! 1%nat = None)
    as Hp by (vm_compute; reflexivity).
  split; [exact Hq|]. split; [vm_compute; reflexivity|].
  split; [vm_compute; reflexivity|]. split; [exact Hp|].
  intros [_ H].
  destruct (H {| entryId := 1; command := "capture-pane -p -t arc:0 -S -200 -J";
                 data := [] |}) as [m Hm].
  - rewrite Hq. apply elem_of_app. left. apply list_elem_of_further, list_elem_of_here.
  - cbn [entryId] in Hm. rewrite Hp in Hm. discriminate Hm.
Qed.

(** C2, amended. When the send of a command fails, the connection is
    flagged disconnected (so [controlReady()] is false), the command's
    entry is taken out of the pending queue and its promise is rejected
    with the error of the failed send; every other outstanding command
    stays where it is, queued or in flight, and its promise is left as
    it was. *)
Theorem controlSendFailed_rejects_only_sender (st : State) (id : nat)
    (message : string) (q1 q2 : list ControlPending) (e other : ControlPending) :
  pending st = q1 ++ e :: q2 ->
  Forall (fun x => entryId x <> id) q1 -> entryId e = id ->
  promises st !! id = None ->
  entryId other <> id ->
  let st' := controlSendFailed id message st in
  controlDisconnected st' = true
  /\ controlReady st' = false
  /\ pending st' = q1 ++ q2
  /\ promises st' !! id = Some (Rejected message)
  /\ (other ∈ pending st' <-> other ∈ pending st)
  /\ inflight st' = inflight st
  /\ promises st' !! entryId other = promises st !! entryId other.
Proof.
  intros Hq Hq1 He Hp Hother. cbn zeta.
  cbn [controlSendFailed controlDisconnected pending inflight promises
       setPending setControlDisconnected setMsg setPromises].
  split; [done|]. split.
  { unfold controlReady.
    cbn [controlDisconnected controlSendFailed negb
         setPending setControlDisconnected setMsg setPromises].
    by rewrite andb_false_r. }
  split; [by rewrite Hq, removeEntry_split|].
  split; [by apply settle_unsettled|].
  split; [by apply removeEntry_other|].
  split; [done|]. by apply settle_other.
Qed.

(** C2, witness: the first of two queued sends fails. *)
Lemma controlSendFailed_rejects_only_sender_witness :
  let st' := controlSendFailed 0 "broken pipe" twoQueued in
  let other := {| entryId := 1; command := "capture-pane -p -t arc:0 -S -200 -J";
                  data := [] |} in
  controlDisconnected st' = true
  /\ pending st' = [] ++ [other]
  /\ promises st' !! 0%nat = Some (Rejected "broken pipe")
  /\ promises st' !! entryId other = promises twoQueued !! entryId other.
Proof.
  destruct (controlSendFailed_rejects_only_sender twoQueued 0 "broken pipe" []
              [ {| entryId := 1; command := "capture-pane -p -t arc:0 -S -200 -J";
                   data := [] |} ]
              {| entryId := 0; command := "list-windows -t arc"; data := [] |}
              {| entryId := 1; command := "capture-pane -p -t arc:0 -S -200 -J";
                 data := [] |}
              ltac:(vm_compute; reflexivity) (Forall_nil_2 _) eq_refl
              ltac:(vm_compute; reflexivity) ltac:(discriminate))
    as (H1 & _ & H3 & H4 & _ & _ & H7).
  cbn zeta. split; [exact H1|]. split; [exact H3|]. split; [exact H4|exact H7].
Defined.

End SendFailureFacts.

(** ** Trimming *)

Section TrimFacts.

Lemma trimStart_head (s : string) :
  match Js.trimStart s with
  | EmptyString => True
  | String c _ => Js.isWhite c = false
  end.
Proof.
  induction s as [|c s IH]; cbn [Js.trimStart]; [done|].
  destruct (Js.isWhite c) eqn:Hc; [done|]. exact Hc.
Qed.

Lemma trimStart_fixed (s : string) :
  match s with
  | EmptyString => True
  | String c _ => Js.isWhite c = false
  end -> Js.trimStart s = s.
Proof. destruct s as [|c s]; [done|]. cbn [Js.trimStart]. by intros ->. Qed.

Lemma trimEnd_head (s : string) :
  match s with
  | EmptyString => True
  | String c _ => Js.isWhite c = false
  end ->
  match Js.trimEnd s with
  | EmptyString => True
  | String c _ => Js.isWhite c = false
  end.
Proof.
  destruct s as [|c s]; [done|]. cbn [Js.trimEnd]. intros Hc.
  by rewrite Hc.
Qed.

Lemma trimEnd_idemp (s : string) : Js.trimEnd (Js.trimEnd s) = Js.trimEnd s.
Proof.
  induction s as [|c s IH]; [done|]. cbn [Js.trimEnd].
  destruct (Js.isWhite c && negb (Js.truthy (Js.trimEnd s))) eqn:Hc; [done|].
  cbn [Js.trimEnd]. rewrite IH. by rewrite Hc.
Qed.

Lemma trim_idemp (s : string) : Js.trim (Js.trim s) = Js.trim s.
Proof.
  unfold Js.trim.
  rewrite (trimStart_fixed (Js.trimEnd (Js.trimStart s))).
  - apply trimEnd_idemp.
  - apply trimEnd_head, trimStart_head.
Qed.

End TrimFacts.

(** ** Window normalisation *)

Section WindowsFacts.
Import Profile Windows Merge.
Local Open Scope list_scope.

Lemma trimmedIdOf_candidate w n : trimmedIdOf (candidateOf w n) = trimmedIdOf w.
Proof.
  unfold candidateOf. destruct (Js.truthy (trimmedIdOf w)) eqn:Ht; [|done].
  unfold trimmedIdOf in *. cbn [id]. destruct (id w) as [i|]; [|done].
  apply trim_idemp.
Qed.

Lemma identityKey_candidate w n : identityKey (candidateOf w n) = identityKey w.
Proof. unfold identityKey. by rewrite trimmedIdOf_candidate. Qed.

Lemma mapGet_None key (m : ordmap) : mapGet key m = None <-> key ∉ m.*1.
Proof.
  induction m as [|[k v] m IH]; cbn [mapGet fmap list_fmap fst].
  - split; [intros _; apply not_elem_of_nil|done].
  - rewrite not_elem_of_cons. destruct (decide (k = key)) as [->|Hk].
    + rewrite bool_decide_eq_true_2 by done. split; [done|]. by intros [? _].
    + rewrite bool_decide_eq_false_2 by done.
      rewrite IH. split; [by intros ?; split|by intros [_ ?]].
Qed.

Lemma mapGet_Some key (m : ordmap) v : mapGet key m = Some v -> key ∈ m.*1.
Proof.
  intros H. destruct (decide (key ∈ m.*1)) as [|Hn]; [done|].
  apply mapGet_None in Hn. congruence.
Qed.

Lemma mapSet_keys key v (m : ordmap) :
  (mapSet key v m).*1 = if bool_decide (key ∈ m.*1) then m.*1 else m.*1 ++ [key].
Proof.
  induction m as [|[k x] m IH]; cbn [mapSet fmap list_fmap fst].
  - by rewrite bool_decide_eq_false_2 by apply not_elem_of_nil.
  - destruct (decide (k = key)) as [->|Hk].
    + rewrite (bool_decide_eq_true_2 (key = key)) by done.
      by rewrite bool_decide_eq_true_2 by apply list_elem_of_here.
    + rewrite (bool_decide_eq_false_2 (k = key)) by done.
      cbn [fmap list_fmap fst]. rewrite IH.
      rewrite (bool_decide_ext (key ∈ k :: m.*1) (key ∈ m.*1)).
      * by case_bool_decide.
      * rewrite elem_of_cons. split; [intros [?|?]; [by subst|done]|by right].
Qed.

Lemma mapSet_Forall (P : string * TmuxWindow -> Prop) key v (m : ordmap) :
  P (key, v) -> Forall P m -> Forall P (mapSet key v m).
Proof.
  intros Hv. induction 1 as [|[k x] m Hx Hm IH]; cbn [mapSet].
  - by constructor.
  - destruct (decide (k = key)) as [->|Hk].
    + rewrite bool_decide_eq_true_2 by done. by constructor.
    + rewrite bool_decide_eq_false_2 by done. by constructor.
Qed.

Lemma grouped_mapSet seen byKey w n :
  grouped seen byKey ->
  grouped (seen ++ [w]) (mapSet (identityKey w) (candidateOf w n) byKey).
Proof.
  intros (Hnd & Hkeys & Hall). unfold grouped.
  rewrite mapSet_keys, fmap_app. cbn [fmap list_fmap].
  split; [|split].
  - case_bool_decide as Hin; [done|].
    apply NoDup_app. split; [done|]. split; [|apply NoDup_singleton].
    intros k Hk Hk'. apply list_elem_of_singleton in Hk'. by subst k.
  - intros k. rewrite elem_of_app, list_elem_of_singleton, <- Hkeys.
    case_bool_decide as Hin.
    + split; [by left|]. intros [?| ->]; done.
    + by rewrite elem_of_app, list_elem_of_singleton.
  - apply mapSet_Forall; [|done]. cbn [fst snd]. apply identityKey_candidate.
Qed.

Lemma grouped_keep seen byKey w :
  identityKey w ∈ byKey.*1 ->
  grouped seen byKey -> grouped (seen ++ [w]) byKey.
Proof.
  intros Hin (Hnd & Hkeys & Hall). split; [done|]. split; [|done].
  intros k. rewrite fmap_app, elem_of_app. cbn [fmap list_fmap].
  rewrite list_elem_of_singleton, <- Hkeys.
  split; [by left|]. intros [?| ->]; done.
Qed.

Lemma normalizeRow_grouped mode s seen byKey names w :
  grouped seen byKey ->
  grouped (seen ++ [w]) (normalizeRow mode s (byKey, names) w).1.
Proof.
  intros Hg. unfold normalizeRow.
  destruct (resolveName _ w names) as [n names'].
  destruct (mapGet (identityKey w) byKey) as [existing|] eqn:Hget.
  - destruct (useCandidate _ existing); cbn [fst].
    + by apply grouped_mapSet.
    + apply grouped_keep; [|done]. by eapply mapGet_Some.
  - by apply grouped_mapSet.
Qed.

Lemma foldl_normalizeRow_grouped mode s ws seen byKey names :
  grouped seen byKey ->
  grouped (seen ++ ws) (foldl (normalizeRow mode s) (byKey, names) ws).1.
Proof.
  revert seen byKey names.
  induction ws as [|w ws IH]; intros seen byKey names Hg; cbn [foldl].
  - by rewrite app_nil_r.
  - destruct (normalizeRow mode s (byKey, names) w) as [byKey' names'] eqn:Hrow.
    replace (seen ++ w :: ws) with ((seen ++ [w]) ++ ws) by by rewrite <- app_assoc.
    apply IH. pose proof (normalizeRow_grouped mode s seen byKey names w Hg) as H.
    by rewrite Hrow in H.
Qed.

Lemma groupRows_grouped mode s ws names :
  grouped ws (groupRows mode s ws names).1.
Proof.
  unfold groupRows.
  apply (foldl_normalizeRow_grouped mode s ws [] [] names).
  split; [apply NoDup_nil_2|]. split; [done|constructor].
Qed.

Lemma insertByIndex_perm w l : insertByIndex w l ≡ₚ w :: l.
Proof.
  induction l as [|x l IH]; cbn [insertByIndex]; [done|].
  destruct (index w <=? index x)%Z; [done|].
  rewrite IH. apply Permutation_swap.
Qed.

Lemma sortByIndex_perm l : sortByIndex l ≡ₚ l.
Proof.
  induction l as [|x l IH]; [done|]. cbn [sortByIndex foldr].
  rewrite insertByIndex_perm. by apply Permutation_cons.
Qed.

Lemma insertByIndex_sorted w l :
  StronglySorted byIndex l -> StronglySorted byIndex (insertByIndex w l).
Proof.
  induction 1 as [|x l Hl IH Hx]; cbn [insertByIndex].
  - repeat constructor.
  - destruct (index w <=? index x)%Z eqn:Hwx.
    + apply Z.leb_le in Hwx. constructor; [by constructor|].
      constructor; [done|].
      eapply Forall_impl; [exact Hx|]. unfold byIndex. intros y Hy. lia.
    + apply Z.leb_gt in Hwx. constructor; [done|].
      rewrite insertByIndex_perm. constructor; [|done]. unfold byIndex. lia.
Qed.

Lemma sortByIndex_sorted l : StronglySorted byIndex (sortByIndex l).
Proof.
  induction l as [|x l IH]; [constructor|].
  cbn [sortByIndex foldr]. by apply insertByIndex_sorted.
Qed.

Lemma resolveName_trimmed cacheKey w names :
  (forall v, names !! cacheKey = Some v -> Js.trim v = v) ->
  Js.trim (resolveName cacheKey w names).1 = (resolveName cacheKey w names).1.
Proof.
  intros Hc. unfold resolveName.
  destruct (Js.truthy (Js.trim (name w))) eqn:Ht; cbn [fst].
  - apply trim_idemp.
  - destruct (names !! cacheKey) as [cached|] eqn:Hn.
    + destruct (Js.truthy cached); cbn [fst]; [by apply Hc|apply trim_idemp].
    + apply trim_idemp.
Qed.

Lemma normalizeWindows_two mode s w1 w2 names :
  identityKey w1 = identityKey w2 ->
  (forall v, names !! cacheKeyFor mode s w1 None = Some v -> Js.trim v = v) ->
  (normalizeWindows mode s [w1; w2] names).1
  = [keptOfTwo (resolved mode s w1 names)
               (resolved mode s w2 (namesAfter mode s w1 names))].
Proof.
  intros Hkey Hc.
  pose proof (resolveName_trimmed _ w1 names Hc) as Htrim.
  unfold normalizeWindows, groupRows, resolved, namesAfter in *.
  cbn [foldl]. unfold normalizeRow at 2. cbn [mapGet mapSet].
  destruct (resolveName (cacheKeyFor mode s w1 None) w1 names) as [n1 names1].
  cbn [fst snd] in *. unfold normalizeRow.
  destruct (resolveName (cacheKeyFor mode s w2 None) w2 names1) as [n2 names2].
  cbn [fst snd mapGet]. rewrite Hkey, bool_decide_eq_true_2 by done.
  unfold useCandidate, keptOfTwo. cbn [name active candidateOf].
  rewrite Htrim.
  destruct (String.length n1 <? String.length n2)%nat eqn:H12; cbn [orb].
  - cbn [mapSet]. by rewrite bool_decide_eq_true_2.
  - destruct (String.length n2 <? String.length n1)%nat eqn:H21.
    + assert ((String.length n2 =? String.length n1)%nat = false) as ->.
      { apply Nat.eqb_neq. apply Nat.ltb_lt in H21. lia. }
      done.
    + assert ((String.length n2 =? String.length n1)%nat = true) as ->.
      { apply Nat.eqb_eq. apply Nat.ltb_ge in H12, H21. lia. }
      cbn [andb].
      destruct (active w2 && negb (active w1)); [|done].
      cbn [mapSet]. by rewrite bool_decide_eq_true_2.
Qed.

Lemma normalizeWindows_sticky mode s w names cached :
  Js.trim (name w) = EmptyString ->
  names !! cacheKeyFor mode s w None = Some cached ->
  Js.truthy cached = true ->
  normalizeWindows mode s [w] names = ([candidateOf w cached], names).
Proof.
  intros Hn Hc Ht. unfold normalizeWindows, groupRows. cbn [foldl].
  unfold normalizeRow, resolveName. rewrite Hn, Hc, Ht. done.
Qed.

End WindowsFacts.

Section WindowsTraceFacts.
Import Profile Windows Merge MergeTrace.
Local Open Scope list_scope.

Lemma groupRows_snoc mode s ws w names :
  groupRows mode s (ws ++ [w]) names
  = normalizeRow mode s (groupRows mode s ws names) w.
Proof. unfold groupRows. by rewrite foldl_app. Qed.

Lemma normalizeRow_names mode s byKey names w :
  (normalizeRow mode s (byKey, names) w).2 = namesAfter mode s w names.
Proof.
  unfold normalizeRow, namesAfter.
  destruct (resolveName _ w names) as [n names'].
  destruct (mapGet _ byKey); [destruct (useCandidate _ _)|]; done.
Qed.

Lemma normalizeRow_rows mode s byKey names w :
  (normalizeRow mode s (byKey, names) w).1 = byKey
  \/ (normalizeRow mode s (byKey, names) w).1
     = mapSet (identityKey w) (resolved mode s w names) byKey.
Proof.
  unfold normalizeRow, resolved.
  destruct (resolveName _ w names) as [n names'].
  destruct (mapGet _ byKey); [destruct (useCandidate _ _)|]; cbn [fst]; auto.
Qed.

(** The name cache after a row: its trimmed name is stored under the
    row's cache key when it is not empty. *)
Lemma namesAfter_cases mode s w names :
  namesAfter mode s w names =
    if Js.truthy (Js.trim (name w))
    then <[cacheKeyFor mode s w None := Js.trim (name w)]> names
    else names.
Proof.
  unfold namesAfter, resolveName.
  destruct (Js.truthy (Js.trim (name w))); [done|].
  destruct (names !! _) as [cached|]; [destruct (Js.truthy cached)|]; done.
Qed.

(** The name of a resolved row: its own trimmed name, or the cached name
    when its own is empty and a non-empty one is cached. *)
Lemma resolved_name mode s w names :
  name (resolved mode s w names) =
    if Js.truthy (Js.trim (name w)) then Js.trim (name w)
    else match names !! cacheKeyFor mode s w None with
         | Some cached => if Js.truthy cached then cached else EmptyString
         | None => EmptyString
         end.
Proof.
  unfold resolved, resolveName. cbn [name candidateOf].
  destruct (Js.truthy (Js.trim (name w))) eqn:Ht; [done|].
  assert (Js.trim (name w) = EmptyString) as -> by by destruct (Js.trim (name w)).
  destruct (names !! _) as [cached|]; [destruct (Js.truthy cached)|]; done.
Qed.

Lemma mapSet_values (P : TmuxWindow -> Prop) key v (m : ordmap) :
  P v -> Forall P m.*2 -> Forall P (mapSet key v m).*2.
Proof.
  intros Hv. induction m as [|[k x] m IH]; cbn [mapSet fmap list_fmap snd].
  - intros _. by constructor.
  - intros Hm. apply Forall_cons in Hm as [Hx Hm].
    destruct (decide (k = key)) as [->|Hk].
    + rewrite bool_decide_eq_true_2 by done. by constructor.
    + rewrite bool_decide_eq_false_2 by done. constructor; [done|by apply IH].
Qed.

Lemma originates_snoc mode s names ws w r :
  originates mode s names ws r -> originates mode s names (ws ++ [w]) r.
Proof.
  intros (pre & w0 & post & -> & ->).
  exists pre, w0, (post ++ [w]). split; [|done].
  by rewrite <- app_assoc.
Qed.

Lemma groupRows_originates mode s ws names :
  Forall (originates mode s names ws) (groupRows mode s ws names).1.*2.
Proof.
  induction ws as [|w ws IH] using rev_ind; [constructor|].
  rewrite groupRows_snoc.
  assert (Forall (originates mode s names (ws ++ [w]))
                 (groupRows mode s ws names).1.*2) as Hold.
  { eapply Forall_impl; [exact IH|]. intros r. apply originates_snoc. }
  destruct (groupRows mode s ws names) as [byKey c] eqn:Hg. cbn [fst] in *.
  destruct (normalizeRow_rows mode s byKey c w) as [-> | ->]; [done|].
  apply mapSet_values; [|done].
  exists ws, w, []. split; [done|].
  unfold namesAfterRows. by rewrite Hg.
Qed.

Lemma normalizeWindows_originates mode s ws names :
  Forall (originates mode s names ws) (normalizeWindows mode s ws names).1.
Proof.
  pose proof (groupRows_originates mode s ws names) as H.
  unfold normalizeWindows. destruct (groupRows mode s ws names) as [byKey c].
  cbn [fst] in *. by rewrite sortByIndex_perm.
Qed.

Lemma namesAfterRows_snoc mode s pre w names :
  namesAfterRows mode s (pre ++ [w]) names
  = namesAfter mode s w (namesAfterRows mode s pre names).
Proof.
  unfold namesAfterRows. rewrite groupRows_snoc.
  destruct (groupRows mode s pre names) as [byKey c].
  apply normalizeRow_names.
Qed.

Lemma normalizeWindows_names mode s ws names :
  (normalizeWindows mode s ws names).2 = namesAfterRows mode s ws names.
Proof.
  unfold normalizeWindows, namesAfterRows.
  by destruct (groupRows mode s ws names).
Qed.

End WindowsTraceFacts.

Section WindowsFoldFacts.
Import Profile Windows Merge MergeTrace MergeFold.
Local Open Scope list_scope.

Lemma foldl_normalizeRow_names mode s ws (acc acc' : ordmap * gmap string string) :
  acc.2 = acc'.2 ->
  (foldl (normalizeRow mode s) acc ws).2 = (foldl (normalizeRow mode s) acc' ws).2.
Proof.
  revert acc acc'. induction ws as [|w ws IH]; intros [b c] [b' c'] H; [done|].
  simpl in H. subst c'. cbn [foldl]. apply IH.
  by rewrite !normalizeRow_names.
Qed.

Lemma namesAfterRows_cons mode s w ws names :
  namesAfterRows mode s (w :: ws) names
  = namesAfterRows mode s ws (namesAfter mode s w names).
Proof.
  unfold namesAfterRows, groupRows. cbn [foldl].
  apply foldl_normalizeRow_names. apply normalizeRow_names.
Qed.

Lemma resolvedRows_snoc mode s ws w names :
  resolvedRows mode s (ws ++ [w]) names
  = resolvedRows mode s ws names
    ++ [resolved mode s w (namesAfterRows mode s ws names)].
Proof.
  revert names. induction ws as [|x ws IH]; intros names; [done|].
  cbn [app resolvedRows]. by rewrite IH, namesAfterRows_cons.
Qed.

Lemma trimmedNames_after mode s w names :
  trimmedNames names -> trimmedNames (namesAfter mode s w names).
Proof.
  intros H. rewrite namesAfter_cases.
  destruct (Js.truthy (Js.trim (name w))); [|done].
  intros k v. rewrite lookup_insert. case_decide; [|by apply H].
  intros [= <-]. apply trim_idemp.
Qed.

Lemma resolvedRows_trimmed mode s ws names :
  trimmedNames names ->
  Forall (fun r => Js.trim (name r) = name r) (resolvedRows mode s ws names).
Proof.
  revert names. induction ws as [|w ws IH]; intros names H; [constructor|].
  cbn [resolvedRows]. constructor.
  - unfold resolved. cbn [name candidateOf].
    apply resolveName_trimmed. intros v. apply H.
  - apply IH. by apply trimmedNames_after.
Qed.

Lemma mapGet_mapSet key key' v (m : ordmap) :
  mapGet key' (mapSet key v m)
  = if bool_decide (key = key') then Some v else mapGet key' m.
Proof.
  induction m as [|[k x] m IH]; cbn [mapSet mapGet].
  - by case_bool_decide.
  - destruct (decide (k = key)) as [->|Hk].
    + rewrite (bool_decide_eq_true_2 (key = key)) by done. cbn [mapGet].
      by destruct (bool_decide (key = key')).
    + rewrite (bool_decide_eq_false_2 (k = key)) by done. cbn [mapGet].
      rewrite IH. destruct (decide (k = key')) as [->|Hk'].
      * rewrite (bool_decide_eq_true_2 (key' = key')) by done.
        by rewrite (bool_decide_eq_false_2 (key = key')) by congruence.
      * by rewrite (bool_decide_eq_false_2 (k = key')) by done.
Qed.

Lemma keptOfTwo_choice a b : keptOfTwo a b = a \/ keptOfTwo a b = b.
Proof. unfold keptOfTwo. repeat case_match; auto. Qed.

Lemma foldl_keptOfTwo_elem r rest : foldl keptOfTwo r rest ∈ r :: rest.
Proof.
  revert r. induction rest as [|x rest IH]; intros r; cbn [foldl].
  - apply list_elem_of_here.
  - specialize (IH (keptOfTwo r x)).
    apply elem_of_cons in IH as [IH|IH].
    + rewrite IH. destruct (keptOfTwo_choice r x) as [-> | ->].
      * apply list_elem_of_here.
      * apply list_elem_of_further, list_elem_of_here.
    + by do 2 apply list_elem_of_further.
Qed.

Lemma keptAmong_elem rows r : keptAmong rows = Some r -> r ∈ rows.
Proof.
  destruct rows as [|x rest]; [done|]. intros [= <-].
  apply foldl_keptOfTwo_elem.
Qed.

Lemma keptAmong_snoc rows r :
  keptAmong (rows ++ [r])
  = Some (match keptAmong rows with
          | Some e => keptOfTwo e r
          | None => r
          end).
Proof.
  destruct rows as [|x rest]; [done|].
  cbn [app keptAmong]. by rewrite foldl_app.
Qed.

(** The replacement test of the loop is the rule of the specification
    when the stored row's name is trimmed. *)
Lemma useCandidate_keptOfTwo candidate existing :
  Js.trim (name existing) = name existing ->
  (if useCandidate candidate existing then candidate else existing)
  = keptOfTwo existing candidate.
Proof.
  intros Ht. unfold useCandidate, keptOfTwo. rewrite Ht.
  destruct (String.length (name existing) <? String.length (name candidate))%nat
    eqn:H12; cbn [orb]; [done|].
  destruct (String.length (name candidate) <? String.length (name existing))%nat
    eqn:H21.
  - assert ((String.length (name candidate) =? String.length (name existing))%nat
            = false) as ->; [|done].
    apply Nat.eqb_neq. apply Nat.ltb_lt in H21. lia.
  - assert ((String.length (name candidate) =? String.length (name existing))%nat
            = true) as ->; [|done].
    apply Nat.eqb_eq. apply Nat.ltb_ge in H12, H21. lia.
Qed.

(** The row stored under a key is the row kept among the resolved rows of
    that key, folded in input order. *)
Lemma groupRows_kept mode s ws names k :
  trimmedNames names ->
  mapGet k (groupRows mode s ws names).1
  = keptAmong (rowsOfKey k (resolvedRows mode s ws names)).
Proof.
  intros Htrim. induction ws as [|w ws IH] using rev_ind; [done|].
  rewrite groupRows_snoc, resolvedRows_snoc.
  unfold rowsOfKey in *. rewrite filter_app.
  pose proof (resolvedRows_trimmed mode s ws names Htrim) as Hrows.
  unfold namesAfterRows.
  destruct (groupRows mode s ws names) as [byKey c]. cbn [fst snd] in *.
  unfold normalizeRow, resolved.
  destruct (resolveName (cacheKeyFor mode s w None) w c) as [n c'] eqn:Hres.
  cbn [fst].
  assert (identityKey (candidateOf w n) = identityKey w) as Hk
    by apply identityKey_candidate.
  destruct (decide (identityKey w = k)) as [<-|Hne].
  - rewrite (filter_cons_True _ (candidateOf w n)) by done.
    rewrite filter_nil, keptAmong_snoc, <- IH.
    destruct (mapGet (identityKey w) byKey) as [existing|] eqn:Hget.
    + assert (Js.trim (name existing) = name existing) as Hex.
      { symmetry in IH. apply keptAmong_elem in IH.
        apply list_elem_of_filter in IH as [_ IH].
        by apply (proj1 (Forall_forall _ _) Hrows). }
      rewrite <- (useCandidate_keptOfTwo _ _ Hex).
      destruct (useCandidate (candidateOf w n) existing); cbn [fst].
      * by rewrite mapGet_mapSet, bool_decide_eq_true_2.
      * done.
    + cbn [fst]. by rewrite mapGet_mapSet, bool_decide_eq_true_2.
  - rewrite (filter_cons_False _ (candidateOf w n)) by congruence.
    rewrite filter_nil, app_nil_r, <- IH.
    destruct (mapGet (identityKey w) byKey) as [existing|];
      [destruct (useCandidate _ existing)|]; cbn [fst];
      rewrite ?mapGet_mapSet, ?bool_decide_eq_false_2; done.
Qed.

Lemma mapGet_values (m : ordmap) r :
  NoDup m.*1 -> r ∈ m.*2 <-> exists k, mapGet k m = Some r.
Proof.
  induction m as [|[k x] m IH]; cbn [fmap list_fmap fst snd mapGet].
  - intros _. split; [by intros ?%elem_of_nil|by intros [? ?]].
  - intros [Hk Hnd]%NoDup_cons. rewrite elem_of_cons, (IH Hnd). split.
    + intros [->|[k' Hk']].
      * exists k. by rewrite bool_decide_eq_true_2.
      * exists k'. rewrite bool_decide_eq_false_2; [done|].
        intros ->. apply Hk. by eapply mapGet_Some.
    + intros [k' Hk']. destruct (decide (k = k')) as [->|Hne].
      * rewrite bool_decide_eq_true_2 in Hk' by done. left. congruence.
      * rewrite bool_decide_eq_false_2 in Hk' by done. right. by exists k'.
Qed.

(** The returned rows are exactly the rows kept for some identity key. *)
Lemma normalizeWindows_kept mode s ws names r :
  trimmedNames names ->
  r ∈ (normalizeWindows mode s ws names).1
  <-> exists k, keptAmong (rowsOfKey k (resolvedRows mode s ws names)) = Some r.
Proof.
  intros Htrim.
  pose proof (groupRows_grouped mode s ws names) as (Hnd & _ & _).
  assert (forall k, mapGet k (groupRows mode s ws names).1
                    = keptAmong (rowsOfKey k (resolvedRows mode s ws names))) as Hk
    by (intros k; by apply groupRows_kept).
  unfold normalizeWindows.
  destruct (groupRows mode s ws names) as [byKey c]. cbn [fst] in *.
  rewrite sortByIndex_perm, (mapGet_values byKey r Hnd).
  split; intros [k H]; exists k; by rewrite ?Hk in *.
Qed.

End WindowsFoldFacts.

Section WindowsMerge.
Import Profile Windows Merge MergeTrace MergeFold.
Local Open Scope list_scope.

Lemma grouped_keys seen byKey :
  grouped seen byKey -> identityKey <$> byKey.*2 = byKey.*1.
Proof.
  intros (_ & _ & Hall). induction Hall as [|[k v] m Hkv _ IH]; [done|].
  cbn [fmap list_fmap fst snd] in *. by rewrite Hkv, IH.
Qed.

Lemma normalizeWindows_keys mode s ws names :
  identityKey <$> (normalizeWindows mode s ws names).1
  ≡ₚ (groupRows mode s ws names).1.*1.
Proof.
  unfold normalizeWindows.
  pose proof (groupRows_grouped mode s ws names) as Hg.
  destruct (groupRows mode s ws names) as [byKey names']. cbn [fst] in *.
  rewrite sortByIndex_perm. by rewrite (grouped_keys ws).
Qed.

End WindowsMerge.

(** ** The token guard of the session load *)

Section SessionLoadFacts.
Import Profile Windows SessionLoad LoadExample.
Local Open Scope list_scope.

Lemma finallyBlock_stale c st : stale c st = true -> finallyBlock c st = st.
Proof. unfold finallyBlock. by intros ->. Qed.

Lemma catchBlock_stale c raw st : stale c st = true -> catchBlock c raw st = st.
Proof. unfold catchBlock. by intros ->. Qed.

Lemma publish_stale c normalized preferred pane st :
  stale c st = true -> publish c normalized preferred pane st = st.
Proof. unfold publish. by intros ->. Qed.

(** A stale window-list result, and a stale failure of either call, are
    dropped without touching the state. *)
Lemma afterWindows_stale c r st :
  stale c st = true -> afterWindows c r st = Finished st.
Proof.
  intros H. unfold afterWindows. destruct r as [ws|raw].
  - by rewrite H, finallyBlock_stale.
  - by rewrite catchBlock_stale, finallyBlock_stale.
Qed.

Lemma afterPane_failed_stale c normalized preferred raw st :
  stale c st = true -> afterPane c normalized preferred (Failed raw) st = st.
Proof.
  intros H. cbn [afterPane]. by rewrite catchBlock_stale, finallyBlock_stale.
Qed.

(** A stale pane result is still written to the pane cache; nothing else
    changes. *)
Lemma afterPane_fulfilled_stale c normalized preferred pane st :
  stale c st = true ->
  afterPane c normalized preferred (Fulfilled pane) st =
    setPaneCache (<[paneKey c preferred := orBlank pane]> (paneCache st)) st.
Proof.
  intros H. cbn [afterPane].
  rewrite publish_stale by done. by rewrite finallyBlock_stale.
Qed.

(** C4. What the code does where the claim expects a stale result to be
    discarded: a load of session [arc] takes token 1, its window list
    arrives in time, the token advances to 2 while the pane is fetched,
    and when the pane arrives the continuation stores it in the pane
    cache before it checks the token. *)
Theorem stale_pane_result_is_cached :
  token ctx = 1
  /\ listed = AwaitingPane (progressState listed) [shell] shell
  /\ remoteSessionToken superseded = 2
  /\ stale ctx superseded = true
  /\ paneCache superseded !! "remote:ops@node:22/arc/id:@1" = None
  /\ paneCache resumed !! "remote:ops@node:22/arc/id:@1" = Some "output"
  /\ resumed <> superseded.
Proof.
  split; [reflexivity|]. split; [vm_compute; reflexivity|].
  split; [vm_compute; reflexivity|]. split; [vm_compute; reflexivity|].
  assert (paneCache superseded !! "remote:ops@node:22/arc/id:@1" = None) as Hbefore
    by (vm_compute; reflexivity).
  assert (paneCache resumed !! "remote:ops@node:22/arc/id:@1" = Some "output") as Hafter
    by (vm_compute; reflexivity).
  split; [exact Hbefore|]. split; [exact Hafter|].
  intros Heq. rewrite Heq, Hbefore in Hafter. discriminate Hafter.
Qed.

End SessionLoadFacts.

(** ** Fields of a protocol line *)

Section FieldFacts.
Import Control Wire.
Local Open Scope list_scope.

(** A line that starts with a word and a space has a second field, so
    [parts[1]] is defined in the [%%begin] and [%%end] branches. *)
Lemma second_field_defined (line w : string) :
  word w -> Js.startsWith line (w +:+ " ") = true ->
  is_Some (Js.split Js.space line !! 1%nat).
Proof.
  intros Hw Hs. apply startsWith_inv in Hs as [r ->].
  replace ((w +:+ " ") +:+ r) with (w +:+ String Js.space r).
  - rewrite split_word_space by done. cbn [lookup list_lookup].
    destruct (Js.split Js.space r) as [|f fs] eqn:Hr; [|by eexists].
    by apply split_nonempty in Hr.
  - change (String Js.space r) with (" " +:+ r).
    induction w as [|c w IH]; [done|].
    change (String c w +:+ " " +:+ r) with (String c (w +:+ " " +:+ r)).
    change ((String c w +:+ " ") +:+ r) with (String c ((w +:+ " ") +:+ r)).
    f_equal. apply IH. unfold word in *. cbn [Js.indexOf] in Hw.
    destruct (bool_decide (c = Js.space)); [done|].
    by destruct (Js.indexOf Js.space w).
Qed.

Lemma handleBegin_reaches_tag (line : string) :
  Js.startsWith line "%%begin " = true ->
  is_Some (Js.split Js.space line !! 1%nat).
Proof. by apply (second_field_defined line "%%begin"). Qed.

Lemma handleEnd_reaches_tag (line : string) :
  Js.startsWith line "%%end " = true ->
  is_Some (Js.split Js.space line !! 1%nat).
Proof. by apply (second_field_defined line "%%end"). Qed.

End FieldFacts.

Section FifoGeneral.
Import Profile Control Wire Fifo.
Local Open Scope list_scope.

Lemma run_sends st session profile key cmds :
  controlRef st = Some (session, profile) ->
  controlSessionKeyRef st = Some key -> Js.truthy key = true ->
  let st' := run st (EvSend <$> cmds) in
  pending st' = pending st ++ entriesFrom (nextId st) cmds
  /\ inflight st' = inflight st
  /\ controlSessionKeyRef st' = Some key.
Proof.
  revert st. induction cmds as [|c cmds IH]; intros st Hc Hk Ht; cbn zeta.
  - cbn. by rewrite app_nil_r.
  - cbn [fmap list_fmap run foldl step].
    destruct (sendControlCommand_active c st _ _ _ Hc Hk Ht)
      as (Hp & Hi & _ & Hn & Hc' & Hk').
    rewrite Hc in Hc'. rewrite Hk in Hk'.
    destruct (IH _ Hc' Hk' Ht) as (IHp & IHi & IHk).
    unfold run in IHp, IHi, IHk.
    rewrite IHp, IHi, IHk, Hp, Hi, Hn. cbn [entriesFrom].
    by rewrite <- app_assoc.
Qed.

(** Begin lines bind their tags to the head of the queue, one entry per
    line, in queue order. *)
Lemma run_begins key (tags : list (string * option string)) st q rest :
  controlSessionKeyRef st = Some key ->
  Forall (fun tr => word tr.1) tags ->
  NoDup tags.*1 ->
  pending st = q ++ rest -> List.length q = List.length tags ->
  let st' := run st (beginEvents key tags) in
  pending st' = rest
  /\ (forall i t e, tags.*1 !! i = Some t -> q !! i = Some e ->
        inflight st' !! t = Some e)
  /\ (forall t, t ∉ tags.*1 -> inflight st' !! t = inflight st !! t).
Proof.
  revert st q. induction tags as [|[t r] tags IH]; intros st q Hk Hw Hnd Hp Hlen;
    cbn zeta.
  - destruct q; [|done]. cbn. split; [done|]. split; [|done].
    intros i t e Hi. by rewrite lookup_nil in Hi.
  - destruct q as [|e q]; [done|].
    apply Forall_cons in Hw as [Hwt Hw].
    cbn [fmap list_fmap fst] in Hnd. apply NoDup_cons in Hnd as [Hnotin Hnd].
    cbn [beginEvents fmap list_fmap run foldl fst snd].
    rewrite (step_lineEvent key _ st Hk) by (by destruct r).
    rewrite (handleControlLine_beginLine t r st Hwt), Hp. cbn [app].
    set (st1 := withQueues _ _ _ st).
    destruct (IH st1 q) as (IHp & IHbind & IHother); try done.
    { cbn in Hlen. lia. }
    split; [exact IHp|]. split.
    + intros [|i] t' e' Ht' He'; cbn in Ht', He'.
      * injection Ht' as <-. injection He' as <-.
        unfold beginEvents, run in IHother. rewrite (IHother t Hnotin).
        apply lookup_insert_eq.
      * by apply (IHbind i).
    + intros t' Ht'. apply not_elem_of_cons in Ht' as [Hne Ht'].
      unfold beginEvents, run in IHother. rewrite (IHother t' Ht').
      cbn [st1 withQueues inflight setPending setInflight setPromises]. by rewrite lookup_insert_ne.
Qed.

Lemma entriesFrom_length n cmds :
  List.length (entriesFrom n cmds) = List.length cmds.
Proof.
  revert n. induction cmds as [|c cmds IH]; intros n; [done|].
  cbn [entriesFrom List.length]. by rewrite IH.
Qed.

Lemma entriesFrom_lookup n cmds i c :
  cmds !! i = Some c ->
  entriesFrom n cmds !! i
  = Some {| entryId := (n + i)%nat; command := c; data := [] |}.
Proof.
  revert n i. induction cmds as [|c' cmds IH]; intros n i Hc;
    [by rewrite lookup_nil in Hc|].
  cbn [entriesFrom]. destruct i as [|i].
  - injection Hc as ->. by rewrite Nat.add_0_r.
  - change (entriesFrom (S n) cmds !! i
            = Some {| entryId := (n + S i)%nat; command := c; data := [] |}).
    rewrite (IH (S n) i Hc). do 2 f_equal. lia.
Qed.

(** X21. Any number of commands issued in order on an idle queue are
    answered in that order: when as many [%%begin] lines with pairwise
    distinct tags follow, the i-th tag is bound to the i-th command
    issued, with the identity it was given, and the queue is empty. *)
Lemma begins_match_issue_order st session profile key cmds
    (tags : list (string * option string)) :
  controlRef st = Some (session, profile) ->
  controlSessionKeyRef st = Some key -> Js.truthy key = true ->
  pending st = [] ->
  Forall (fun tr => word tr.1) tags -> NoDup tags.*1 ->
  List.length cmds = List.length tags ->
  let st' := run st ((EvSend <$> cmds) ++ beginEvents key tags) in
  pending st' = []
  /\ forall i t c, tags.*1 !! i = Some t -> cmds !! i = Some c ->
       inflight st' !! t
       = Some {| entryId := (nextId st + i)%nat; command := c; data := [] |}.
Proof.
  intros Hc Hk Ht Hq Hw Hnd Hlen. cbn zeta. rewrite run_app.
  destruct (run_sends st session profile key cmds Hc Hk Ht) as (Hp & _ & Hk').
  rewrite Hq in Hp. cbn [app] in Hp.
  destruct (run_begins key tags (run st (EvSend <$> cmds))
              (entriesFrom (nextId st) cmds) [] Hk' Hw Hnd) as (Hp' & Hbind & _).
  { by rewrite app_nil_r. }
  { by rewrite entriesFrom_length. }
  split; [exact Hp'|].
  intros i t c Hi Hci. apply (Hbind i); [done|].
  by apply entriesFrom_lookup.
Qed.

End FifoGeneral.

(** ** Tags in flight *)

Section TagFacts.
Import Profile Control Wire.
Local Open Scope list_scope.

Lemma split_words (s : string) : Forall word (Js.split Js.space s).
Proof.
  unfold word. induction s as [|c s IH]; cbn [Js.split].
  - by repeat constructor.
  - destruct (decide (c = Js.space)) as [->|Hc].
    + rewrite bool_decide_eq_true_2 by done. by constructor.
    + rewrite bool_decide_eq_false_2 by done.
      destruct (Js.split Js.space s) as [|hd tl].
      * constructor; [|constructor].
        cbn [Js.indexOf]. by rewrite bool_decide_eq_false_2 by done.
      * apply Forall_cons in IH as [Hhd Htl]. constructor; [|done].
        cbn [Js.indexOf]. rewrite bool_decide_eq_false_2 by done. by rewrite Hhd.
Qed.

Lemma handleControlLine_tags line st :
  (forall t e, inflight st !! t = Some e -> word t) ->
  forall t e, inflight (handleControlLine line st) !! t = Some e -> word t.
Proof.
  intros Hinv t e. unfold handleControlLine.
  destruct (Js.startsWith line "%%begin ").
  { unfold handleBegin.
    destruct (Js.split Js.space line !! 1%nat) as [tag|] eqn:Htag; [|apply Hinv].
    destruct (pending st) as [|entry rest]; [apply Hinv|].
    cbn [withQueues inflight setPending setInflight setPromises]. rewrite lookup_insert. case_decide as Ht.
    - intros _. subst t.
      apply (proj1 (Forall_forall _ _) (split_words line)).
      by eapply list_elem_of_lookup_2.
    - apply Hinv. }
  destruct (Js.startsWith line "%%data ").
  { unfold handleData.
    destruct (Js.indexOf Js.space (Js.sliceFrom 7 line)) as [i|]; [|apply Hinv].
    destruct (inflight st !! Js.sliceTo i (Js.sliceFrom 7 line)) as [entry|] eqn:He;
      [|apply Hinv].
    cbn [withQueues inflight setPending setInflight setPromises]. rewrite lookup_insert. case_decide as Ht.
    - intros _. subst t. by eapply Hinv.
    - apply Hinv. }
  destruct (Js.startsWith line "%%end ").
  { unfold handleEnd.
    destruct (Js.split Js.space line !! 1%nat) as [tag|]; [|apply Hinv].
    destruct (inflight st !! tag) as [entry|]; [|apply Hinv].
    cbn [withQueues inflight setPending setInflight setPromises]. rewrite lookup_delete. case_decide; [done|apply Hinv]. }
  destruct (Js.startsWith line "%window-" || Js.startsWith line "%session-").
  { destruct (controlRef st) as [[session p]|]; apply Hinv. }
  destruct (Js.startsWith line "%output"); [|apply Hinv].
  destruct (isRemote (mode st)); apply Hinv.
Qed.

Lemma step_tags st ev :
  (forall t e, inflight st !! t = Some e -> word t) ->
  forall t e, inflight (step st ev) !! t = Some e -> word t.
Proof.
  intros Hinv t e. destruct ev; cbn [step]; try apply Hinv.
  - cbn. by rewrite lookup_empty.
  - unfold stopControlSession. destruct (controlRef st) as [[session p]|];
      [cbn; by rewrite lookup_empty|apply Hinv].
  - unfold sendControlCommand. repeat case_match; apply Hinv.
  - unfold controlEventListener. repeat case_match;
      try apply Hinv; try (cbn; by rewrite lookup_empty).
    by apply handleControlLine_tags.
Qed.

(** Every tag of the in-flight map is a word: it was a field of a
    [%%begin] line. *)
Lemma inflight_tags_are_words m events t e :
  inflight (run (initial m) events) !! t = Some e -> word t.
Proof.
  assert (forall st,
            (forall t e, inflight st !! t = Some e -> word t) ->
            forall t e, inflight (run st events) !! t = Some e -> word t) as H.
  { induction events as [|ev events IH]; intros st Hinv; [done|].
    cbn [run foldl]. apply IH. by apply step_tags. }
  apply H. intros t' e'. cbn. by rewrite lookup_empty.
Qed.

End TagFacts.

(** * Further properties *)

(** ** More string facts *)

Section JsMoreFacts.

Lemma sliceFrom_app (p s : string) : Js.sliceFrom (String.length p) (p +:+ s) = s.
Proof. induction p as [|c p IH]; [by destruct s|]. exact IH. Qed.

Lemma app_String (c : ascii) (p s : string) : String c p +:+ s = String c (p +:+ s).
Proof. reflexivity. Qed.

Lemma app_empty_r (s : string) : s +:+ EmptyString = s.
Proof. induction s as [|c s IH]; [done|]. by rewrite app_String, IH. Qed.

Lemma app_assoc_str (a b c : string) : (a +:+ b) +:+ c = a +:+ (b +:+ c).
Proof. induction a as [|x a IH]; [done|]. by rewrite !app_String, IH. Qed.

Lemma app_cancel_l (p a b : string) : p +:+ a = p +:+ b -> a = b.
Proof.
  induction p as [|c p IH]; [done|]. rewrite !app_String. intros [= H]. by apply IH.
Qed.

Lemma startsWith_trans (k p q : string) :
  Js.startsWith k (p +:+ q) = true -> Js.startsWith k p = true.
Proof.
  intros [r ->]%startsWith_inv. rewrite app_assoc_str. apply startsWith_app.
Qed.

(** Two texts that start with the same slash-free segment followed by a
    slash have the same segment. *)
Lemma segment_unique (a b r1 r2 : string) :
  Js.indexOf "/"%char a = None -> Js.indexOf "/"%char b = None ->
  a +:+ String "/"%char r1 = b +:+ String "/"%char r2 -> a = b.
Proof.
  revert b. induction a as [|x a IH]; intros [|y b] Ha Hb H.
  - done.
  - rewrite app_String in H. injection H as <- _. cbn in Hb. done.
  - rewrite app_String in H. injection H as -> _. cbn in Ha. done.
  - rewrite !app_String in H. injection H as -> H.
    cbn [Js.indexOf] in Ha, Hb.
    destruct (bool_decide (y = "/"%char)); [done|].
    destruct (Js.indexOf "/"%char a) eqn:Ea; [done|].
    destruct (Js.indexOf "/"%char b) eqn:Eb; [done|].
    f_equal. by apply IH.
Qed.

End JsMoreFacts.

(** ** The window cache: keys, clearing, pruning twice *)

Section WindowCacheMoreFacts.
Import WindowCache.
Context {T : Type}.
Implicit Types (cache : gmap string T) (key : string).

Lemma id_base_ne_idx_base (a b : string) : "id:" +:+ a <> "idx:" +:+ b.
Proof. rewrite !app_String. discriminate. Qed.

(** X1. Within one scope and session two windows get the same cache key
    exactly when they have the same identity: the same trimmed id, or no
    id and the same index. *)
Theorem buildWindowCacheKey_same_identity (scope session : string) (i1 i2 : Z)
    (id1 id2 : option string) :
  buildWindowCacheKey scope session i1 id1 = buildWindowCacheKey scope session i2 id2
  <-> normalizeId id1 = normalizeId id2
      /\ (normalizeId id1 = EmptyString -> i1 = i2).
Proof.
  unfold buildWindowCacheKey. cbn zeta. split.
  - intros H. do 4 apply app_cancel_l in H.
    destruct (normalizeId id1) as [|c1 n1] eqn:E1,
             (normalizeId id2) as [|c2 n2] eqn:E2; cbn [Js.truthy] in H.
    + split; [done|]. intros _. apply app_cancel_l in H. by apply (inj pretty).
    + by apply symmetry, id_base_ne_idx_base in H.
    + by apply id_base_ne_idx_base in H.
    + apply app_cancel_l in H. split; [done|]. discriminate.
  - intros [Hn Hi]. rewrite <- Hn.
    destruct (normalizeId id1) as [|c1 n1] eqn:E1; cbn [Js.truthy]; [|done].
    by rewrite Hi.
Qed.

Lemma clear_loop_lookup prefix keys cache key :
  foldl (clearKey prefix) cache keys !! key =
    if bool_decide (key ∈ keys) && Js.startsWith key prefix
    then None else cache !! key.
Proof.
  revert cache. induction keys as [|k keys IH]; intros cache; cbn [foldl].
  - case_bool_decide as Hin; [by apply elem_of_nil in Hin|done].
  - rewrite IH. unfold clearKey.
    destruct (decide (key = k)) as [->|Hne].
    + rewrite (bool_decide_eq_true_2 (k ∈ k :: keys)) by apply list_elem_of_here.
      destruct (Js.startsWith k prefix); cbn [andb].
      * rewrite lookup_delete_eq. by destruct (bool_decide _ && true).
      * by rewrite andb_false_r.
    + assert (bool_decide (key ∈ k :: keys) = bool_decide (key ∈ keys)) as ->.
      { apply bool_decide_ext. rewrite elem_of_cons. tauto. }
      destruct (Js.startsWith k prefix); [by rewrite lookup_delete_ne|done].
Qed.

Lemma clearWindowCacheForSession_lookup cache scope session key :
  clearWindowCacheForSession cache scope session !! key =
    if Js.startsWith key (sessionPrefix scope session) then None else cache !! key.
Proof.
  unfold clearWindowCacheForSession. rewrite clear_loop_lookup.
  destruct (Js.startsWith key _); [|by rewrite andb_false_r].
  rewrite andb_true_r. case_bool_decide as Hin; [done|].
  destruct (cache !! key) as [v|] eqn:Hv; [|done].
  exfalso. apply Hin. apply list_elem_of_fmap. exists (key, v). split; [done|].
  by apply elem_of_map_to_list.
Qed.

(** X2. [clearWindowCacheForSession] removes every key that starts with
    [scope/session/] and leaves every other binding as it was; it is
    [pruneWindowCache] against an empty window list. *)
Theorem clearWindowCacheForSession_exact cache scope session :
  (forall key,
     clearWindowCacheForSession cache scope session !! key =
       if Js.startsWith key (scope +:+ "/" +:+ session +:+ "/")
       then None else cache !! key)
  /\ clearWindowCacheForSession cache scope session
     = pruneWindowCache cache scope session [].
Proof.
  split; [intros key; apply clearWindowCacheForSession_lookup|].
  apply map_eq. intros key.
  rewrite clearWindowCacheForSession_lookup, pruneWindowCache_lookup.
  rewrite (bool_decide_eq_false_2 (key ∈ keepSet scope session [])).
  - by rewrite andb_true_r.
  - unfold keepSet. cbn. apply not_elem_of_empty.
Qed.

End WindowCacheMoreFacts.

(** ** Renaming a session in a cache *)

Section RenameFacts.
Import WindowCache WindowCacheRename.
Context {T : Type}.
Implicit Types (cache : gmap string T) (entries : list (string * T)).

Lemma startsWith_slice (k p : string) :
  Js.startsWith k p = true -> k = p +:+ Js.sliceFrom (String.length p) k.
Proof. intros [r ->]%startsWith_inv. by rewrite sliceFrom_app. Qed.

Lemma enumerates_map_to_list cache : enumerates (map_to_list cache) cache.
Proof.
  split; [apply NoDup_fst_map_to_list|]. intros k v. apply elem_of_map_to_list.
Qed.

Lemma elem_of_renameUpdates op np entries ok nk (v : T) :
  (ok, nk, v) ∈ renameUpdates op np entries
  <-> (ok, v) ∈ entries /\ Js.startsWith ok op = true
      /\ nk = np +:+ Js.sliceFrom (String.length op) ok.
Proof.
  unfold renameUpdates. rewrite list_elem_of_omap. split.
  - intros ([k x] & Hin & Hu). destruct (Js.startsWith k op) eqn:Hs; [|done].
    injection Hu as -> -> ->. done.
  - intros (Hin & Hs & ->). exists (ok, v). split; [done|]. by rewrite Hs.
Qed.

Lemma renameUpdates_new_keys_NoDup op np entries :
  NoDup entries.*1 ->
  NoDup ((fun u : string * string * T => u.1.2) <$> renameUpdates op np entries).
Proof.
  induction entries as [|[k v] entries IH]; [intros _; constructor|].
  cbn [fmap list_fmap fst]. intros [Hk Hnd]%NoDup_cons.
  unfold renameUpdates. cbn [omap list_omap].
  destruct (Js.startsWith k op) eqn:Hs; [|by apply IH].
  cbn [fmap list_fmap fst snd]. apply NoDup_cons. split; [|by apply IH].
  intros ([[ok nk] x] & Hnk & Hin)%list_elem_of_fmap. cbn [fst snd] in Hnk.
  apply elem_of_renameUpdates in Hin as (Hin & Hs' & ->).
  apply app_cancel_l in Hnk. apply Hk.
  apply list_elem_of_fmap. exists (ok, x). split; [|done]. cbn [fst].
  rewrite (startsWith_slice k op Hs), (startsWith_slice ok op Hs'). by rewrite Hnk.
Qed.

Lemma delete_loop_lookup (ups : list (string * string * T)) cache k :
  foldl (fun c u => delete u.1.1 c) cache ups !! k =
    if bool_decide (k ∈ (fun u : string * string * T => u.1.1) <$> ups)
    then None else cache !! k.
Proof.
  revert cache. induction ups as [|u ups IH]; intros cache; cbn [foldl fmap list_fmap].
  - by rewrite bool_decide_eq_false_2 by apply not_elem_of_nil.
  - rewrite IH. destruct (decide (k = u.1.1)) as [->|Hne].
    + rewrite (bool_decide_eq_true_2 (u.1.1 ∈ u.1.1 :: _)) by apply list_elem_of_here.
      rewrite lookup_delete_eq. by destruct (bool_decide _).
    + rewrite lookup_delete_ne by done.
      apply (f_equal (fun b : bool => if b then _ else _)).
      apply bool_decide_ext. rewrite elem_of_cons. tauto.
Qed.

Lemma insert_loop_other (ups : list (string * string * T)) cache k :
  k ∉ (fun u : string * string * T => u.1.2) <$> ups ->
  foldl (fun c u => <[u.1.2 := u.2]> c) cache ups !! k = cache !! k.
Proof.
  revert cache. induction ups as [|u ups IH]; intros cache Hk; [done|].
  cbn [foldl fmap list_fmap] in *. apply not_elem_of_cons in Hk as [Hne Hk].
  rewrite IH by done. by rewrite lookup_insert_ne.
Qed.

Lemma insert_loop_member (ups : list (string * string * T)) cache ok nk v :
  NoDup ((fun u : string * string * T => u.1.2) <$> ups) ->
  (ok, nk, v) ∈ ups ->
  foldl (fun c u => <[u.1.2 := u.2]> c) cache ups !! nk = Some v.
Proof.
  revert cache. induction ups as [|u ups IH]; intros cache Hnd Hin;
    [by apply elem_of_nil in Hin|].
  cbn [foldl fmap list_fmap] in *. apply NoDup_cons in Hnd as [Hu Hnd].
  apply elem_of_cons in Hin as [<-|Hin].
  - cbn [fst snd]. rewrite insert_loop_other by done. apply lookup_insert_eq.
  - by apply IH.
Qed.

Lemma renameEntries_lookup entries cache scope oldSession newSession k :
  enumerates entries cache -> oldSession <> newSession ->
  renameEntries entries cache scope oldSession newSession !! k =
    match (if Js.startsWith k (sessionPrefix scope newSession)
           then cache !! (sessionPrefix scope oldSession
                          +:+ Js.sliceFrom (String.length (sessionPrefix scope newSession)) k)
           else None) with
    | Some v => Some v
    | None => if Js.startsWith k (sessionPrefix scope oldSession)
              then None else cache !! k
    end.
Proof.
  intros [Hnd Hen] Hne. unfold renameEntries.
  rewrite bool_decide_eq_false_2 by done. cbn zeta.
  set (op := sessionPrefix scope oldSession).
  set (np := sessionPrefix scope newSession).
  set (ups := renameUpdates op np entries).
  pose proof (renameUpdates_new_keys_NoDup op np entries Hnd) as Hnew.
  fold ups in Hnew.
  destruct (if Js.startsWith k np
            then cache !! (op +:+ Js.sliceFrom (String.length np) k) else None)
    as [v|] eqn:Hmoved.
  - destruct (Js.startsWith k np) eqn:Hs; [|done].
    apply (insert_loop_member ups _ (op +:+ Js.sliceFrom (String.length np) k));
      [done|].
    apply elem_of_renameUpdates. split; [by apply Hen|].
    split; [apply startsWith_app|].
    rewrite sliceFrom_app. by apply startsWith_slice.
  - rewrite insert_loop_other.
    + rewrite delete_loop_lookup.
      destruct (Js.startsWith k op) eqn:Hs.
      * case_bool_decide as Hin; [done|].
        destruct (cache !! k) as [x|] eqn:Hx; [|done].
        exfalso. apply Hin. apply list_elem_of_fmap.
        exists (k, np +:+ Js.sliceFrom (String.length op) k, x). split; [done|].
        apply elem_of_renameUpdates. split; [by apply Hen|done].
      * rewrite bool_decide_eq_false_2; [done|].
        intros ([[ok nk] x] & Hk & Hin)%list_elem_of_fmap. cbn [fst] in Hk. subst ok.
        apply elem_of_renameUpdates in Hin as (_ & Hs' & _). congruence.
    + intros ([[ok nk] x] & Hk & Hin)%list_elem_of_fmap. cbn [fst snd] in Hk. subst nk.
      apply elem_of_renameUpdates in Hin as (Hin & Hs' & ->).
      rewrite startsWith_app, sliceFrom_app in Hmoved.
      rewrite <- (startsWith_slice ok op Hs') in Hmoved.
      apply Hen in Hin. congruence.
Qed.

(** X4. [renameSessionInCache] for two different session names: a key
    under the new prefix gets the value its counterpart under the old
    prefix had, when there was one; every other key under the old prefix
    is gone and every other key keeps its binding. The order in which
    the map yields its entries does not matter, and equal names leave
    the cache unchanged. *)
Theorem renameSessionInCache_lookup entries cache scope oldSession newSession k :
  enumerates entries cache -> oldSession <> newSession ->
  renameSessionInCache cache scope oldSession newSession !! k =
    match (if Js.startsWith k (scope +:+ "/" +:+ newSession +:+ "/")
           then cache !! (scope +:+ "/" +:+ oldSession +:+ "/"
                          +:+ Js.sliceFrom
                                (String.length (scope +:+ "/" +:+ newSession +:+ "/")) k)
           else None) with
    | Some v => Some v
    | None => if Js.startsWith k (scope +:+ "/" +:+ oldSession +:+ "/")
              then None else cache !! k
    end
  /\ renameEntries entries cache scope oldSession newSession
     = renameSessionInCache cache scope oldSession newSession
  /\ renameSessionInCache cache scope oldSession oldSession = cache.
Proof.
  intros Hen Hne. split; [|split].
  - unfold renameSessionInCache.
    rewrite (renameEntries_lookup _ cache scope oldSession newSession k
               (enumerates_map_to_list cache) Hne).
    unfold sessionPrefix. by rewrite !app_assoc_str.
  - apply map_eq. intros k'. unfold renameSessionInCache.
    rewrite (renameEntries_lookup _ cache scope oldSession newSession k' Hen Hne).
    by rewrite (renameEntries_lookup _ cache scope oldSession newSession k'
                  (enumerates_map_to_list cache) Hne).
  - unfold renameSessionInCache, renameEntries. by rewrite bool_decide_eq_true_2.
Qed.

End RenameFacts.

Section RenameMoveFacts.
Import WindowCache WindowCacheRename.
Context {T : Type}.
Implicit Types (cache : gmap string T).

Lemma sessionPrefix_disjoint scope a b k :
  slashFree a -> slashFree b -> a <> b ->
  Js.startsWith k (sessionPrefix scope a) = true ->
  Js.startsWith k (sessionPrefix scope b) = false.
Proof.
  intros Ha Hb Hne [r1 H1]%startsWith_inv.
  destruct (Js.startsWith k (sessionPrefix scope b)) eqn:Hs; [|done].
  apply startsWith_inv in Hs as [r2 H2]. exfalso. apply Hne.
  rewrite H1 in H2. unfold sessionPrefix in H2.
  rewrite !app_assoc_str in H2. do 2 apply app_cancel_l in H2.
  by apply (segment_unique a b r1 r2).
Qed.

Lemma renameSessionInCache_lookup' cache scope a b k :
  a <> b ->
  renameSessionInCache cache scope a b !! k =
    match (if Js.startsWith k (sessionPrefix scope b)
           then cache !! (sessionPrefix scope a
                          +:+ Js.sliceFrom (String.length (sessionPrefix scope b)) k)
           else None) with
    | Some v => Some v
    | None => if Js.startsWith k (sessionPrefix scope a) then None else cache !! k
    end.
Proof.
  intros Hne. unfold renameSessionInCache.
  by apply renameEntries_lookup; [apply enumerates_map_to_list|].
Qed.

(** X5. For different session names without a slash, renaming moves the
    session: nothing is left under the old prefix, every suffix under the
    new prefix holds the value that was under the old prefix (or, when
    there was none, what it held before), and keys under neither prefix
    are untouched. *)
Theorem renameSessionInCache_moves cache scope oldSession newSession
    (suffix k : string) :
  slashFree oldSession -> slashFree newSession -> oldSession <> newSession ->
  Js.startsWith k (sessionPrefix scope oldSession) = false ->
  Js.startsWith k (sessionPrefix scope newSession) = false ->
  let renamed := renameSessionInCache cache scope oldSession newSession in
  renamed !! (sessionPrefix scope oldSession +:+ suffix) = None
  /\ renamed !! (sessionPrefix scope newSession +:+ suffix)
     = match cache !! (sessionPrefix scope oldSession +:+ suffix) with
       | Some v => Some v
       | None => cache !! (sessionPrefix scope newSession +:+ suffix)
       end
  /\ renamed !! k = cache !! k.
Proof.
  intros Ho Hn Hne Hko Hkn. cbn zeta.
  rewrite !renameSessionInCache_lookup' by done.
  rewrite Hko, Hkn, !sliceFrom_app.
  rewrite (startsWith_app (sessionPrefix scope newSession)).
  rewrite (startsWith_app (sessionPrefix scope oldSession)).
  rewrite (sessionPrefix_disjoint scope oldSession newSession
             (sessionPrefix scope oldSession +:+ suffix))
    by (done || apply startsWith_app).
  rewrite (sessionPrefix_disjoint scope newSession oldSession
             (sessionPrefix scope newSession +:+ suffix))
    by (done || apply startsWith_app).
  done.
Qed.

(** X6. Renaming a session and renaming it back restores the cache, when
    the two names are different and slash-free and nothing was stored
    under the new name. *)
Theorem renameSessionInCache_round_trip cache scope a b :
  slashFree a -> slashFree b -> a <> b ->
  (forall k, Js.startsWith k (sessionPrefix scope b) = true -> cache !! k = None) ->
  renameSessionInCache (renameSessionInCache cache scope a b) scope b a = cache.
Proof.
  intros Ha Hb Hne Hfree. apply map_eq. intros k.
  rewrite renameSessionInCache_lookup' by done.
  destruct (Js.startsWith k (sessionPrefix scope a)) eqn:Hka.
  - pose proof (sessionPrefix_disjoint scope a b k Ha Hb Hne Hka) as Hkb.
    rewrite Hkb.
    rewrite renameSessionInCache_lookup' by done.
    rewrite startsWith_app, sliceFrom_app, <- (startsWith_slice k _ Hka).
    destruct (cache !! k) as [v|] eqn:Hv; [done|].
    rewrite (sessionPrefix_disjoint scope b a
               (sessionPrefix scope b +:+ _)) by (done || apply startsWith_app).
    rewrite (Hfree (sessionPrefix scope b +:+ _)) by apply startsWith_app.
    rewrite renameSessionInCache_lookup' by done. by rewrite Hkb, Hka.
  - destruct (Js.startsWith k (sessionPrefix scope b)) eqn:Hkb.
    + symmetry. by apply Hfree.
    + rewrite renameSessionInCache_lookup' by done. by rewrite Hkb, Hka.
Qed.

End RenameMoveFacts.

Section RenameWitness.
Import WindowCache WindowCacheRename.

(** X4, witness: the pane of window 0 of session [a], renamed to [b]. *)
Lemma renameSessionInCache_lookup_witness :
  let cache : gmap string nat := {["s/a/idx:0" := 7%nat]} in
  renameEntries [("s/a/idx:0", 7%nat)] cache "s" "a" "b"
  = renameSessionInCache cache "s" "a" "b".
Proof.
  cbn zeta.
  destruct (renameSessionInCache_lookup [("s/a/idx:0", 7%nat)]
              ({["s/a/idx:0" := 7%nat]} : gmap string nat) "s" "a" "b" "s/b/idx:0")
    as (_ & H & _).
  - split; [repeat constructor; apply not_elem_of_nil|].
    intros k v. rewrite list_elem_of_singleton, lookup_singleton_Some.
    split; [by intros [= -> ->]|by intros [-> ->]].
  - discriminate.
  - exact H.
Defined.

(** X5, witness: session [a] renamed to [b] in scope [s]. *)
Lemma renameSessionInCache_moves_witness :
  let cache : gmap string nat := {["s/a/idx:0" := 7%nat]} in
  let renamed := renameSessionInCache cache "s" "a" "b" in
  renamed !! (sessionPrefix "s" "a" +:+ "idx:0") = None
  /\ renamed !! (sessionPrefix "s" "b" +:+ "idx:0")
     = match cache !! (sessionPrefix "s" "a" +:+ "idx:0") with
       | Some v => Some v
       | None => cache !! (sessionPrefix "s" "b" +:+ "idx:0")
       end
  /\ renamed !! "t/a/idx:0" = cache !! "t/a/idx:0".
Proof.
  exact (renameSessionInCache_moves ({["s/a/idx:0" := 7%nat]} : gmap string nat)
           "s" "a" "b" "idx:0" "t/a/idx:0"
           eq_refl eq_refl ltac:(discriminate) eq_refl eq_refl).
Defined.

(** X6, witness: session [a] renamed to [b] and back. *)
Lemma renameSessionInCache_round_trip_witness :
  let cache : gmap string nat := {["s/a/idx:0" := 7%nat]} in
  renameSessionInCache (renameSessionInCache cache "s" "a" "b") "s" "b" "a" = cache.
Proof.
  apply (renameSessionInCache_round_trip
           ({["s/a/idx:0" := 7%nat]} : gmap string nat) "s" "a" "b"
           eq_refl eq_refl ltac:(discriminate)).
  intros k Hk. apply lookup_singleton_None. intros <-. discriminate Hk.
Defined.

End RenameWitness.

(** ** Scopes and the window-list cache *)

Section ProfileFacts.
Import Profile Windows ProfileMore.

Lemma scopeKeyForProfile_remote (p : HostProfile) :
  scopeKeyForProfile (Some p) <> "local".
Proof. unfold scopeKeyForProfile. rewrite app_String. discriminate. Qed.

(** X7. The cache scope used by the component is the scope key of the
    effective profile, and it is [local] exactly when the operation is
    not remote-like: local and remote entries never share a scope. *)
Theorem cacheScope_effective (mode : Mode) (profileOverride : option HostProfile) :
  cacheScope mode profileOverride
  = scopeKeyForProfile (resolveEffectiveProfile mode profileOverride)
  /\ (cacheScope mode profileOverride = "local"
      <-> isRemoteLike mode profileOverride = false).
Proof.
  unfold cacheScope, isRemoteLike, resolveEffectiveProfile.
  destruct profileOverride as [p|]; [|destruct mode as [|p]].
  - split; [by destruct p|]. split; [|done].
    intros H. by apply scopeKeyForProfile_remote in H.
  - split; [done|]. split; done.
  - split; [by destruct p|]. split; [|done].
    intros H. by apply scopeKeyForProfile_remote in H.
Qed.

Lemma sessionCacheKeyForScope_inj scope a b :
  sessionCacheKeyForScope scope a = sessionCacheKeyForScope scope b -> a = b.
Proof. unfold sessionCacheKeyForScope. intros H. by do 2 apply app_cancel_l in H. Qed.

(** X8. [renameWindowsCacheEntry] moves the window list of the old
    session to the new session's key and touches no other key; when the
    old session has no list nothing changes; and renaming back restores
    the cache when the new session had no list of its own. *)
Theorem renameWindowsCacheEntry_moves (cache : gmap string (list TmuxWindow))
    (scope a b k : string) :
  a <> b ->
  k <> sessionCacheKeyForScope scope a -> k <> sessionCacheKeyForScope scope b ->
  let renamed := renameWindowsCacheEntry cache scope a b in
  (renamed !! sessionCacheKeyForScope scope b
   = match cache !! sessionCacheKeyForScope scope a with
     | Some ws => Some ws
     | None => cache !! sessionCacheKeyForScope scope b
     end)
  /\ renamed !! sessionCacheKeyForScope scope a = None
  /\ renamed !! k = cache !! k
  /\ (cache !! sessionCacheKeyForScope scope a = None -> renamed = cache)
  /\ (cache !! sessionCacheKeyForScope scope b = None ->
      renameWindowsCacheEntry renamed scope b a = cache).
Proof.
  intros Hne Hka Hkb. cbn zeta.
  assert (sessionCacheKeyForScope scope a <> sessionCacheKeyForScope scope b) as Hkeys.
  { intros H. by apply sessionCacheKeyForScope_inj in H. }
  unfold renameWindowsCacheEntry.
  rewrite (bool_decide_eq_false_2 (a = b)) by done.
  rewrite (bool_decide_eq_false_2 (b = a)) by done.
  destruct (cache !! sessionCacheKeyForScope scope a) as [ws|] eqn:Ha.
  - rewrite lookup_insert_eq, lookup_insert_ne, lookup_delete_eq by done.
    rewrite lookup_insert_ne, lookup_delete_ne by done.
    split; [done|]. split; [done|]. split; [done|]. split; [done|].
    intros Hb. rewrite delete_insert_eq.
    rewrite (delete_id (delete _ cache)) by (by rewrite lookup_delete_ne).
    rewrite insert_delete_eq. by apply insert_id.
  - rewrite Ha. split; [done|]. split; [done|]. split; [done|]. split; [done|].
    intros Hb. by rewrite Hb.
Qed.

(** X8, witness: the list of session [alpha] moved to [beta]. *)
Lemma renameWindowsCacheEntry_moves_witness :
  let shell := {| index := 0; id := Some "@1"; name := "shell"; active := true; panes := 1 |} in
  let cache : gmap string (list TmuxWindow) := {["remote:ops@node:2200/alpha" := [shell]]} in
  renameWindowsCacheEntry cache "remote:ops@node:2200" "alpha" "beta"
    !! sessionCacheKeyForScope "remote:ops@node:2200" "alpha" = None
  /\ renameWindowsCacheEntry cache "remote:ops@node:2200" "alpha" "beta"
    !! "local/alpha" = cache !! "local/alpha".
Proof.
  cbn zeta.
  destruct (renameWindowsCacheEntry_moves
              ({["remote:ops@node:2200/alpha" :=
                   [ {| index := 0; id := Some "@1"; name := "shell";
                        active := true; panes := 1 |} ]]})
              "remote:ops@node:2200" "alpha" "beta" "local/alpha")
    as (_ & H2 & H3 & _); [discriminate..|].
  split; [exact H2|exact H3].
Defined.

End ProfileFacts.

(** ** Quoting is unambiguous *)

Section QuotingFacts.
Import Commands CommandsMore.

Lemma app_length_str (a b : string) :
  String.length (a +:+ b) = (String.length a + String.length b)%nat.
Proof. induction a as [|c a IH]; [done|]. rewrite app_String. cbn. by rewrite IH. Qed.

Lemma app_cancel_r (a b c : string) : a +:+ c = b +:+ c -> a = b.
Proof.
  revert b. induction a as [|x a IH]; intros [|y b] H.
  - done.
  - apply (f_equal String.length) in H. rewrite !app_length_str in H.
    cbn [String.length] in H. lia.
  - apply (f_equal String.length) in H. rewrite !app_length_str in H.
    cbn [String.length] in H. lia.
  - rewrite !app_String in H. injection H as -> H. f_equal. by apply IH.
Qed.

Lemma replaceChar_cons c r (a : ascii) (s : string) :
  Js.replaceChar c r (String a s) =
    if bool_decide (a = c) then r +:+ Js.replaceChar c r s
    else String a (Js.replaceChar c r s).
Proof. reflexivity. Qed.

(** The quoted body followed by the closing quote is read back in one
    way only, when what follows the closing quote is no double quote. *)
Lemma quoted_body_unambiguous (v1 v2 r1 r2 : string) :
  match r1 with String c _ => c <> Js.dquote | EmptyString => True end ->
  match r2 with String c _ => c <> Js.dquote | EmptyString => True end ->
  Js.replaceChar Js.squote quoteEscape v1 +:+ String Js.squote r1
  = Js.replaceChar Js.squote quoteEscape v2 +:+ String Js.squote r2 ->
  v1 = v2 /\ r1 = r2.
Proof.
  intros Hr1 Hr2. revert v2.
  induction v1 as [|x v1 IH]; intros [|y v2] H.
  - cbn in H. by injection H.
  - rewrite replaceChar_cons in H. cbn [Js.replaceChar] in H.
    destruct (decide (y = Js.squote)) as [->|Hy].
    + rewrite bool_decide_eq_true_2 in H by done.
      cbn in H. injection H as ->. by destruct Hr1.
    + rewrite bool_decide_eq_false_2 in H by done.
      cbn in H. injection H as <-. done.
  - rewrite replaceChar_cons in H. cbn [Js.replaceChar] in H.
    destruct (decide (x = Js.squote)) as [->|Hx].
    + rewrite bool_decide_eq_true_2 in H by done.
      cbn in H. injection H as <-. by destruct Hr2.
    + rewrite bool_decide_eq_false_2 in H by done.
      cbn in H. injection H as ->. done.
  - rewrite !replaceChar_cons in H.
    destruct (decide (x = Js.squote)) as [->|Hx],
             (decide (y = Js.squote)) as [->|Hy].
    + rewrite !bool_decide_eq_true_2 in H by done.
      rewrite !app_assoc_str in H. apply app_cancel_l in H.
      destruct (IH _ H) as [-> ->]. done.
    + rewrite bool_decide_eq_true_2, bool_decide_eq_false_2 in H by done.
      cbn in H. injection H as <-. done.
    + rewrite bool_decide_eq_false_2, bool_decide_eq_true_2 in H by done.
      cbn in H. injection H as ->. done.
    + rewrite !bool_decide_eq_false_2 in H by done.
      rewrite !app_String in H. injection H as -> H.
      destruct (IH _ H) as [-> ->]. done.
Qed.

Lemma plain_unambiguous (v1 v2 r1 r2 : string) :
  Js.all argChar v1 = true -> Js.all argChar v2 = true ->
  terminator r1 -> terminator r2 ->
  v1 +:+ r1 = v2 +:+ r2 -> v1 = v2 /\ r1 = r2.
Proof.
  revert v2. induction v1 as [|x v1 IH]; intros [|y v2] H1 H2 Hr1 Hr2 H.
  - done.
  - change (EmptyString +:+ r1) with r1 in H. rewrite app_String in H.
    subst r1. cbn in Hr1, H2.
    apply andb_true_iff in H2 as [H2 _]. destruct Hr1 as [Hr1 _]. congruence.
  - change (EmptyString +:+ r2) with r2 in H. rewrite app_String in H.
    subst r2. cbn in Hr2, H1.
    apply andb_true_iff in H1 as [H1 _]. destruct Hr2 as [Hr2 _]. congruence.
  - rewrite !app_String in H. injection H as -> H.
    cbn in H1, H2. apply andb_true_iff in H1 as [_ H1], H2 as [_ H2].
    destruct (IH _ H1 H2 Hr1 Hr2 H) as [-> ->]. done.
Qed.

Lemma escapeArg_read_back (u1 u2 s1 s2 : string) :
  terminator s1 -> terminator s2 ->
  escapeArg u1 +:+ s1 = escapeArg u2 +:+ s2 -> u1 = u2 /\ s1 = s2.
Proof.
  intros Hs1 Hs2. unfold escapeArg, plainArg.
  destruct (Js.truthy u1 && Js.all argChar u1) eqn:P1,
           (Js.truthy u2 && Js.all argChar u2) eqn:P2.
  - apply andb_true_iff in P1 as [_ P1], P2 as [_ P2].
    by apply plain_unambiguous.
  - apply andb_true_iff in P1 as [T1 P1].
    destruct u1 as [|x u1]; [done|]. cbn in P1.
    apply andb_true_iff in P1 as [P1 _].
    rewrite !app_String. intros [= -> _]. done.
  - apply andb_true_iff in P2 as [T2 P2].
    destruct u2 as [|y u2]; [done|]. cbn in P2.
    apply andb_true_iff in P2 as [P2 _].
    rewrite !app_String. intros [= <- _]. done.
  - rewrite !app_String. intros [= H]. rewrite !app_assoc_str in H.
    change ("'" +:+ s1) with (String Js.squote s1) in H.
    change ("'" +:+ s2) with (String Js.squote s2) in H.
    apply quoted_body_unambiguous in H; [done| |].
    + destruct s1; [done|]. by destruct Hs1 as (_ & _ & ?).
    + destruct s2; [done|]. by destruct Hs2 as (_ & _ & ?).
Qed.

Lemma escapeArg_inj (v1 v2 : string) : escapeArg v1 = escapeArg v2 -> v1 = v2.
Proof.
  intros He. apply (escapeArg_read_back v1 v2 EmptyString EmptyString); [done..|].
  by rewrite !app_empty_r.
Qed.

Lemma terminator_space (r : string) : terminator (String Js.space r).
Proof. repeat split; discriminate. Qed.

(** X9. An emitted value can be read back in one way only: if two
    emitted values, each followed by nothing or by text that starts with
    a character outside the class and the quotes, give the same text,
    then the values and what follows them are the same. In particular
    [escapeArg] is injective and never returns the empty string. *)
Theorem escapeArg_unambiguous (v1 v2 r1 r2 : string) :
  terminator r1 -> terminator r2 ->
  escapeArg v1 +:+ r1 = escapeArg v2 +:+ r2 ->
  (v1 = v2 /\ r1 = r2)
  /\ (escapeArg v1 = escapeArg v2 -> v1 = v2)
  /\ escapeArg v1 <> EmptyString.
Proof.
  intros Hr1 Hr2 H. split; [by apply escapeArg_read_back|].
  split; [apply escapeArg_inj|].
  unfold escapeArg, plainArg. destruct v1 as [|x v1]; [done|].
  destruct (Js.truthy _ && _); [done|]. rewrite app_String. discriminate.
Qed.

(** X9, witness: a plain and a quoted value followed by the same text. *)
Lemma escapeArg_unambiguous_witness :
  ("arc:0" = "arc:0" /\ " -l 'ls -la'" = " -l 'ls -la'")
  /\ (escapeArg "arc:0" = escapeArg "arc:0" -> "arc:0" = "arc:0")
  /\ escapeArg "arc:0" <> EmptyString.
Proof.
  apply (escapeArg_unambiguous "arc:0" "arc:0" " -l 'ls -la'" " -l 'ls -la'").
  - repeat split; discriminate.
  - repeat split; discriminate.
  - reflexivity.
Defined.

(** X10. The commands built for sending keys determine their inputs: two
    calls that yield the same commands had the same target, the same keys
    and the same [withEnter]. *)
Theorem buildSendKeysControlCommand_inj (t1 t2 k1 k2 : string) (e1 e2 : bool) :
  buildSendKeysControlCommand t1 k1 e1 = buildSendKeysControlCommand t2 k2 e2 ->
  t1 = t2 /\ k1 = k2 /\ e1 = e2.
Proof.
  unfold buildSendKeysControlCommand. cbv zeta. intros H.
  assert ("send-keys -t " +:+ escapeArg t1 +:+ " -l " +:+ escapeArg k1
          = "send-keys -t " +:+ escapeArg t2 +:+ " -l " +:+ escapeArg k2) as Hlit.
  { destruct e1, e2; cbn [negb] in H; congruence. }
  apply app_cancel_l in Hlit.
  apply escapeArg_read_back in Hlit as [-> Hk]; [|apply terminator_space..].
  apply app_cancel_l in Hk. apply escapeArg_inj in Hk as ->.
  split; [done|]. split; [done|].
  destruct e1, e2; cbn [negb] in H; congruence.
Qed.

(** X10, witness. *)
Lemma buildSendKeysControlCommand_inj_witness :
  "arc:0" = "arc:0" /\ "ls -la" = "ls -la" /\ true = true.
Proof.
  exact (buildSendKeysControlCommand_inj "arc:0" "arc:0" "ls -la" "ls -la" true true
           eq_refl).
Defined.

(** X11. The capture command does not depend on the sign of [lines] and
    uses 200 lines when none are given; the capture and list commands
    determine the target (and the line count) they were built for. *)
Theorem read_commands_determined (t1 t2 s1 s2 : string) (l1 l2 : option Z) (n : Z) :
  buildCapturePaneCommand t1 (Some (- n)) = buildCapturePaneCommand t1 (Some n)
  /\ buildCapturePaneCommand t1 None = buildCapturePaneCommand t1 (Some 200)
  /\ (buildCapturePaneCommand t1 l1 = buildCapturePaneCommand t2 l2 ->
      t1 = t2 /\ Z.abs (default 200 l1) = Z.abs (default 200 l2))
  /\ (buildListWindowsCommand s1 = buildListWindowsCommand s2 -> s1 = s2).
Proof.
  unfold buildCapturePaneCommand, buildListWindowsCommand.
  split; [by rewrite (Z.abs_opp n : Z.abs (default 200 (Some (- n))) = Z.abs (default 200 (Some n)))|].
  split; [done|]. split.
  - intros H. apply app_cancel_l in H.
    apply escapeArg_read_back in H as [-> H]; [|apply terminator_space..].
    split; [done|]. apply app_cancel_l in H. apply app_cancel_r in H.
    by apply (inj pretty).
  - intros H. apply app_cancel_l in H.
    by apply escapeArg_read_back in H as [-> _]; [|apply terminator_space..].
Qed.

End QuotingFacts.

(** * Reply blocks *)

Section ReplyBlockFacts.
Import Profile Control Wire ControlMore.
Local Open Scope list_scope.

Lemma indexOf_word_space (w s : string) :
  word w -> Js.indexOf Js.space (w +:+ String Js.space s) = Some (String.length w).
Proof.
  unfold word. induction w as [|c w IH].
  - intros _. reflexivity.
  - cbn [Js.indexOf]. case_bool_decide as Hc; [done|]. intros H.
    destruct (Js.indexOf Js.space w) eqn:Hw; [done|].
    rewrite app_String. cbn [Js.indexOf String.length].
    rewrite bool_decide_eq_false_2 by done. by rewrite IH.
Qed.

Lemma sliceTo_app (p s : string) : Js.sliceTo (String.length p) (p +:+ s) = p.
Proof.
  induction p as [|c p IH]; [by destruct s|].
  rewrite app_String. cbn [String.length Js.sliceTo]. by rewrite IH.
Qed.

Lemma handleControlLine_dataLine tag payload st :
  word tag ->
  handleControlLine (dataLine tag payload) st =
    match inflight st !! tag with
    | Some entry =>
        withQueues (pending st) (<[tag := pushData [payload] entry]> (inflight st))
          (promises st) st
    | None => st
    end.
Proof.
  intros Ht. unfold handleControlLine.
  change (Js.startsWith (dataLine tag payload) "%%begin ") with false.
  assert (Js.startsWith (dataLine tag payload) "%%data " = true) as ->
    by apply startsWith_app.
  cbn match. unfold handleData.
  change (Js.sliceFrom 7 (dataLine tag payload))
    with (tag +:+ String Js.space payload).
  rewrite indexOf_word_space by done. rewrite sliceTo_app.
  change (S (String.length tag)) with (String.length (String Js.space tag)).
  replace (Js.sliceFrom (String.length (String Js.space tag)) (tag +:+ String Js.space payload))
    with payload; [done|].
  clear. induction tag as [|c tag IH]; [done|].
  rewrite app_String. exact IH.
Qed.

Lemma pushData_nil e : pushData [] e = e.
Proof. destruct e. unfold pushData. cbn. by rewrite app_nil_r. Qed.

Lemma pushData_app l1 l2 e : pushData l2 (pushData l1 e) = pushData (l1 ++ l2) e.
Proof. unfold pushData. cbn. by rewrite app_assoc. Qed.

Lemma payloadsFor_cons tag d ds :
  payloadsFor tag (d :: ds) =
    (if decide (d.1 = tag) then [d.2] else []) ++ payloadsFor tag ds.
Proof.
  unfold payloadsFor. rewrite filter_cons. by destruct (decide (d.1 = tag)).
Qed.

(** Data lines are sorted by tag into the entries in flight, in arrival
    order; nothing else changes. *)
Lemma run_dataEvents key ds st :
  controlSessionKeyRef st = Some key ->
  Forall (fun d => word d.1) ds ->
  let st' := run st (dataEvents key ds) in
  pending st' = pending st /\ promises st' = promises st
  /\ controlSessionKeyRef st' = Some key
  /\ forall t, inflight st' !! t = pushData (payloadsFor t ds) <$> inflight st !! t.
Proof.
  intros Hk Hw. revert st Hk. induction Hw as [|d ds Hd _ IH]; intros st Hk.
  - cbn. repeat split; try done. intros t.
    destruct (inflight st !! t) as [e|]; [|done]. cbn. by rewrite pushData_nil.
  - cbn zeta. change (run st (dataEvents key (d :: ds)))
      with (run (step st (lineEvent key (dataLine d.1 d.2))) (dataEvents key ds)).
    rewrite step_lineEvent by done. rewrite handleControlLine_dataLine by done.
    destruct (inflight st !! d.1) as [e|] eqn:He.
    + destruct (IH (withQueues (pending st) (<[d.1 := pushData [d.2] e]> (inflight st))
                      (promises st) st) Hk) as (Hp & Hpr & Hk' & Hi).
      split; [exact Hp|]. split; [exact Hpr|]. split; [exact Hk'|].
      intros t. rewrite Hi, payloadsFor_cons.
      change (inflight (withQueues _ ?i _ _)) with i.
      destruct (decide (d.1 = t)) as [<-|Hne].
      * rewrite lookup_insert_eq, He. cbn. by rewrite pushData_app.
      * rewrite lookup_insert_ne by done. done.
    + destruct (IH st Hk) as (Hp & Hpr & Hk' & Hi).
      split; [exact Hp|]. split; [exact Hpr|]. split; [exact Hk'|].
      intros t. rewrite Hi, payloadsFor_cons.
      destruct (decide (d.1 = t)) as [<-|Hne]; [by rewrite He|done].
Qed.

(** X12. A whole reply block. When the connection is current, a command
    is queued and its promise is unsettled, a [%%begin] line with a tag,
    then data lines (for this tag or others, in any interleaving), then
    the [%%end] line of the tag settle the promise of the command at the
    head of the queue: resolved with the payloads of its own data lines
    in arrival order when the status is 0, rejected with their text (or
    the generic message) otherwise. The tag is no longer in flight and
    the rest of the queue is untouched. *)
Theorem reply_block_settles_head (st : State) (key tag status : string)
    (rest : option string) (ds : list (string * string))
    (e : ControlPending) (q : list ControlPending) :
  controlSessionKeyRef st = Some key ->
  pending st = e :: q ->
  promises st !! entryId e = None ->
  word tag -> word status -> Forall (fun d => word d.1) ds ->
  let st' := run st (lineEvent key (beginLine tag rest)
                       :: dataEvents key ds ++ [lineEvent key (endLine tag status)]) in
  let lines := data e ++ payloadsFor tag ds in
  promises st' !! entryId e =
    Some (if bool_decide (status = "0") then Resolved lines
          else Rejected (endErrorMessage lines status))
  /\ pending st' = q
  /\ inflight st' !! tag = None.
Proof.
  intros Hk Hp Hu Ht Hs Hds. cbn zeta.
  change (run st (?b :: ?l)) with (run (step st b) l).
  rewrite step_lineEvent; [|done|by destruct rest].
  rewrite handleControlLine_beginLine by done. rewrite Hp.
  rewrite run_app.
  set (st1 := withQueues q (<[tag := e]> (inflight st)) (promises st) st).
  destruct (run_dataEvents key ds st1 Hk Hds) as (Hp2 & Hpr2 & Hk2 & Hi2).
  set (st2 := run st1 (dataEvents key ds)) in *.
  change (run st2 [?x]) with (step st2 x).
  rewrite step_lineEvent; [|done|done].
  rewrite handleControlLine_endLine by done.
  rewrite Hi2. change (inflight st1) with (<[tag := e]> (inflight st)).
  rewrite lookup_insert_eq. cbn [fmap option_fmap option_map].
  change (promises (withQueues _ _ ?p _)) with p.
  change (pending (withQueues ?p _ _ _)) with p.
  change (inflight (withQueues _ ?i _ _)) with i.
  change (entryId (pushData _ e)) with (entryId e).
  change (data (pushData ?l e)) with (data e ++ l).
  rewrite Hpr2. change (promises st1) with (promises st).
  rewrite settle_unsettled by done. split; [done|].
  split; [by rewrite Hp2|]. apply lookup_delete_eq.
Qed.

End ReplyBlockFacts.

Section ReplyBlockWitness.
Import Profile Control Wire Examples ControlMore.
Local Open Scope list_scope.

(** X12, witness: two commands queued; the reply to the first carries
    two of the three data lines. *)
Lemma reply_block_settles_head_witness :
  let st' := run twoQueued
               (lineEvent arcKey (beginLine "7" (Some "1 0"))
                  :: dataEvents arcKey [("7", "a b"); ("9", "x"); ("7", EmptyString)]
                  ++ [lineEvent arcKey (endLine "7" "0")]) in
  promises st' !! 0%nat = Some (Resolved ([] ++ ["a b"; EmptyString]))
  /\ pending st'
     = [ {| entryId := 1; command := "capture-pane -p -t arc:0 -S -200 -J";
            data := [] |} ].
Proof.
  destruct (reply_block_settles_head twoQueued arcKey "7" "0" (Some "1 0")
              [("7", "a b"); ("9", "x"); ("7", EmptyString)]
              {| entryId := 0; command := "list-windows -t arc"; data := [] |}
              [ {| entryId := 1; command := "capture-pane -p -t arc:0 -S -200 -J";
                   data := [] |} ]
              ltac:(vm_compute; reflexivity) ltac:(vm_compute; reflexivity)
              ltac:(vm_compute; reflexivity) eq_refl eq_refl
              ltac:(repeat constructor))
    as (H1 & H2 & _).
  cbn zeta. split; [exact H1|exact H2].
Defined.

End ReplyBlockWitness.

(** * Resets and disconnection *)

Section ResetFacts.
Import Profile Control Wire ControlMore.
Local Open Scope list_scope.

Lemma resetControlQueues_promises reason st id :
  promises (resetControlQueues reason st) !! id =
    match promises st !! id with
    | Some o => Some o
    | None =>
        if bool_decide (id ∈ entryId <$> (pending st ++ inflightEntries st))
        then Some (Rejected (match reason with
                             | Some r => if Js.truthy r then r else "control session reset"
                             | None => "control session reset"
                             end))
        else None
    end.
Proof.
  cbn [resetControlQueues promises setPromises setPending setInflight].
  rewrite !rejectAll_lookup. destruct (promises st !! id); [done|].
  rewrite fmap_app.
  destruct (decide (id ∈ entryId <$> pending st)) as [Hin|Hout].
  - rewrite !bool_decide_eq_true_2; [done| |done].
    apply elem_of_app. by left.
  - rewrite (bool_decide_eq_false_2 _ Hout).
    apply (f_equal (fun b : bool => if b then _ else _)).
    apply bool_decide_ext. rewrite elem_of_app. tauto.
Qed.

(** Each resetting event empties the queues and settles promises as
    [resetControlQueues] does on the state it is given. *)
Lemma step_resets st s p key ev reason :
  controlSessionKeyRef st = Some key -> controlRef st <> None ->
  (ev, reason) ∈ resets s p key ->
  pending (step st ev) = [] /\ inflight (step st ev) = ∅
  /\ promises (step st ev) = promises (resetControlQueues (Some reason) st).
Proof.
  intros Hk Hc Hev. unfold resets in Hev.
  repeat (apply elem_of_cons in Hev as [[= -> ->]|Hev]); [..|by apply elem_of_nil in Hev].
  - done.
  - cbn [step]. unfold stopControlSession.
    destruct (controlRef st) as [[session profile]|]; done.
  - cbn. by rewrite Hk, bool_decide_eq_true_2.
  - cbn. by rewrite Hk, bool_decide_eq_true_2.
  - cbn. by rewrite Hk, bool_decide_eq_true_2.
Qed.

(** X13. Starting or stopping a connection, and the "started", "stopped"
    and "closed" events of the current connection, leave both queues
    empty and no outstanding promise unsettled: every queued or in-flight
    command whose promise was unsettled is rejected ("control session
    stopped" for "stopped" and "closed", "control session reset"
    otherwise), promises already settled keep their outcome, and no other
    promise is touched. *)
Theorem reset_rejects_outstanding (st : State) (s : string) (p : HostProfile)
    (key : string) (ev : Event) (reason : string) :
  controlSessionKeyRef st = Some key ->
  controlRef st <> None ->
  (ev, reason) ∈ resets s p key ->
  let st' := step st ev in
  pending st' = [] /\ inflight st' = ∅
  /\ (forall e, e ∈ pending st ++ inflightEntries st ->
        promises st !! entryId e = None ->
        promises st' !! entryId e = Some (Rejected reason))
  /\ (forall id o, promises st !! id = Some o -> promises st' !! id = Some o)
  /\ (forall id, id ∉ entryId <$> (pending st ++ inflightEntries st) ->
        promises st' !! id = promises st !! id).
Proof.
  intros Hk Hc Hev. cbn zeta.
  assert (Js.truthy reason = true) as Hr.
  { unfold resets in Hev.
    repeat (apply elem_of_cons in Hev as [[= -> ->]|Hev]); try done.
    by apply elem_of_nil in Hev. }
  destruct (step_resets st s p key ev reason Hk Hc Hev) as (Hp & Hi & Hpr).
  split; [exact Hp|]. split; [exact Hi|]. rewrite Hpr.
  split; [|split].
  - intros e He Hu. rewrite resetControlQueues_promises, Hu, Hr.
    rewrite bool_decide_eq_true_2; [done|].
    apply list_elem_of_fmap. by exists e.
  - intros id o Ho. by rewrite resetControlQueues_promises, Ho.
  - intros id Hid. rewrite resetControlQueues_promises.
    destruct (promises st !! id); [done|]. by rewrite bool_decide_eq_false_2.
Qed.

(** X14. After [stopControlSession], or a "stopped" or "closed" event of
    the current connection, no connection is current: every later control
    event is ignored, whatever key it carries, and [sendControlCommand]
    rejects with "control session inactive" without queueing the command
    or calling the Executor. *)
Theorem disconnected_is_inert (st : State) (key : string) (ev : Event) :
  controlSessionKeyRef st = Some key ->
  controlRef st <> None ->
  ev ∈ disconnects key ->
  let st' := step st ev in
  (forall payload, controlEventListener payload st' = st')
  /\ (forall cmd,
        promises st' !! nextId st' = None ->
        let '(id, st'') := sendControlCommand cmd st' in
        promises st'' !! id = Some (Rejected "control session inactive")
        /\ pending st'' = [] /\ inflight st'' = ∅
        /\ effects st'' = effects st').
Proof.
  intros Hk Hc Hev. cbn zeta.
  assert (controlSessionKeyRef (step st ev) = None
          /\ pending (step st ev) = [] /\ inflight (step st ev) = ∅)
    as (Hnone & Hp & Hi).
  { unfold disconnects in Hev.
    repeat (apply elem_of_cons in Hev as [->|Hev]); [..|by apply elem_of_nil in Hev].
    - cbn [step]. unfold stopControlSession.
      destruct (controlRef st) as [[session profile]|]; done.
    - cbn. by rewrite Hk, bool_decide_eq_true_2.
    - cbn. by rewrite Hk, bool_decide_eq_true_2. }
  set (st' := step st ev) in *. split.
  - intros [p0|]; [|done]. unfold controlEventListener.
    rewrite Hnone. by rewrite bool_decide_eq_false_2.
  - intros cmd Hfresh. unfold sendControlCommand. rewrite Hnone.
    destruct (controlRef st'); cbn [promises setPromises setNextId pending
      inflight effects]; by rewrite settle_unsettled.
Qed.

End ResetFacts.

Section ResetWitness.
Import Profile Control Wire Examples ControlMore.
Local Open Scope list_scope.

(** X13, witness: the connection is lost while two commands are queued. *)
Lemma reset_rejects_outstanding_witness :
  let st' := step twoQueued (lifecycleEvent arcKey "closed") in
  pending st' = [] /\ inflight st' = ∅.
Proof.
  destruct (reset_rejects_outstanding twoQueued "arc" opsProfile arcKey
              (lifecycleEvent arcKey "closed") "control session stopped"
              ltac:(vm_compute; reflexivity) ltac:(vm_compute; discriminate)
              ltac:(do 4 apply list_elem_of_further; apply list_elem_of_here))
    as (H1 & H2 & _).
  cbn zeta. split; [exact H1|exact H2].
Defined.

(** X14, witness: the session is stopped while two commands are queued. *)
Lemma disconnected_is_inert_witness :
  let st' := step twoQueued EvStop in
  controlEventListener
    (Some {| ev_key := arcKey; ev_kind := "line"; ev_line := Some "%%begin 7" |}) st'
  = st'.
Proof.
  destruct (disconnected_is_inert twoQueued arcKey EvStop
              ltac:(vm_compute; reflexivity) ltac:(vm_compute; discriminate)
              ltac:(apply list_elem_of_here))
    as (H1 & _).
  exact (H1 (Some {| ev_key := arcKey; ev_kind := "line"; ev_line := Some "%%begin 7" |})).
Defined.

End ResetWitness.

(** * Pruning by session *)

Section SessionPruneFacts.
Import WindowCache WindowCacheRename Profile SessionPrune.
Context {T : Type}.
Implicit Types (map : gmap string T) (key : string).

Lemma split_head (c : ascii) (w : string) :
  Js.indexOf c w = None -> Js.split c w = [w].
Proof.
  induction w as [|a w IH]; [done|]. cbn [Js.indexOf Js.split].
  case_bool_decide as Hc; [done|]. intros H.
  destruct (Js.indexOf c w); [done|]. by rewrite IH.
Qed.

Lemma split_head_sep (c : ascii) (w s : string) :
  Js.indexOf c w = None -> Js.split c (w +:+ String c s) = w :: Js.split c s.
Proof.
  induction w as [|a w IH].
  - intros _. change (EmptyString +:+ String c s) with (String c s).
    cbn [Js.split]. by rewrite bool_decide_eq_true_2.
  - cbn [Js.indexOf]. case_bool_decide as Hc; [done|]. intros H.
    destruct (Js.indexOf c w) eqn:Hw; [done|].
    rewrite app_String. cbn [Js.split].
    rewrite bool_decide_eq_false_2 by done. by rewrite IH.
Qed.

Lemma pruneSession_loop_lookup scope allowed keys map key :
  foldl (pruneSessionKey scope allowed) map keys !! key =
    if bool_decide (key ∈ keys)
       && (Js.startsWith key (scope +:+ "/")
           && negb (bool_decide (sessionOfKey scope key ∈ allowed)))
    then None else map !! key.
Proof.
  revert map. induction keys as [|k keys IH]; intros map; cbn [foldl].
  - case_bool_decide as Hin; [by apply elem_of_nil in Hin|done].
  - rewrite IH. unfold pruneSessionKey.
    destruct (decide (key = k)) as [->|Hne].
    + rewrite (bool_decide_eq_true_2 (k ∈ k :: keys)) by apply list_elem_of_here.
      destruct (Js.startsWith k (scope +:+ "/")); cbn [negb andb].
      * destruct (bool_decide (sessionOfKey scope k ∈ allowed)); cbn [negb andb].
        -- by rewrite andb_false_r.
        -- rewrite lookup_delete_eq. by destruct (bool_decide _ && true).
      * by rewrite andb_false_r.
    + assert (bool_decide (key ∈ k :: keys) = bool_decide (key ∈ keys)) as ->.
      { apply bool_decide_ext. rewrite elem_of_cons. tauto. }
      destruct (Js.startsWith k (scope +:+ "/")); cbn [negb]; [|done].
      destruct (bool_decide (sessionOfKey scope k ∈ allowed)); cbn [negb]; [done|].
      by rewrite lookup_delete_ne.
Qed.

Lemma pruneBySessions_lookup scope allowed map key :
  pruneBySessions scope allowed map !! key =
    if Js.startsWith key (scope +:+ "/")
       && negb (bool_decide (sessionOfKey scope key ∈ allowed))
    then None else map !! key.
Proof.
  unfold pruneBySessions. rewrite pruneSession_loop_lookup.
  destruct (map !! key) as [v|] eqn:Hk.
  - rewrite bool_decide_eq_true_2; [done|].
    apply list_elem_of_fmap. exists (key, v). split; [done|].
    by apply elem_of_map_to_list.
  - destruct (Js.startsWith _ _ && negb _); [|by rewrite andb_false_r].
    by destruct (bool_decide _).
Qed.

Lemma sessionOfKey_under scope a r :
  slashFree a -> sessionOfKey scope (scope +:+ "/" +:+ a +:+ "/" +:+ r) = a.
Proof.
  intros Ha. unfold sessionOfKey.
  replace (String.length scope + 1)%nat with (String.length (scope +:+ "/")).
  2:{ rewrite app_length_str. done. }
  rewrite <- (app_assoc_str scope "/"). rewrite sliceFrom_app.
  change (a +:+ "/" +:+ r) with (a +:+ String slash r).
  by rewrite split_head_sep.
Qed.

Lemma sessionOfKey_exact scope a :
  slashFree a -> sessionOfKey scope (scope +:+ "/" +:+ a) = a.
Proof.
  intros Ha. unfold sessionOfKey.
  replace (String.length scope + 1)%nat with (String.length (scope +:+ "/")).
  2:{ rewrite app_length_str. done. }
  rewrite <- (app_assoc_str scope "/"). rewrite sliceFrom_app.
  by rewrite split_head.
Qed.

(** X15. The pruning done after the sessions are listed looks only at
    the text between the scope and the next slash: a key [scope/a/...]
    or [scope/a], with [a] free of slashes, keeps its value when [a] is a
    listed name and is removed otherwise, and a key that does not start
    with [scope/] is never touched. So the window, pane and name entries
    of a listed session whose name has no slash survive, and those of
    sessions that are gone are dropped. *)
Theorem pruneBySessions_by_first_segment (scope a : string) (names : list string)
    (map : gmap string T) :
  slashFree a ->
  let pruned := pruneBySessions scope (allowedOf names) map in
  (forall r, pruned !! (scope +:+ "/" +:+ a +:+ "/" +:+ r) =
             if bool_decide (a ∈ names)
             then map !! (scope +:+ "/" +:+ a +:+ "/" +:+ r) else None)
  /\ (forall i id, pruned !! buildWindowCacheKey scope a i id =
                   if bool_decide (a ∈ names)
                   then map !! buildWindowCacheKey scope a i id else None)
  /\ pruned !! sessionCacheKeyForScope scope a =
       (if bool_decide (a ∈ names)
        then map !! sessionCacheKeyForScope scope a else None)
  /\ (forall key, Js.startsWith key (scope +:+ "/") = false ->
                  pruned !! key = map !! key).
Proof.
  intros Ha. cbn zeta.
  assert (forall r, pruneBySessions scope (allowedOf names) map
                      !! (scope +:+ "/" +:+ a +:+ "/" +:+ r) =
                    if bool_decide (a ∈ names)
                    then map !! (scope +:+ "/" +:+ a +:+ "/" +:+ r) else None) as Hseg.
  { intros r. rewrite pruneBySessions_lookup, sessionOfKey_under by done.
    rewrite <- (app_assoc_str scope "/"), startsWith_app. cbn [andb].
    unfold allowedOf.
    rewrite (bool_decide_ext (a ∈ (list_to_set names : gset string)) (a ∈ names))
      by apply elem_of_list_to_set.
    by destruct (bool_decide (a ∈ names)). }
  split; [exact Hseg|]. split; [|split].
  - intros i id. apply Hseg.
  - unfold sessionCacheKeyForScope.
    rewrite pruneBySessions_lookup, sessionOfKey_exact by done.
    rewrite <- (app_assoc_str scope "/"), startsWith_app. cbn [andb].
    unfold allowedOf.
    rewrite (bool_decide_ext (a ∈ (list_to_set names : gset string)) (a ∈ names))
      by apply elem_of_list_to_set.
    by destruct (bool_decide (a ∈ names)).
  - intros key Hk. by rewrite pruneBySessions_lookup, Hk.
Qed.

End SessionPruneFacts.

Section SessionPruneWitness.
Import WindowCache WindowCacheRename Profile SessionPrune.

(** X15, witness: [arc] is listed, [old] is not. *)
Lemma pruneBySessions_by_first_segment_witness :
  let map : gmap string string :=
    <["local/arc/idx:0" := "pane a"]> (<["local/old/idx:0" := "pane b"]> ∅) in
  pruneBySessions "local" (allowedOf ["arc"]) map !! sessionCacheKeyForScope "local" "old"
  = (if bool_decide ("old" ∈ ["arc"])
     then map !! sessionCacheKeyForScope "local" "old" else None).
Proof.
  exact (proj1 (proj2 (proj2
           (pruneBySessions_by_first_segment "local" "old" ["arc"]
              (<["local/arc/idx:0" := "pane a"]> (<["local/old/idx:0" := "pane b"]> ∅))
              eq_refl)))).
Defined.

End SessionPruneWitness.

(** * Cache keys of normalised rows *)

Section CacheKeyFacts.
Import Profile WindowCache Windows Merge.
Local Open Scope list_scope.

Lemma cacheKeyFor_identityKey mode s w o :
  cacheKeyFor mode s w o = sessionPrefix (cacheScope mode o) s +:+ identityKey w.
Proof.
  unfold cacheKeyFor, buildWindowCacheKey, sessionPrefix, identityKey.
  rewrite !app_assoc_str.
  assert (normalizeId (id w) = trimmedIdOf w) as ->; [|done].
  unfold normalizeId, trimmedIdOf. by destruct (id w).
Qed.

(** X16. The pane and name cache key of a window is the session prefix
    followed by the identity key [normalizeWindows] groups by, so two
    windows share a cache key exactly when they share an identity key,
    and the rows of a normalised list have pairwise distinct cache keys. *)
Theorem normalized_rows_distinct_cache_keys (mode : Mode) (s : string)
    (ws : list TmuxWindow) (names : gmap string string) (o : option HostProfile) :
  let out := (normalizeWindows mode s ws names).1 in
  (forall w1 w2, cacheKeyFor mode s w1 o = cacheKeyFor mode s w2 o
                 <-> identityKey w1 = identityKey w2)
  /\ NoDup ((fun w => cacheKeyFor mode s w o) <$> out).
Proof.
  cbn zeta. split.
  - intros w1 w2. rewrite !cacheKeyFor_identityKey. split.
    + apply app_cancel_l.
    + by intros ->.
  - assert (NoDup (identityKey <$> (normalizeWindows mode s ws names).1)) as Hnd.
    { rewrite normalizeWindows_keys. apply (groupRows_grouped mode s ws names). }
    revert Hnd. generalize (normalizeWindows mode s ws names).1. intros out.
    induction out as [|w out IH]; cbn [fmap list_fmap]; [constructor|].
    rewrite !NoDup_cons. intros [Hw Hout]. split; [|by apply IH].
    rewrite list_elem_of_fmap. intros (w' & Heq & Hin). apply Hw.
    rewrite !cacheKeyFor_identityKey in Heq. apply app_cancel_l in Heq.
    apply list_elem_of_fmap. by exists w'.
Qed.

End CacheKeyFacts.

(** * A load that is not superseded *)

Section LoadRunFacts.
Import Profile WindowCache Windows SessionLoad.
Local Open Scope list_scope.

Lemma preferredOf_elem normalized p :
  preferredOf normalized = Some p -> p ∈ normalized.
Proof.
  unfold preferredOf. destruct (List.find active normalized) eqn:Hf.
  - intros [= <-]. apply find_some in Hf as [Hin _]. by apply list_elem_of_In.
  - destruct normalized as [|x l]; [done|]. intros [= <-]. apply list_elem_of_here.
Qed.

Lemma preferredOf_None normalized : preferredOf normalized = None -> normalized = [].
Proof.
  unfold preferredOf. destruct (List.find active normalized); [done|].
  by destruct normalized.
Qed.

Lemma finallyBlock_fresh c st :
  stale c st = false ->
  finallyBlock c st = setSessionLoading false (setPollPaused false st).
Proof. unfold finallyBlock. by intros ->. Qed.

End LoadRunFacts.

(** * [loadWindows] *)

Section WindowsLoadFacts.
Import Profile WindowCache Windows SessionLoad WindowsLoad.
Local Open Scope list_scope.

Lemma listsIndex_elem normalized i :
  listsIndex normalized i = true <-> i ∈ index <$> normalized.
Proof.
  unfold listsIndex. rewrite existsb_exists, list_elem_of_fmap.
  split.
  - intros (w & Hin & Hw). apply bool_decide_eq_true_1 in Hw.
    exists w. split; [done|]. by apply list_elem_of_In.
  - intros (w & -> & Hin). exists w. split; [by apply list_elem_of_In|].
    by apply bool_decide_eq_true_2.
Qed.

(** X18. After [loadWindows] has received a window list, the list shown
    and cached is the normalised one and the pane cache holds, under the
    session's prefix, only entries of listed windows. With no window the
    selection is cleared; otherwise the selection refs point at a listed
    window: the one with the index selected before when that index is
    still listed, the first window when it is not (or nothing was
    selected), in which case the displayed selection follows. *)
Theorem loadWindows_selects_listed (mode : Mode) (session : string)
    (ws : list TmuxWindow) (st : State) :
  let st' := (loadWindows mode session (Fulfilled ws) st).1 in
  let normalized := (normalizeWindows mode session ws (nameCache st)).1 in
  (loadWindows mode session (Fulfilled ws) st).2 = None
  /\ windows st' = normalized
  /\ windowsCache st' !! sessionCacheKeyForScope (cacheScope mode None) session
     = Some normalized
  /\ (forall key, is_Some (paneCache st' !! key) ->
        Js.startsWith key (sessionPrefix (cacheScope mode None) session) = true ->
        exists w, w ∈ normalized /\ key = cacheKeyFor mode session w None)
  /\ match normalized with
     | [] => activeWinRef st' = None /\ activeWinIdRef st' = None
             /\ activeWin st' = None /\ activeWinId st' = None
     | first :: _ =>
         exists w, w ∈ normalized
           /\ activeWinRef st' = Some (index w) /\ activeWinIdRef st' = id w
           /\ activeWinId st' = id w
           /\ match activeWinRef st with
              | Some i =>
                  if bool_decide (i ∈ index <$> normalized)
                  then index w = i /\ activeWin st' = activeWin st
                  else w = first /\ activeWin st' = Some (index first)
              | None => w = first /\ activeWin st' = Some (index first)
              end
     end.
Proof.
  cbn zeta. unfold loadWindows.
  destruct (normalizeWindows mode session ws (nameCache st)) as [normalized names].
  cbn [fst snd]. split; [done|].
  assert (forall key,
            is_Some (pruneWindowCache (paneCache st) (cacheScope mode None) session
                       (toCacheWindow <$> normalized) !! key) ->
            Js.startsWith key (sessionPrefix (cacheScope mode None) session) = true ->
            exists w, w ∈ normalized /\ key = cacheKeyFor mode session w None) as Hprune.
  { intros key Hsome Hpre. rewrite pruneWindowCache_lookup, Hpre in Hsome.
    cbn [andb] in Hsome. case_bool_decide as Hin; [|by destruct Hsome].
    apply keepSet_elem in Hin as (cw & Hcw & ->).
    apply list_elem_of_fmap in Hcw as (w & -> & Hw). by exists w. }
  destruct normalized as [|first rest].
  { split; [done|]. split; [apply lookup_insert_eq|]. split; [|done].
    exact Hprune. }
  destruct (activeWinRef st) as [i|] eqn:Href.
  - destruct (listsIndex (first :: rest) i) eqn:Hl.
    + cbn [negb].
      destruct (List.find (fun w => bool_decide (index w = i)) (first :: rest))
        as [current|] eqn:Hf.
      * apply find_some in Hf as [Hin Hi]. apply bool_decide_eq_true_1 in Hi.
        split; [done|]. split; [apply lookup_insert_eq|].
        split; [exact Hprune|].
        exists current. split; [by apply list_elem_of_In|].
        do 3 (split; [done|]).
        rewrite bool_decide_eq_true_2 by (by apply listsIndex_elem). done.
      * exfalso. apply existsb_exists in Hl as (w & Hin & Hw).
        by rewrite (find_none _ _ Hf w Hin) in Hw.
    + cbn [negb]. split; [done|]. split; [apply lookup_insert_eq|].
      split; [exact Hprune|].
      exists first. split; [apply list_elem_of_here|]. do 3 (split; [done|]).
      rewrite bool_decide_eq_false_2; [done|].
      intros Hin. apply listsIndex_elem in Hin. congruence.
  - split; [done|]. split; [apply lookup_insert_eq|].
    split; [exact Hprune|].
    exists first. split; [apply list_elem_of_here|]. done.
Qed.

End WindowsLoadFacts.

(** * More on payload decoding *)

Section DecodeMoreFacts.
Import Decode DecodeMore.
Local Open Scope list_scope.

Lemma replaceOctal_length s : (List.length (replaceOctal s) <= List.length s)%nat.
Proof.
  remember (List.length s) as n eqn:Hn. revert s Hn.
  induction n as [n IH] using lt_wf_ind. intros s ->.
  destruct s as [|c t]; [done|]. rewrite replaceOctal_cons.
  assert (List.length (c :: replaceOctal t) <= List.length (c :: t))%nat as Hstep.
  { cbn [List.length]. apply le_n_S. by apply (IH (List.length t)); [cbn; lia|]. }
  destruct t as [|d1 [|d2 [|d3 rest]]]; try exact Hstep.
  destruct ((c =? backslash)%N && isDigit d1 && isDigit d2 && isDigit d3);
    [|exact Hstep].
  cbn [List.length].
  pose proof (IH (List.length rest) ltac:(cbn; lia) rest eq_refl). lia.
Qed.

Lemma collapseBackslashes_length s :
  (List.length (collapseBackslashes s) <= List.length s)%nat.
Proof.
  remember (List.length s) as n eqn:Hn. revert s Hn.
  induction n as [n IH] using lt_wf_ind. intros s ->.
  destruct s as [|c t]; [done|]. rewrite collapseBackslashes_cons.
  destruct t as [|c' rest]; [done|].
  destruct ((c =? backslash)%N && (c' =? backslash)%N); cbn [List.length].
  - pose proof (IH (List.length rest) ltac:(cbn; lia) rest eq_refl). lia.
  - pose proof (IH (List.length (c' :: rest)) ltac:(cbn; lia) (c' :: rest) eq_refl) as H.
    cbn [List.length] in H. lia.
Qed.

(** X19. Decoding never makes a payload longer, and a payload without a
    backslash is returned as it is (the chunks joined). *)
Theorem decodeTmuxData_plain (chunks : list jsstring) :
  Forall (Forall (fun c => c <> backslash)) chunks ->
  decodeTmuxData chunks = List.concat chunks
  /\ forall other,
       (List.length (decodeTmuxData other) <= List.length (List.concat other))%nat.
Proof.
  intros Hplain. split.
  - unfold decodeTmuxData, joinChunks.
    assert (Forall (fun c => c <> backslash) (List.concat chunks)) as H.
    { induction Hplain as [|x l Hx _ IH]; [constructor|].
      cbn [List.concat]. apply Forall_app. by split. }
    by rewrite replaceOctal_plain, collapseBackslashes_plain.
  - intros other. unfold decodeTmuxData, joinChunks.
    etrans; [apply collapseBackslashes_length|apply replaceOctal_length].
Qed.

(** X19, witness. *)
Lemma decodeTmuxData_plain_witness :
  decodeTmuxData [ofString "total 8"; ofString " files"]
  = List.concat [ofString "total 8"; ofString " files"].
Proof.
  apply (decodeTmuxData_plain [ofString "total 8"; ofString " files"]).
  repeat constructor; discriminate.
Defined.

Lemma octalDigits_value c :
  (c < 512)%N ->
  exists d1 d2 d3, octalDigits c = [d1; d2; d3]
    /\ isOctalDigit d1 = true /\ isOctalDigit d2 = true /\ isOctalDigit d3 = true
    /\ (64 * (d1 - 48) + 8 * (d2 - 48) + (d3 - 48))%N = c.
Proof.
  intros Hc. eexists _, _, _. split; [reflexivity|].
  assert (c / 64 < 8)%N as H1 by (apply N.Div0.div_lt_upper_bound; exact Hc).
  assert ((c / 8) mod 8 < 8)%N as H2 by (by apply N.mod_upper_bound).
  assert (c mod 8 < 8)%N as H3 by (by apply N.mod_upper_bound).
  pose proof (N.Div0.div_mod c 8) as E1.
  pose proof (N.Div0.div_mod (c / 8) 8) as E2.
  rewrite N.Div0.div_div in E2. change (8 * 8)%N with 64%N in E2.
  remember (c / 64)%N as a eqn:Ea. remember ((c / 8) mod 8)%N as b eqn:Eb.
  remember (c mod 8)%N as d eqn:Ed. remember (c / 8)%N as e eqn:Ee.
  clear Ea Eb Ed Ee. unfold isOctalDigit.
  repeat split; try (apply andb_true_iff; split; apply N.leb_le; lia).
  lia.
Qed.

Lemma replaceOctal_escapeOctal must s :
  must backslash = true -> Forall (fun c => (c < 512)%N) s ->
  replaceOctal (escapeOctal must s) = s.
Proof.
  intros Hb. induction 1 as [|c t Hc _ IH]; [done|]. cbn [escapeOctal].
  destruct (must c) eqn:Hm.
  - destruct (octalDigits_value c Hc) as (d1 & d2 & d3 & -> & H1 & H2 & H3 & Hv).
    cbn [app]. rewrite replaceOctal_cons.
    rewrite !isOctalDigit_isDigit by done. rewrite N.eqb_refl. cbn [andb].
    by rewrite octal_escape_value, Hv, IH.
  - assert (c <> backslash) as Hne by (intros ->; congruence).
    apply N.eqb_neq in Hne. rewrite replaceOctal_cons, Hne. cbn [andb].
    destruct (escapeOctal must t) as [|? [|? [|? ?]]]; by rewrite IH.
Qed.

Lemma collapseBackslashes_noDoubled s :
  noDoubledBackslash s = true -> collapseBackslashes s = s.
Proof.
  induction s as [|c t IH]; [done|]. cbn [noDoubledBackslash].
  intros H. apply andb_true_iff in H as [H1 H2].
  rewrite collapseBackslashes_cons. destruct t as [|c' rest]; [done|].
  apply negb_true_iff in H1. rewrite H1. by rewrite IH.
Qed.

(** X20. Decoding undoes octal escaping up to doubled backslashes. For
    text of code units below 512 in which at least every backslash is
    escaped, decoding the escaped text, however it is cut into chunks,
    gives the text with each pair of backslashes collapsed into one: the
    text itself when it has no two backslashes in a row. *)
Theorem decodeTmuxData_inverts_escaping (must : N -> bool) (s : jsstring)
    (chunks : list jsstring) :
  must backslash = true ->
  Forall (fun c => (c < 512)%N) s ->
  List.concat chunks = escapeOctal must s ->
  decodeTmuxData chunks = collapseBackslashes s
  /\ (noDoubledBackslash s = true -> decodeTmuxData chunks = s).
Proof.
  intros Hb Hs Hc.
  assert (decodeTmuxData chunks = collapseBackslashes s) as H.
  { unfold decodeTmuxData, joinChunks. by rewrite Hc, replaceOctal_escapeOctal. }
  split; [exact H|]. intros Hn. by rewrite H, collapseBackslashes_noDoubled.
Qed.

(** X20, witness: a line with a tab, a backslash and an escape character,
    cut in the middle of an escape. *)
Lemma decodeTmuxData_inverts_escaping_witness :
  decodeTmuxData [[97; 92; 48; 49]%N; [49; 98; 92; 49; 51; 52; 99]%N]
  = collapseBackslashes [97; 9; 98; 92; 99]%N.
Proof.
  refine (proj1 (decodeTmuxData_inverts_escaping
                   (fun c => (c <? 32)%N || (c =? 92)%N) [97; 9; 98; 92; 99]%N
                   [[97; 92; 48; 49]%N; [49; 98; 92; 49; 51; 52; 99]%N] _ _ _)).
  - reflexivity.
  - repeat constructor.
  - reflexivity.
Defined.

End DecodeMoreFacts.

(** * No command is lost *)

Section ConservationFacts.
Import Profile Control Wire Conservation.
Local Open Scope list_scope.

Lemma elem_inflightEntries st e :
  e ∈ inflightEntries st <-> exists tag, inflight st !! tag = Some e.
Proof.
  unfold inflightEntries. rewrite list_elem_of_fmap. split.
  - intros ([tag e'] & -> & Hin). exists tag. by apply elem_of_map_to_list.
  - intros (tag & Hin). exists (tag, e). split; [done|]. by apply elem_of_map_to_list.
Qed.

Lemma settle_mono id o (p : gmap nat Settled) j :
  is_Some (p !! j) -> is_Some (settle id o p !! j).
Proof.
  intros H. destruct (decide (j = id)) as [->|Hne]; [apply settle_settled|].
  by rewrite settle_other.
Qed.

(** After a reset every promise that was accounted for is settled. *)
Lemma reset_holds reason j st :
  holds j st -> is_Some (promises (resetControlQueues reason st) !! j).
Proof.
  intros Hj. rewrite resetControlQueues_promises.
  destruct (promises st !! j) eqn:Hp; [by eexists|].
  rewrite bool_decide_eq_true_2; [by eexists|].
  apply list_elem_of_fmap.
  destruct Hj as [(e & He & <-)|[(tag & e & He & <-)|Hs]].
  - exists e. split; [done|]. apply elem_of_app. by left.
  - exists e. split; [done|]. apply elem_of_app. right.
    apply elem_inflightEntries. by exists tag.
  - rewrite Hp in Hs. by destruct Hs.
Qed.

Lemma holds_settled j st : is_Some (promises st !! j) -> holds j st.
Proof. intros H. right. by right. Qed.

(** A step that changes neither queue nor promise keeps the account. *)
Lemma holds_same j st st' :
  pending st' = pending st -> inflight st' = inflight st ->
  promises st' = promises st -> holds j st -> holds j st'.
Proof. unfold holds. by intros -> -> ->. Qed.

Lemma handleControlLine_holds j line st :
  holds j st ->
  ~ (exists tag e e', inflight st !! tag = Some e
       /\ inflight (handleControlLine line st) !! tag = Some e'
       /\ entryId e' <> entryId e) ->
  holds j (handleControlLine line st).
Proof.
  intros Hj Hno. unfold handleControlLine in *.
  destruct (Js.startsWith line "%%begin ").
  { unfold handleBegin in *.
    destruct (Js.split Js.space line !! 1%nat) as [tag|]; [|done].
    destruct (pending st) as [|entry rest] eqn:Hp; [done|].
    destruct Hj as [(e & He & <-)|[(t & e & He & <-)|Hs]].
    - rewrite Hp in He. apply elem_of_cons in He as [->|He].
      + right. left. exists tag, entry. split; [apply lookup_insert_eq|done].
      + left. by exists e.
    - right. left. destruct (decide (t = tag)) as [->|Hne].
      + exists tag, entry. split; [apply lookup_insert_eq|].
        destruct (decide (entryId entry = entryId e)) as [Heq|Hneq]; [done|].
        exfalso. apply Hno. exists tag, e, entry.
        split; [done|]. split; [apply lookup_insert_eq|done].
      + exists t, e. split; [|done].
        cbn [withQueues inflight setPending setInflight setPromises].
        by rewrite lookup_insert_ne.
    - by apply holds_settled. }
  destruct (Js.startsWith line "%%data ").
  { unfold handleData in *.
    destruct (Js.indexOf Js.space (Js.sliceFrom 7 line)) as [i|]; [|done].
    destruct (inflight st !! Js.sliceTo i (Js.sliceFrom 7 line)) as [entry|] eqn:He;
      [|done].
    destruct Hj as [Hq|[(t & e & Hte & <-)|Hs]].
    - by left.
    - right. left.
      destruct (decide (t = Js.sliceTo i (Js.sliceFrom 7 line))) as [->|Hne].
      + eexists _, _. split; [apply lookup_insert_eq|]. cbn. congruence.
      + exists t, e. split; [|done].
        cbn [withQueues inflight setPending setInflight setPromises].
        by rewrite lookup_insert_ne.
    - by apply holds_settled. }
  destruct (Js.startsWith line "%%end ").
  { unfold handleEnd in *.
    destruct (Js.split Js.space line !! 1%nat) as [tag|]; [|done].
    destruct (inflight st !! tag) as [entry|] eqn:He; [|done].
    destruct Hj as [Hq|[(t & e & Hte & <-)|Hs]].
    - by left.
    - destruct (decide (t = tag)) as [->|Hne].
      + apply holds_settled.
        cbn [withQueues promises setPending setInflight setPromises].
        assert (e = entry) as -> by congruence. apply settle_settled.
      + right. left. exists t, e. split; [|done].
        cbn [withQueues inflight setPending setInflight setPromises].
        by rewrite lookup_delete_ne.
    - apply holds_settled.
      cbn [withQueues promises setPending setInflight setPromises].
      by apply settle_mono. }
  destruct (Js.startsWith line "%window-" || Js.startsWith line "%session-").
  { by destruct (controlRef st) as [[session p]|]. }
  destruct (Js.startsWith line "%output"); [|done].
  by destruct (isRemote (mode st)).
Qed.

Lemma reset_then_holds reason j st st' :
  promises st' = promises (resetControlQueues reason st) ->
  holds j st -> holds j st'.
Proof.
  intros Hpr Hj. apply holds_settled. rewrite Hpr. by apply reset_holds.
Qed.

Lemma sendControlCommand_holds j cmd st :
  holds j st -> holds j (sendControlCommand cmd st).2.
Proof.
  intros Hj. unfold sendControlCommand.
  destruct (match controlRef st, controlSessionKeyRef st with
            | Some c, Some k => if Js.truthy k then Some c else None
            | _, _ => None
            end) as [[session profile]|]; cbn [snd].
  - destruct Hj as [(e & He & <-)|[Hi|Hs]].
    + left. exists e. split; [|done]. apply elem_of_app. by left.
    + right. by left.
    + by apply holds_settled.
  - destruct Hj as [Hq|[Hi|Hs]].
    + by left.
    + right. by left.
    + apply holds_settled. by apply settle_mono.
Qed.

Lemma controlSendFailed_holds j id message st :
  holds j st -> holds j (controlSendFailed id message st).
Proof.
  intros Hj. unfold controlSendFailed.
  destruct (decide (j = id)) as [->|Hne].
  { apply holds_settled. apply settle_settled. }
  destruct Hj as [(e & He & <-)|[Hi|Hs]].
  - left. exists e. split; [|done]. by apply removeEntry_other.
  - right. by left.
  - apply holds_settled. by apply settle_mono.
Qed.

Lemma controlEventListener_holds j payload st :
  holds j st -> ~ overwrites st (EvControl payload) ->
  holds j (controlEventListener payload st).
Proof.
  intros Hj Hno. unfold overwrites in Hno. cbn [step] in Hno.
  unfold controlEventListener in *.
  destruct payload as [p|]; [|done].
  destruct (negb (bool_decide (Some (ev_key p) = controlSessionKeyRef st))); [done|].
  destruct (bool_decide (ev_kind p = "line")).
  { destruct (ev_line p) as [l|]; [|done]. destruct (Js.truthy l); [|done].
    by apply handleControlLine_holds. }
  destruct (bool_decide (ev_kind p = "started")).
  { by apply (reset_then_holds None j st). }
  destruct (bool_decide (ev_kind p = "stopped") || bool_decide (ev_kind p = "closed"));
    [|done].
  by apply (reset_then_holds (Some "control session stopped") j st).
Qed.

Lemma step_holds j st ev :
  holds j st -> ~ overwrites st ev -> holds j (step st ev).
Proof.
  intros Hj Hno. destruct ev as [s p|err| |cmd|id|id message|payload|m]; cbn [step].
  - by apply (reset_then_holds None j st).
  - exact Hj.
  - unfold stopControlSession.
    destruct (controlRef st) as [[session profile]|]; [|exact Hj].
    by apply (reset_then_holds None j st).
  - by apply sendControlCommand_holds.
  - exact Hj.
  - by apply controlSendFailed_holds.
  - by apply controlEventListener_holds.
  - exact Hj.
Qed.

Lemma handleControlLine_nextId line st :
  nextId (handleControlLine line st) = nextId st.
Proof.
  unfold handleControlLine, handleBegin, handleData, handleEnd.
  repeat (case_match; try done).
Qed.

(** Only [sendControlCommand] hands out a promise, and it accounts for
    it at once. *)
Lemma step_nextId st ev :
  nextId (step st ev) = nextId st
  \/ (nextId (step st ev) = S (nextId st) /\ holds (nextId st) (step st ev)).
Proof.
  destruct ev as [s p|err| |cmd|id|id message|payload|m]; cbn [step];
    try (by left).
  - left. unfold stopControlSession. by destruct (controlRef st) as [[? ?]|].
  - right. unfold sendControlCommand.
    destruct (match controlRef st, controlSessionKeyRef st with
              | Some c, Some k => if Js.truthy k then Some c else None
              | _, _ => None
              end) as [[session profile]|]; cbn [snd]; (split; [done|]).
    + left. eexists. split; [apply elem_of_app; right; apply list_elem_of_here|done].
    + apply holds_settled. apply settle_settled.
  - left. unfold controlEventListener.
    repeat (case_match; try done). apply handleControlLine_nextId.
Qed.

Lemma step_accounted st ev :
  accounted st -> ~ overwrites st ev -> accounted (step st ev).
Proof.
  intros Hacc Hno id Hid.
  destruct (step_nextId st ev) as [Hn|[Hn Hnew]].
  - rewrite Hn in Hid. apply step_holds; [by apply Hacc|done].
  - rewrite Hn in Hid. destruct (decide (id = nextId st)) as [->|Hne]; [done|].
    apply step_holds; [apply Hacc; lia|done].
Qed.

(** X22. No command is lost. Whatever happens to the control state from
    the start, as long as no [%%begin] line replaces an entry that is
    still in flight under its tag, every promise handed out by
    [sendControlCommand] is accounted for: its command is still queued
    or in flight, or the promise is settled. So once both queues are
    empty, every promise handed out has been settled. *)
Theorem no_command_lost (m : Mode) (events : list Event) :
  neverOverwrites (initial m) events ->
  let st := run (initial m) events in
  accounted st
  /\ (pending st = [] -> inflight st = ∅ ->
      forall id, (id < nextId st)%nat -> is_Some (promises st !! id)).
Proof.
  intros Hno. cbn zeta.
  assert (accounted (run (initial m) events)) as Hacc.
  { assert (accounted (initial m)) as H0 by (intros id Hid; cbn in Hid; lia).
    revert H0 Hno. generalize (initial m). induction events as [|ev events IH];
      intros st H0 Hno; [done|].
    destruct Hno as [Hev Hrest]. cbn [run foldl]. apply IH; [|done].
    by apply step_accounted. }
  split; [exact Hacc|]. intros Hp Hi id Hid.
  destruct (Hacc id Hid) as [(e & He & _)|[(tag & e & He & _)|Hs]]; [| |done].
  - rewrite Hp in He. by apply elem_of_nil in He.
  - rewrite Hi, lookup_empty in He. done.
Qed.

End ConservationFacts.

Section ConservationWitness.
Import Profile Control Wire Examples Conservation.
Local Open Scope list_scope.

(** X22, witness: one command, answered. *)
Lemma no_command_lost_witness :
  let st := run (initial (Remote opsProfile))
              [EvStart "arc" opsProfile; EvSend "list-windows -t arc";
               lineEvent arcKey (beginLine "7" None);
               lineEvent arcKey (endLine "7" "0")] in
  accounted st.
Proof.
  refine (proj1 (no_command_lost (Remote opsProfile)
              [EvStart "arc" opsProfile; EvSend "list-windows -t arc";
               lineEvent arcKey (beginLine "7" None);
               lineEvent arcKey (endLine "7" "0")] _)).
  cbn [neverOverwrites].
  repeat split; try (intros (tag & e & e' & H1 & H2 & H3); vm_compute in H1, H2;
                     discriminate).
Defined.

End ConservationWitness.

Section FifoGeneralWitness.
Import Profile Control Wire Examples Fifo.
Local Open Scope list_scope.

(** X21, witness: four commands issued on the connection of session
    [arc], answered under tags 3, 1, 4 and 2. *)
Lemma begins_match_issue_order_witness :
  let st' := run started ((EvSend <$> ["a"; "b"; "c"; "d"])
                          ++ beginEvents arcKey
                               [("3", None); ("1", Some "0"); ("4", None); ("2", None)]) in
  pending st' = []
  /\ inflight st' !! "4"
     = Some {| entryId := (nextId started + 2)%nat; command := "c"; data := [] |}.
Proof.
  destruct (begins_match_issue_order started "arc" opsProfile arcKey
              ["a"; "b"; "c"; "d"]
              [("3", None); ("1", Some "0"); ("4", None); ("2", None)]
              ltac:(vm_compute; reflexivity) ltac:(vm_compute; reflexivity)
              eq_refl ltac:(vm_compute; reflexivity)
              ltac:(repeat constructor)
              ltac:(apply (bool_decide_unpack _); vm_compute; exact I)
              eq_refl)
    as (H1 & H2).
  cbn zeta. split; [exact H1|]. exact (H2 2%nat "4" "c" eq_refl eq_refl).
Defined.

End FifoGeneralWitness.

(** * The remote password and its listeners *)

Section RemoteSecretsFacts.
Import RemoteSecrets.
Local Open Scope list_scope.

Lemma setAdd_NoDup fn s : NoDup s -> NoDup (setAdd fn s).
Proof.
  intros H. unfold setAdd. case_bool_decide as Hin; [done|].
  apply NoDup_app. split; [done|]. split; [|apply NoDup_singleton].
  intros x Hx Hx'. apply list_elem_of_singleton in Hx'. by subst.
Qed.

Lemma elem_setAdd fn g s : g ∈ setAdd fn s <-> g = fn \/ g ∈ s.
Proof.
  unfold setAdd. case_bool_decide as Hin.
  - split; [by right|]. by intros [->|?].
  - rewrite elem_of_app, list_elem_of_singleton. tauto.
Qed.

Lemma elem_setDelete fn g s : g ∈ setDelete fn s <-> g <> fn /\ g ∈ s.
Proof. unfold setDelete. by rewrite list_elem_of_filter. Qed.

Lemma notified_once fn pw s :
  NoDup s ->
  (filter (fun c : nat * string => c.1 = fn) ((fun g => (g, pw)) <$> s)).*2
  = if bool_decide (fn ∈ s) then [pw] else [].
Proof.
  induction 1 as [|g s Hg Hnd IH]; [done|]. cbn [fmap list_fmap].
  rewrite filter_cons. cbn [fst]. destruct (decide (g = fn)) as [->|Hne].
  - rewrite (bool_decide_eq_true_2 (fn ∈ fn :: s)) by apply list_elem_of_here.
    cbn [fmap list_fmap snd]. rewrite IH.
    by rewrite (bool_decide_eq_false_2 (fn ∈ s)).
  - rewrite IH. apply (f_equal (fun b : bool => if b then _ else _)).
    apply bool_decide_ext. rewrite elem_of_cons. split; [by right|].
    intros [->|?]; done.
Qed.

(** The state after the operations agrees, for each listener, with what
    the operations say. *)
Lemma run_tracks fn ops :
  let st := run initial ops in
  let acc := foldl (fun (acc : bool * list string) op =>
               match op with
               | Subscribe g => if bool_decide (g = fn) then (true, acc.2) else acc
               | Unsubscribe g => if bool_decide (g = fn) then (false, acc.2) else acc
               | SetPassword pw => if acc.1 then (acc.1, acc.2 ++ [pw]) else acc
               end) (false, []) ops in
  NoDup (subs st)
  /\ (fn ∈ subs st <-> acc.1 = true)
  /\ heard fn st = acc.2
  /\ acc.1 = subscribedAfter fn ops
  /\ current st = lastSet ops.
Proof.
  induction ops as [|op ops IH] using rev_ind.
  - cbn. split; [constructor|]. split; [|done]. split; [|done].
    by intros H%elem_of_nil.
  - cbn zeta in *. unfold run, subscribedAfter, lastSet in *.
    rewrite !foldl_app. cbn [foldl].
    destruct IH as (Hnd & Hin & Hh & Hb & Hc).
    set (st := foldl step initial ops) in *.
    set (acc := foldl _ (false, []) ops) in *.
    clearbody st acc. destruct acc as [b heardSoFar]. cbn [fst snd] in *.
    destruct op as [pw|g|g]; cbn [step].
    + assert (heard fn (setRemotePassword pw st)
              = heardSoFar ++ (if bool_decide (fn ∈ subs st) then [pw] else []))
        as Hheard.
      { unfold heard, setRemotePassword. cbn [calls subs].
        rewrite filter_app, fmap_app, notified_once by done.
        by rewrite <- Hh. }
      split; [exact Hnd|]. destruct b; cbn [fst snd].
      * split; [exact Hin|]. rewrite Hheard.
        rewrite bool_decide_eq_true_2 by (by apply Hin). done.
      * split; [exact Hin|]. rewrite Hheard.
        rewrite bool_decide_eq_false_2; [by rewrite app_nil_r|].
        intros H. apply Hin in H. congruence.
    + split; [by apply setAdd_NoDup|].
      cbn [onRemotePasswordChange subs current]. rewrite elem_setAdd.
      unfold heard. cbn [calls].
      destruct (decide (g = fn)) as [->|Hne].
      * rewrite !bool_decide_eq_true_2 by done. cbn [fst snd].
        split; [split; [done|by left]|]. done.
      * rewrite !bool_decide_eq_false_2 by done. cbn [fst snd].
        split; [|done]. rewrite <- Hin. split; [|by right].
        intros [->|?]; done.
    + split; [by apply NoDup_filter|].
      cbn [unsubscribe subs current]. rewrite elem_setDelete.
      unfold heard. cbn [calls].
      destruct (decide (g = fn)) as [->|Hne].
      * rewrite !bool_decide_eq_true_2 by done. cbn [fst snd].
        split; [split; [by intros [? _]|done]|]. done.
      * rewrite !bool_decide_eq_false_2 by done. cbn [fst snd].
        split; [|done]. rewrite <- Hin. split; [by intros [_ ?]|].
        intros H. split; [|done]. intros ->. done.
Qed.

(** X23. For any sequence of password changes, subscriptions and
    unsubscriptions: [getRemotePassword] returns the last password set
    (the empty string when none was); a listener is subscribed exactly
    when its last subscription is not followed by an unsubscription of
    it, however often it subscribed; and it has been called exactly with
    the passwords set while it was subscribed, once each and in order. *)
Theorem listeners_hear_what_is_set (fn : nat) (ops : list Op) :
  let st := run initial ops in
  getRemotePassword st = lastSet ops
  /\ (fn ∈ subs st <-> subscribedAfter fn ops = true)
  /\ heard fn st = setWhileSubscribed fn ops
  /\ NoDup (subs st).
Proof.
  destruct (run_tracks fn ops) as (Hnd & Hin & Hh & Hb & Hc). cbn zeta.
  split; [exact Hc|]. split; [by rewrite <- Hb|]. split; [exact Hh|exact Hnd].
Qed.

End RemoteSecretsFacts.

(** * The pane poller *)

Section PollFacts.
Import Profile WindowCache Windows SessionLoad WindowsLoad Poll.
Local Open Scope list_scope.

(** X24. A poll tick whose effect was cancelled while the calls were
    pending changes nothing. Otherwise, when both calls succeed, the
    normalised list and the pane text (a blank when empty) are shown, the
    pane text is cached under the key of the polled target after the
    pruning, so that entry is there even when the target is no longer
    listed, and every other pane entry of the session belongs to a listed
    window. The selection refs follow the target's index when it is
    still listed and move to the first window when it is not; with an
    empty list the selection is left as it was. *)
Theorem poll_tick_result (mode : Mode) (session : string) (i : Z)
    (idTarget : option string) (r : Outcome (list TmuxWindow * string))
    (list : list TmuxWindow) (pane : string) (st : State) :
  let key := paneKeyFromParts mode session i idTarget None in
  let done := tickAfter mode session i idTarget false (Fulfilled (list, pane)) st in
  let normalized := (normalizeWindows mode session list (nameCache st)).1 in
  tickAfter mode session i idTarget true r st = (st, KeepMsg)
  /\ done.2 = ClearRemoteWarning
  /\ windows done.1 = normalized
  /\ paneText done.1 = orBlank pane
  /\ paneCache done.1 !! key = Some (orBlank pane)
  /\ (forall k, is_Some (paneCache done.1 !! k) ->
        Js.startsWith k (sessionPrefix (cacheScope mode None) session) = true ->
        k = key \/ exists w, w ∈ normalized /\ k = cacheKeyFor mode session w None)
  /\ match normalized with
     | [] => activeWinRef done.1 = activeWinRef st
             /\ activeWinIdRef done.1 = activeWinIdRef st
             /\ activeWin done.1 = activeWin st
     | first :: _ =>
         if bool_decide (i ∈ index <$> normalized)
         then exists w, w ∈ normalized /\ index w = i
                /\ activeWinRef done.1 = Some i /\ activeWinIdRef done.1 = id w
                /\ activeWin done.1 = activeWin st
         else activeWinRef done.1 = Some (index first)
              /\ activeWinIdRef done.1 = id first
              /\ activeWin done.1 = Some (index first)
     end.
Proof.
  cbn zeta. split; [by destruct r as [[? ?]|?]|].
  unfold tickAfter.
  destruct (normalizeWindows mode session list (nameCache st)) as [normalized names].
  cbn [fst snd].
  set (key := paneKeyFromParts mode session i idTarget None).
  set (pruned := pruneWindowCache _ _ _ _).
  assert (forall k, is_Some (<[key := orBlank pane]> pruned !! k) ->
            Js.startsWith k (sessionPrefix (cacheScope mode None) session) = true ->
            k = key \/ exists w, w ∈ normalized /\ k = cacheKeyFor mode session w None)
    as Hprune.
  { intros k Hsome Hpre. destruct (decide (k = key)) as [->|Hne]; [by left|]. right.
    rewrite lookup_insert_ne in Hsome by done. unfold pruned in Hsome.
    rewrite pruneWindowCache_lookup, Hpre in Hsome.
    cbn [andb] in Hsome. case_bool_decide as Hin; [|by destruct Hsome].
    apply keepSet_elem in Hin as (cw & Hcw & ->).
    apply list_elem_of_fmap in Hcw as (w & -> & Hw). by exists w. }
  destruct normalized as [|first rest].
  { split; [done|]. split; [done|]. split; [done|].
    split; [apply lookup_insert_eq|]. split; [exact Hprune|done]. }
  destruct (listsIndex (first :: rest) i) eqn:Hl; cbn [negb].
  - rewrite (bool_decide_eq_true_2 (i ∈ _)) by (by apply listsIndex_elem).
    destruct (List.find (fun w => bool_decide (index w = i)) (first :: rest))
      as [current|] eqn:Hf.
    + apply find_some in Hf as [Hin Hi]. apply bool_decide_eq_true_1 in Hi.
      split; [done|]. split; [done|]. split; [done|].
      split; [apply lookup_insert_eq|]. split; [exact Hprune|].
      exists current. split; [by apply list_elem_of_In|]. split; [done|].
      cbn. by rewrite Hi.
    + exfalso. apply existsb_exists in Hl as (w & Hin & Hw).
      by rewrite (find_none _ _ Hf w Hin) in Hw.
  - rewrite (bool_decide_eq_false_2 (i ∈ _)).
    2:{ intros Hin. apply listsIndex_elem in Hin. congruence. }
    split; [done|]. split; [done|]. split; [done|].
    split; [apply lookup_insert_eq|]. split; [exact Hprune|done].
Qed.

End PollFacts.

(** * [selectSession] *)

Section SelectFacts.
Import Profile Windows Select.
Local Open Scope list_scope.





End SelectFacts.

(** * Normalising a normalised list *)

Section FixedFacts.
Import Profile WindowCache Windows Merge MergeTrace MergeFold Fixed.
Local Open Scope list_scope.

Lemma candidateOf_candidate w n n' :
  candidateOf (candidateOf w n) n' = candidateOf w n'.
Proof.
  unfold candidateOf at 1. rewrite trimmedIdOf_candidate.
  unfold candidateOf. cbn [index id active panes].
  by destruct (Js.truthy (trimmedIdOf w)).
Qed.

Lemma cacheKeyFor_candidate mode s w n o :
  cacheKeyFor mode s (candidateOf w n) o = cacheKeyFor mode s w o.
Proof. by rewrite !cacheKeyFor_identityKey, identityKey_candidate. Qed.

Lemma cacheKeyFor_ne mode s r w o :
  identityKey r <> identityKey w -> cacheKeyFor mode s r o <> cacheKeyFor mode s w o.
Proof.
  intros Hne Heq. rewrite !cacheKeyFor_identityKey in Heq.
  by apply app_cancel_l in Heq.
Qed.

Lemma truthy_false s : Js.truthy s = false -> s = EmptyString.
Proof. by destruct s. Qed.

Lemma truthy_length s : Js.truthy s = true <-> (0 < String.length s)%nat.
Proof. destruct s; cbn; split; try done; lia. Qed.

Lemma fixedRow_candidate mode s w names :
  trimmedNames names ->
  fixedRow mode s (resolveName (cacheKeyFor mode s w None) w names).2
           (candidateOf w (resolveName (cacheKeyFor mode s w None) w names).1).
Proof.
  intros Htrim. split; [|split].
  - by rewrite candidateOf_candidate.
  - cbn [candidateOf name]. apply resolveName_trimmed. apply Htrim.
  - cbn [candidateOf name]. rewrite cacheKeyFor_candidate. unfold resolveName.
    destruct (Js.truthy (Js.trim (name w))) eqn:Ht; cbn [fst snd]; [congruence|].
    destruct (names !! cacheKeyFor mode s w None) as [cached|] eqn:Hn.
    + destruct (Js.truthy cached) eqn:Hc; cbn [fst snd]; [congruence|].
      intros _ c. rewrite Hn. by intros [= <-].
    + cbn [fst snd]. intros _ c. by rewrite Hn.
Qed.

Lemma fixedRow_insert mode s names r ck v :
  cacheKeyFor mode s r None <> ck ->
  fixedRow mode s names r -> fixedRow mode s (<[ck := v]> names) r.
Proof.
  intros Hne (H1 & H2 & H3). split; [done|]. split; [done|].
  intros Hf c. rewrite lookup_insert_ne by done. by apply H3.
Qed.

Lemma fixedRow_truthy mode s names names' r :
  Js.truthy (name r) = true -> fixedRow mode s names r -> fixedRow mode s names' r.
Proof.
  intros Ht (H1 & H2 & _). split; [done|]. split; [done|]. congruence.
Qed.

Lemma mapSet_absent key v (m : ordmap) :
  key ∉ m.*1 -> mapSet key v m = m ++ [(key, v)].
Proof.
  induction m as [|[k x] m IH]; cbn [mapSet fmap list_fmap fst]; [done|].
  intros Hn. apply not_elem_of_cons in Hn as [Hne Hn].
  rewrite bool_decide_eq_false_2 by done. by rewrite IH.
Qed.

Lemma mapSet_Forall_other (P : string * TmuxWindow -> Prop) key v (m : ordmap) :
  NoDup m.*1 -> P (key, v) ->
  Forall (fun kv => kv.1 <> key -> P kv) m -> Forall P (mapSet key v m).
Proof.
  intros Hnd Hv. induction m as [|[k x] m IH]; cbn [mapSet]; intros Hm.
  - by constructor.
  - cbn [fmap list_fmap fst] in Hnd. apply NoDup_cons in Hnd as [Hk Hnd].
    apply Forall_cons in Hm as [Hx Hm].
    destruct (decide (k = key)) as [->|Hne].
    + rewrite bool_decide_eq_true_2 by done. constructor; [done|].
      apply Forall_forall. intros [k' x'] Hin.
      apply (proj1 (Forall_forall _ _) Hm _ Hin). cbn [fst]. intros ->.
      apply Hk. apply list_elem_of_fmap. by exists (key, x').
    + rewrite bool_decide_eq_false_2 by done. constructor; [by apply Hx|].
      by apply IH.
Qed.

(** One row of the loop keeps every row of the local map fixed with
    respect to the name cache the row leaves. *)
Lemma normalizeRow_fixed mode s seen byKey names w :
  grouped seen byKey -> trimmedNames names ->
  Forall (fun kv => fixedRow mode s names kv.2) byKey ->
  Forall (fun kv => fixedRow mode s (normalizeRow mode s (byKey, names) w).2 kv.2)
         (normalizeRow mode s (byKey, names) w).1.
Proof.
  intros (Hnd & _ & Hkeys) Htrim Hfix.
  pose proof (fixedRow_candidate mode s w names Htrim) as Hcand.
  unfold normalizeRow. unfold resolveName in *.
  set (ck := cacheKeyFor mode s w None) in *.
  destruct (Js.truthy (Js.trim (name w))) eqn:Ht; cbn [fst snd] in *.
  - (* the name is stored; the candidate has a non-empty name *)
    assert (Forall (fun kv : string * TmuxWindow =>
                      kv.1 <> identityKey w ->
                      fixedRow mode s (<[ck := Js.trim (name w)]> names) kv.2) byKey)
      as Hothers.
    { apply Forall_forall. intros [k r] Hin Hne. cbn [fst snd] in *.
      pose proof (proj1 (Forall_forall _ _) Hkeys _ Hin) as Hk.
      pose proof (proj1 (Forall_forall _ _) Hfix _ Hin) as Hr. cbn [fst snd] in *.
      apply fixedRow_insert; [|done]. apply cacheKeyFor_ne. congruence. }
    destruct (mapGet (identityKey w) byKey) as [existing|] eqn:Hget.
    + destruct (useCandidate _ existing) eqn:Huse; cbn [fst snd].
      * by apply mapSet_Forall_other.
      * apply Forall_forall. intros [k r] Hin. cbn [snd].
        destruct (decide (k = identityKey w)) as [->|Hne].
        -- pose proof (proj1 (Forall_forall _ _) Hfix _ Hin) as Hr. cbn [snd] in Hr.
           assert (r = existing) as ->.
           { clear -Hnd Hin Hget. induction byKey as [|[k' x] m IH]; [by apply elem_of_nil in Hin|].
             cbn [mapGet fmap list_fmap fst] in *. apply NoDup_cons in Hnd as [Hk Hnd].
             apply elem_of_cons in Hin as [[= <- <-]|Hin].
             - rewrite bool_decide_eq_true_2 in Hget by done. congruence.
             - destruct (decide (k' = identityKey w)) as [->|Hne].
               + exfalso. apply Hk. apply list_elem_of_fmap. by exists (identityKey w, r).
               + rewrite bool_decide_eq_false_2 in Hget by done. by apply IH. }
           apply (fixedRow_truthy mode s names); [|done].
           apply truthy_length. unfold useCandidate in Huse.
           cbn [candidateOf name] in Huse.
           destruct Hr as (_ & Hr2 & _). rewrite Hr2 in Huse.
           apply orb_false_iff in Huse as [Hlt _]. apply Nat.ltb_ge in Hlt.
           apply truthy_length in Ht. lia.
        -- apply (proj1 (Forall_forall _ _) Hothers (k, r) Hin). done.
    + cbn [fst snd]. by apply mapSet_Forall_other.
  - (* the cache is left as it is *)
    assert (Forall (fun kv : string * TmuxWindow =>
                      kv.1 <> identityKey w -> fixedRow mode s names kv.2) byKey)
      as Hothers.
    { eapply Forall_impl; [exact Hfix|]. by intros kv H _. }
    destruct (names !! ck) as [cached|] eqn:Hn.
    + destruct (Js.truthy cached) eqn:Hc; cbn [fst snd] in *;
        (destruct (mapGet (identityKey w) byKey) as [existing|];
         [destruct (useCandidate _ existing); cbn [fst snd];
          [by apply mapSet_Forall_other|done]
         |cbn [fst snd]; by apply mapSet_Forall_other]).
    + cbn [fst snd] in *.
      destruct (mapGet (identityKey w) byKey) as [existing|];
        [destruct (useCandidate _ existing); cbn [fst snd];
         [by apply mapSet_Forall_other|done]
        |cbn [fst snd]; by apply mapSet_Forall_other].
Qed.

Lemma foldl_normalizeRow_fixed mode s ws seen byKey names :
  grouped seen byKey -> trimmedNames names ->
  Forall (fun kv => fixedRow mode s names kv.2) byKey ->
  Forall (fun kv => fixedRow mode s (foldl (normalizeRow mode s) (byKey, names) ws).2 kv.2)
         (foldl (normalizeRow mode s) (byKey, names) ws).1.
Proof.
  revert seen byKey names.
  induction ws as [|w ws IH]; intros seen byKey names Hg Htrim Hfix; [done|].
  cbn [foldl].
  pose proof (normalizeRow_fixed mode s seen byKey names w Hg Htrim Hfix) as Hstep.
  pose proof (normalizeRow_grouped mode s seen byKey names w Hg) as Hg'.
  pose proof (normalizeRow_names mode s byKey names w) as Hn.
  destruct (normalizeRow mode s (byKey, names) w) as [byKey' names'].
  cbn [fst snd] in *. apply (IH (seen ++ [w])); [done| |done].
  rewrite Hn. by apply trimmedNames_after.
Qed.

(** A list of fixed rows with pairwise distinct identity keys goes
    through the loop unchanged. *)
Lemma foldl_normalizeRow_of_fixed mode s l acc names :
  NoDup (identityKey <$> l) ->
  (forall r, r ∈ l -> identityKey r ∉ acc.*1) ->
  Forall (fixedRow mode s names) l ->
  (foldl (normalizeRow mode s) (acc, names) l).1
  = acc ++ ((fun r => (identityKey r, r)) <$> l).
Proof.
  revert acc names. induction l as [|r l IH]; intros acc names Hnd Hacc Hfix.
  { cbn. by rewrite app_nil_r. }
  cbn [fmap list_fmap] in Hnd. apply NoDup_cons in Hnd as [Hr Hnd].
  apply Forall_cons in Hfix as [(Hr1 & Hr2 & Hr3) Hfix].
  cbn [foldl]. unfold normalizeRow at 2. unfold resolveName. rewrite Hr2.
  assert (mapGet (identityKey r) acc = None) as ->.
  { apply mapGet_None. apply Hacc. apply list_elem_of_here. }
  assert (forall r', r' ∈ l -> identityKey r' ∉ (acc ++ [(identityKey r, r)]).*1) as Hacc'.
  { intros r' Hin. rewrite fmap_app, elem_of_app. cbn [fmap list_fmap fst].
    rewrite list_elem_of_singleton. intros [Hin'|Heq].
    - by apply (Hacc r'); [apply list_elem_of_further|].
    - apply Hr. rewrite <- Heq. apply list_elem_of_fmap. by exists r'. }
  assert (mapSet (identityKey r) r acc = acc ++ [(identityKey r, r)]) as Hset.
  { apply mapSet_absent. apply Hacc. apply list_elem_of_here. }
  destruct (Js.truthy (name r)) eqn:Ht.
  - rewrite Hr1, Hset. rewrite IH; [by rewrite <- app_assoc|done|done|].
    apply Forall_forall. intros r' Hin.
    apply fixedRow_insert; [|by apply (proj1 (Forall_forall _ _) Hfix)].
    apply cacheKeyFor_ne. intros Heq. apply Hr. rewrite <- Heq.
    apply list_elem_of_fmap. by exists r'.
  - assert ((match names !! cacheKeyFor mode s r None with
             | Some cached => if Js.truthy cached then (cached, names) else (name r, names)
             | None => (name r, names)
             end) = (name r, names)) as ->.
    { destruct (names !! cacheKeyFor mode s r None) as [c|] eqn:Hc; [|done].
      by rewrite (Hr3 eq_refl c eq_refl). }
    rewrite Hr1, Hset. rewrite IH; [by rewrite <- app_assoc|done|done|done].
Qed.

Lemma sortByIndex_of_sorted l : StronglySorted byIndex l -> sortByIndex l = l.
Proof.
  induction 1 as [|x l Hl IH Hx]; [done|].
  change (sortByIndex (x :: l)) with (insertByIndex x (sortByIndex l)). rewrite IH.
  destruct l as [|y l']; [done|]. cbn [insertByIndex].
  apply Forall_cons in Hx as [Hxy _]. unfold byIndex in Hxy.
  by rewrite (proj2 (Z.leb_le _ _) Hxy).
Qed.

Lemma groupRows_fixed mode s ws names :
  trimmedNames names ->
  Forall (fun kv => fixedRow mode s (groupRows mode s ws names).2 kv.2)
         (groupRows mode s ws names).1.
Proof.
  intros Htrim. unfold groupRows.
  apply (foldl_normalizeRow_fixed mode s ws [] [] names); [|done|constructor].
  split; [apply NoDup_nil_2|]. split; [done|constructor].
Qed.

Lemma groupRows_of_fixed mode s l names :
  NoDup (identityKey <$> l) -> Forall (fixedRow mode s names) l ->
  (groupRows mode s l names).1 = (fun r => (identityKey r, r)) <$> l.
Proof.
  intros Hnd Hfix. unfold groupRows.
  rewrite (foldl_normalizeRow_of_fixed mode s l [] names); [done|done| |done].
  by intros ? _ ?%elem_of_nil.
Qed.

(** X26. Normalising is idempotent on the list: when every cached name
    is trimmed, the list [normalizeWindows] returns, given back to it
    together with the name cache it left, comes out unchanged. *)
Theorem normalizeWindows_idempotent (mode : Mode) (s : string)
    (ws : list TmuxWindow) (names : gmap string string) :
  trimmedNames names ->
  let first := normalizeWindows mode s ws names in
  (normalizeWindows mode s first.1 first.2).1 = first.1
  /\ Forall (fixedRow mode s first.2) first.1.
Proof.
  intros Htrim. cbn zeta.
  assert (Forall (fixedRow mode s (normalizeWindows mode s ws names).2)
                 (normalizeWindows mode s ws names).1) as Hfix.
  { pose proof (groupRows_fixed mode s ws names Htrim) as H.
    unfold normalizeWindows.
    destruct (groupRows mode s ws names) as [byKey names'].
    cbn [fst snd] in *. rewrite sortByIndex_perm.
    apply Forall_fmap. exact H. }
  split; [|exact Hfix].
  assert (NoDup (identityKey <$> (normalizeWindows mode s ws names).1)) as Hnd.
  { rewrite normalizeWindows_keys. apply (groupRows_grouped mode s ws names). }
  assert (StronglySorted byIndex (normalizeWindows mode s ws names).1) as Hsorted.
  { unfold normalizeWindows. destruct (groupRows mode s ws names).
    apply sortByIndex_sorted. }
  destruct (normalizeWindows mode s ws names) as [out names'].
  cbn [fst snd] in *. unfold normalizeWindows.
  pose proof (groupRows_of_fixed mode s out names' Hnd Hfix) as H.
  destruct (groupRows mode s out names') as [byKey names''].
  cbn [fst snd] in *. subst byKey.
  assert (((fun r => (identityKey r, r)) <$> out).*2 = out) as ->.
  { clear. induction out as [|r out IH]; [done|].
    cbn [fmap list_fmap snd] in *. by rewrite IH. }
  by apply sortByIndex_of_sorted.
Qed.

End FixedFacts.

Section FixedWitness.
Import Profile WindowCache Windows Merge MergeTrace MergeFold Fixed.
Local Open Scope list_scope.

(** X26, witness: two reports of window [@1], one of them unnamed, and a
    window without an id. *)
Lemma normalizeWindows_idempotent_witness :
  let ws := [ {| index := 2; id := None; name := " logs "; active := false; panes := 1 |};
              {| index := 0; id := Some " @1"; name := EmptyString; active := true; panes := 1 |};
              {| index := 0; id := Some "@1"; name := "shell"; active := false; panes := 2 |} ] in
  let first := normalizeWindows Local "arc" ws ∅ in
  (normalizeWindows Local "arc" first.1 first.2).1 = first.1.
Proof.
  refine (proj1 (normalizeWindows_idempotent Local "arc" _ ∅ _)).
  intros k v Hk. by rewrite lookup_empty in Hk.
Defined.

End FixedWitness.

(** * What a line can change *)

Section LineFrameFacts.
Import Profile Control Wire.
Local Open Scope list_scope.

Lemma startsWith_percent line rest :
  Js.startsWith line "%" = false -> Js.startsWith line (String "%"%char rest) = false.
Proof.
  destruct line as [|c line]; [done|]. cbn [Js.startsWith].
  destruct (bool_decide ("%"%char = c)); [done|]. done.
Qed.

(** X27. A line of the control channel never touches the lifecycle of
    the connection (mode, keys, the connection record, the disconnected
    and started flags, the status line) and hands out no promise. It
    either works on the queues or schedules refreshes, never both; only
    a [%%end] line settles a promise; and a line that does not start
    with a percent sign changes nothing at all. *)
Theorem line_changes_only_queues (line : string) (st : State) :
  let st' := handleControlLine line st in
  (mode st' = mode st /\ controlSessionKey st' = controlSessionKey st
   /\ controlDisconnected st' = controlDisconnected st /\ msg st' = msg st
   /\ controlRef st' = controlRef st
   /\ controlSessionKeyRef st' = controlSessionKeyRef st
   /\ controlStartedRef st' = controlStartedRef st /\ nextId st' = nextId st)
  /\ (effects st' = effects st
      \/ (pending st' = pending st /\ inflight st' = inflight st
          /\ promises st' = promises st))
  /\ (Js.startsWith line "%%end " = false -> promises st' = promises st)
  /\ (Js.startsWith line "%" = false -> st' = st).
Proof.
  cbn zeta. split; [|split; [|split]].
  - unfold handleControlLine, handleBegin, handleData, handleEnd.
    repeat (case_match; try done).
  - unfold handleControlLine, handleBegin, handleData, handleEnd.
    repeat (case_match; try (by left); try (by right)).
  - intros Hend. unfold handleControlLine. rewrite Hend.
    unfold handleBegin, handleData. repeat (case_match; try done).
  - intros Hp. unfold handleControlLine.
    rewrite !startsWith_percent by done. done.
Qed.

End LineFrameFacts.

(** * Sessions do not share cache entries *)

Section IsolationFacts.
Import Profile WindowCache WindowCacheRename Windows Forget.
Local Open Scope list_scope.

(** X28. When a session is killed, its entries leave the name, pane and
    window-list caches, and the entries of every other session of the
    scope stay, provided neither name contains a slash; the same holds
    for pruning one session's pane entries. A session whose name is the
    killed name followed by a slash and more text loses its name and
    pane entries as well. *)
Theorem sessions_are_isolated (scope a b rest : string) (W : list CacheWindow)
    (nameCache paneCache : gmap string string)
    (windowsCache : gmap string (list TmuxWindow)) :
  slashFree a -> slashFree b -> a <> b ->
  let '(names', panes', windows') :=
    forgetSession scope a nameCache paneCache windowsCache in
  (forall r, names' !! (sessionPrefix scope a +:+ r) = None
             /\ panes' !! (sessionPrefix scope a +:+ r) = None)
  /\ windows' !! sessionCacheKeyForScope scope a = None
  /\ (forall r, names' !! (sessionPrefix scope b +:+ r)
                = nameCache !! (sessionPrefix scope b +:+ r)
             /\ panes' !! (sessionPrefix scope b +:+ r)
                = paneCache !! (sessionPrefix scope b +:+ r)
             /\ pruneWindowCache paneCache scope a W !! (sessionPrefix scope b +:+ r)
                = paneCache !! (sessionPrefix scope b +:+ r))
  /\ windows' !! sessionCacheKeyForScope scope b
     = windowsCache !! sessionCacheKeyForScope scope b
  /\ (forall r, panes' !! (sessionPrefix scope (a +:+ "/" +:+ rest) +:+ r) = None).
Proof.
  intros Ha Hb Hne. unfold forgetSession.
  assert (forall r, Js.startsWith (sessionPrefix scope b +:+ r) (sessionPrefix scope a)
                    = false) as Hother.
  { intros r. apply (sessionPrefix_disjoint scope b a); [done|done|done|].
    apply startsWith_app. }
  split; [|split; [|split; [|split]]].
  - intros r. by rewrite !clearWindowCacheForSession_lookup, !startsWith_app.
  - apply lookup_delete_eq.
  - intros r. rewrite !clearWindowCacheForSession_lookup, pruneWindowCache_lookup.
    by rewrite !Hother.
  - rewrite lookup_delete_ne; [done|].
    intros Heq. by apply sessionCacheKeyForScope_inj in Heq.
  - intros r. rewrite clearWindowCacheForSession_lookup.
    assert (Js.startsWith (sessionPrefix scope (a +:+ "/" +:+ rest) +:+ r)
                          (sessionPrefix scope a) = true) as ->; [|done].
    apply startsWith_iff. exists (rest +:+ "/" +:+ r).
    unfold sessionPrefix. by rewrite !app_assoc_str.
Qed.

End IsolationFacts.

Section IsolationWitness.
Import Profile WindowCache WindowCacheRename Windows Forget.
Local Open Scope list_scope.

(** X28, witness: sessions [arc] and [docs]; [arc] is killed. *)
Lemma sessions_are_isolated_witness :
  let '(names', panes', windows') :=
    forgetSession "local" "arc" ∅
      (<["local/arc/idx:0" := "a"]> (<["local/docs/idx:0" := "d"]> ∅)) ∅ in
  windows' !! sessionCacheKeyForScope "local" "arc" = None.
Proof.
  exact (proj1 (proj2 (sessions_are_isolated "local" "arc" "docs" "x" [] ∅
           (<["local/arc/idx:0" := "a"]> (<["local/docs/idx:0" := "d"]> ∅)) ∅
           eq_refl eq_refl ltac:(discriminate)))).
Defined.

End IsolationWitness.

(** * What a superseded load can still do *)

Section SupersededFacts.
Import Profile Windows SessionLoad.
Local Open Scope list_scope.

Lemma supersede_token st :
  remoteSessionToken (supersede st) = (remoteSessionToken st + 1)%Z.
Proof. reflexivity. Qed.

(** X29. Once the token has advanced past a load, the load stays
    superseded however often the token advances, and in any state with
    a newer token all it can still change is the pane cache entry of its
    preferred window, written when its pane arrives: a late window list
    and late failures change nothing, and a late pane changes no
    displayed state, no selection, no other cache and no flag. *)
Theorem superseded_load_only_caches (c : Ctx) (later : State)
    (normalized : list TmuxWindow) (preferred : TmuxWindow)
    (r1 : Outcome (list TmuxWindow)) (r2 : Outcome string) :
  (token c < remoteSessionToken later)%Z ->
  let st' := afterPane c normalized preferred r2 later in
  stale c later = true
  /\ (forall n, stale c (Nat.iter n supersede later) = true)
  /\ afterWindows c r1 later = Finished later
  /\ st' = setPaneCache (paneCache st') later
  /\ paneCache st' =
       match r2 with
       | Fulfilled pane => <[paneKey c preferred := orBlank pane]> (paneCache later)
       | Failed _ => paneCache later
       end.
Proof.
  intros Hlt. cbn zeta.
  assert (forall st, (token c < remoteSessionToken st)%Z -> stale c st = true) as Hold.
  { intros st H. unfold stale. rewrite bool_decide_eq_false_2; [done|]. lia. }
  pose proof (Hold later Hlt) as Hstale.
  split; [exact Hstale|]. split.
  { intros n. apply Hold. induction n as [|n IH]; [done|].
    change (Nat.iter (S n) supersede later)
      with (supersede (Nat.iter n supersede later)).
    rewrite supersede_token. lia. }
  split; [by apply afterWindows_stale|].
  destruct r2 as [pane|raw].
  - rewrite afterPane_fulfilled_stale by done. split; [|done]. by destruct later.
  - rewrite afterPane_failed_stale by done. split; [|done]. by destruct later.
Qed.

End SupersededFacts.

Section SupersededWitness.
Import Profile Windows SessionLoad LoadExample.
Local Open Scope list_scope.

(** X29, witness: the load of [arc] with token 1 after another
    selection has taken token 2. *)
Lemma superseded_load_only_caches_witness :
  stale ctx superseded = true
  /\ afterWindows ctx (Fulfilled [shell]) superseded = Finished superseded.
Proof.
  destruct (superseded_load_only_caches ctx superseded [shell] shell
              (Fulfilled [shell]) (Fulfilled "output") eq_refl)
    as (H1 & _ & H3 & _).
  split; [exact H1|exact H3].
Defined.

End SupersededWitness.

(** * Pruning against a window list *)

Section PruneListedFacts.
Import WindowCache.
Context {T : Type}.
Implicit Types (cache : gmap string T) (key : string).

(** X3. For every cache, scope, session and window list: pruning keeps
    the entry of every listed window as it was, every key it leaves
    under [scope/session/] is the key of a listed window, it adds or
    changes no entry, and pruning again against the same list changes
    nothing. *)
Theorem pruneWindowCache_keeps_listed cache scope session (W : list CacheWindow) :
  let pruned := pruneWindowCache cache scope session W in
  (forall w, w ∈ W ->
     pruned !! buildWindowCacheKey scope session (cw_index w) (cw_id w)
     = cache !! buildWindowCacheKey scope session (cw_index w) (cw_id w))
  /\ (forall key,
        Js.startsWith key (sessionPrefix scope session) = true ->
        is_Some (pruned !! key) ->
        exists w, w ∈ W
          /\ key = buildWindowCacheKey scope session (cw_index w) (cw_id w))
  /\ (forall key v, pruned !! key = Some v -> cache !! key = Some v)
  /\ pruneWindowCache pruned scope session W = pruned.
Proof.
  cbn zeta. split; [|split; [|split]].
  - intros w Hw. rewrite pruneWindowCache_lookup.
    rewrite (bool_decide_eq_true_2 (_ ∈ keepSet scope session W)).
    + by rewrite andb_false_r.
    + apply keepSet_elem. by exists w.
  - intros key Hkey Hsome.
    rewrite pruneWindowCache_lookup, Hkey in Hsome. cbn [andb] in Hsome.
    destruct (bool_decide (key ∈ keepSet scope session W)) eqn:Hin.
    + apply bool_decide_eq_true_1 in Hin. by apply keepSet_elem in Hin.
    + cbn in Hsome. by destruct Hsome.
  - intros key v. rewrite pruneWindowCache_lookup.
    by destruct (Js.startsWith key _ && negb _).
  - apply map_eq. intros k. rewrite !pruneWindowCache_lookup.
    by destruct (Js.startsWith k _ && negb _).
Qed.

End PruneListedFacts.

Section PruneListedWitness.
Import WindowCache.

(** X3, witness: a cache with the panes of windows 0 and 1 of session
    [arc], pruned against a list that only has window 0; and the same
    cache pruned against the empty list. *)
Lemma pruneWindowCache_keeps_listed_witness :
  let cache : gmap string nat := <["local/arc/idx:0" := 1%nat]> {["local/arc/idx:1" := 2%nat]} in
  let w := {| cw_index := 0; cw_id := None |} in
  pruneWindowCache cache "local" "arc" [w]
    !! buildWindowCacheKey "local" "arc" (cw_index w) (cw_id w)
  = cache !! buildWindowCacheKey "local" "arc" (cw_index w) (cw_id w)
  /\ pruneWindowCache (pruneWindowCache cache "local" "arc" [w]) "local" "arc" [w]
     = pruneWindowCache cache "local" "arc" [w]
  /\ pruneWindowCache (pruneWindowCache cache "local" "arc" []) "local" "arc" []
     = pruneWindowCache cache "local" "arc" [].
Proof.
  cbn zeta.
  destruct (pruneWindowCache_keeps_listed
              (<["local/arc/idx:0" := 1%nat]> {["local/arc/idx:1" := 2%nat]})
              "local" "arc" [ {| cw_index := 0; cw_id := None |} ])
    as (H1 & _ & _ & H4).
  destruct (pruneWindowCache_keeps_listed
              (<["local/arc/idx:0" := 1%nat]> {["local/arc/idx:1" := 2%nat]})
              "local" "arc" [])
    as (_ & _ & _ & H5).
  split; [exact (H1 _ (list_elem_of_here _ _))|]. split; [exact H4|exact H5].
Defined.

End PruneListedWitness.

(** * A load whose token stays current *)

Section FreshLoadFacts.
Import Profile WindowCache Windows SessionLoad.
Local Open Scope list_scope.

(** The preferred window is the first active row, or the first row when
    none is active. *)
Lemma preferredOf_first_active normalized p :
  preferredOf normalized = Some p ->
  (active p = true
   /\ exists pre post, normalized = pre ++ p :: post
        /\ Forall (fun w => active w = false) pre)
  \/ (Forall (fun w => active w = false) normalized /\ head normalized = Some p).
Proof.
  unfold preferredOf. induction normalized as [|x l IH]; [done|].
  cbn [List.find]. destruct (active x) eqn:Hx.
  - intros [= <-]. left. split; [done|]. exists [], l. by split.
  - destruct (List.find active l) as [q|] eqn:Hf.
    + intros [= <-]. destruct (IH eq_refl) as [(Hq & pre & post & -> & Hpre)|[Hall Hhd]].
      * left. split; [done|]. exists (x :: pre), post. split; [done|]. by constructor.
      * left. apply find_some in Hf as [_ Hq]. split; [done|].
        assert (exists pre post, l = pre ++ q :: post
                  /\ Forall (fun w => active w = false) pre) as (pre & post & -> & Hpre).
        { destruct l as [|y l']; [done|]. cbn in Hhd. injection Hhd as ->.
          exists [], l'. by split. }
        exists (x :: pre), post. split; [done|]. by constructor.
    + intros [= <-]. right. split; [|done]. constructor; [done|].
      apply Forall_forall. intros w Hw. apply list_elem_of_In in Hw.
      pose proof (find_none _ _ Hf w Hw) as H. by destruct (active w).
Qed.

Lemma stale_current c st : token c = remoteSessionToken st -> stale c st = false.
Proof. intros H. unfold stale. by rewrite bool_decide_eq_true_2. Qed.

(** X17. A [selectSession] load whose token is still the current one
    each time one of its two calls settles, whatever other handlers did
    to the state in between, always clears [pollPaused] and
    [sessionLoading]. When the window list arrives it is normalised and
    cached; with no window the selection is cleared, a blank pane is
    shown and the status line reports it; otherwise the load waits for
    the pane of the preferred window, the first row marked active or,
    when none is, the first row. When that pane arrives the normalised
    list is shown, the selection points at the preferred window, the
    pane text (one space when it is empty) is shown and is in the pane
    cache under the window's key after the pruning, every pane entry
    left under the session's prefix belongs to a listed window, and the
    status line is cleared. A failure of either call is reported on the
    status line and in the pane. *)
Theorem fresh_load_publishes (c : Ctx) (r1 : Outcome (list TmuxWindow))
    (r2 : Outcome string) (st mid : State) :
  token c = remoteSessionToken st ->
  token c = remoteSessionToken mid ->
  match afterWindows c r1 st with
  | Finished st' =>
      pollPaused st' = false /\ sessionLoading st' = false
      /\ match r1 with
         | Failed raw =>
             msg st' = MsgLoadFailed (sessionName c) raw
             /\ paneText st' = "<< " +:+ raw +:+ " >>"
         | Fulfilled raw =>
             (normalizeWindows (mode c) (sessionName c) raw (nameCache st)).1 = []
             /\ windows st' = [] /\ windowsCache st' !! cacheKey c = Some []
             /\ activeWin st' = None /\ activeWinRef st' = None
             /\ activeWinId st' = None /\ activeWinIdRef st' = None
             /\ paneText st' = " "
             /\ msg st' = MsgNoWindows (sessionName c)
         end
  | AwaitingPane st1 normalized p =>
      (exists raw, r1 = Fulfilled raw
         /\ normalized = (normalizeWindows (mode c) (sessionName c) raw (nameCache st)).1)
      /\ windowsCache st1 !! cacheKey c = Some normalized
      /\ remoteSessionToken st1 = remoteSessionToken st
      /\ p ∈ normalized
      /\ ((active p = true
           /\ exists pre post, normalized = pre ++ p :: post
                /\ Forall (fun w => active w = false) pre)
          \/ (Forall (fun w => active w = false) normalized
              /\ head normalized = Some p))
      /\ let st' := afterPane c normalized p r2 mid in
         pollPaused st' = false /\ sessionLoading st' = false
         /\ match r2 with
            | Failed raw =>
                msg st' = MsgLoadFailed (sessionName c) raw
                /\ paneText st' = "<< " +:+ raw +:+ " >>"
            | Fulfilled pane =>
                let shown := if bool_decide (pane = EmptyString) then " " else pane in
                windows st' = normalized
                /\ activeWin st' = Some (index p) /\ activeWinRef st' = Some (index p)
                /\ activeWinId st' = id p /\ activeWinIdRef st' = id p
                /\ paneText st' = shown
                /\ paneCache st' !! paneKey c p = Some shown
                /\ (forall key, is_Some (paneCache st' !! key) ->
                      Js.startsWith key (sessionPrefix (scope c) (sessionName c)) = true ->
                      exists w, w ∈ normalized /\ key = paneKey c w)
                /\ msg st' = MsgEmpty
            end
  end.
Proof.
  intros Htok Hmid.
  pose proof (stale_current c st Htok) as Hfresh.
  pose proof (stale_current c mid Hmid) as Hfreshmid.
  unfold afterWindows. destruct r1 as [raw|raw1].
  - rewrite Hfresh.
    destruct (normalizeWindows (mode c) (sessionName c) raw (nameCache st))
      as [normalized names] eqn:Hnorm.
    destruct (preferredOf normalized) as [p|] eqn:Hpref.
    + set (st1 := setWindowsCache _ (setNameCache names st)).
      set (st2 := match paneCache st1 !! paneKey c p with
                  | Some cached => if Js.truthy cached then setPaneText cached st1 else st1
                  | None => st1
                  end).
      assert (remoteSessionToken st2 = remoteSessionToken st
              /\ windowsCache st2 = <[cacheKey c := normalized]> (windowsCache st))
        as (Ht2 & Hw2).
      { unfold st2. destruct (paneCache st1 !! paneKey c p) as [cached|]; [|done].
        by destruct (Js.truthy cached). }
      split; [exists raw; by rewrite Hnorm|]. split; [by rewrite Hw2, lookup_insert_eq|].
      split; [exact Ht2|]. split; [by apply preferredOf_elem|].
      split; [by apply preferredOf_first_active|].
      cbn zeta. destruct r2 as [pane|raw2]; cbn [afterPane].
      * set (st3 := setPaneCache _ mid).
        assert (stale c st3 = false) as Hf3 by exact Hfreshmid.
        unfold publish. rewrite Hf3.
        destruct normalized as [|w0 rest] eqn:Hn; [done|]. rewrite <- Hn in *.
        rewrite finallyBlock_fresh by exact Hfreshmid.
        cbn [pollPaused sessionLoading remoteSessionToken windows windowsCache
             activeWin activeWinRef activeWinId activeWinIdRef paneText paneCache msg
             setPollPaused setSessionLoading setMsg setPaneText setActiveWinIdRef
             setActiveWinRef setActiveWinId setActiveWin setPaneCache setWindows st3].
        assert (orBlank pane = if bool_decide (pane = EmptyString) then " " else pane)
          as Hblank by (by destruct pane).
        rewrite <- Hblank.
        split; [done|]. split; [done|]. split; [done|].
        do 4 (split; [done|]). split; [done|].
        split; [|split; [|done]].
        -- rewrite pruneWindowCache_lookup.
           rewrite (bool_decide_eq_true_2 (paneKey c p ∈ _)).
           { rewrite andb_false_r. apply lookup_insert_eq. }
           apply keepSet_elem. exists (toCacheWindow p). split; [|done].
           apply list_elem_of_fmap. exists p. split; [done|]. by apply preferredOf_elem.
        -- intros key Hsome Hpre. rewrite pruneWindowCache_lookup, Hpre in Hsome.
           cbn [andb] in Hsome. case_bool_decide as Hin; [|by destruct Hsome].
           apply keepSet_elem in Hin as (cw & Hcw & ->).
           apply list_elem_of_fmap in Hcw as (w & -> & Hw). by exists w.
      * unfold catchBlock. rewrite Hfreshmid. rewrite finallyBlock_fresh by exact Hfreshmid.
        done.
    + set (st1 := setWindowsCache _ (setNameCache names st)).
      assert (stale c st1 = false) as Hf1 by exact Hfresh.
      unfold publish. rewrite Hf1.
      apply preferredOf_None in Hpref as Hnil. subst normalized.
      rewrite finallyBlock_fresh by exact Hfresh.
      split; [done|]. split; [done|]. split; [done|]. split; [done|].
      split; [apply lookup_insert_eq|]. done.
  - unfold catchBlock. rewrite Hfresh. rewrite finallyBlock_fresh by exact Hfresh.
    done.
Qed.

End FreshLoadFacts.

Section FreshLoadWitness.
Import Profile WindowCache Windows SessionLoad LoadExample.
Local Open Scope list_scope.

(** X17, witness: the load of session [arc] with token 1; while its
    pane is fetched the window list shown is emptied by another handler,
    and an empty pane arrives. *)
Lemma fresh_load_publishes_witness :
  let mid := setWindows [] (progressState listed) in
  let st' := afterPane ctx [shell] shell (Fulfilled EmptyString) mid in
  pollPaused st' = false /\ sessionLoading st' = false
  /\ windows st' = [shell] /\ paneText st' = " ".
Proof.
  pose proof (fresh_load_publishes ctx (Fulfilled [shell]) (Fulfilled EmptyString)
                requested (setWindows [] (progressState listed)) eq_refl eq_refl) as H.
  change (afterWindows ctx (Fulfilled [shell]) requested) with listed in H.
  assert (listed = AwaitingPane (progressState listed) [shell] shell) as Hl
    by (vm_compute; reflexivity).
  rewrite Hl in H. destruct H as (_ & _ & _ & _ & _ & H1 & H2 & H3 & _ & _ & _ & _ & H4 & _).
  cbn zeta. split; [exact H1|]. split; [exact H2|]. split; [exact H3|exact H4].
Defined.

End FreshLoadWitness.

(** * The merge of a raw window list *)

Section WindowsMergeClaim.
Import Profile WindowCache Windows Merge MergeTrace MergeFold.
Local Open Scope list_scope.

Lemma trimmedIdOf_default w : trimmedIdOf w = Js.trim (default EmptyString (id w)).
Proof. unfold trimmedIdOf. by destruct (id w). Qed.

(** Two rows have the same identity key exactly when their trimmed ids
    are equal and, when that id is empty, their indices are equal. *)
Lemma identityKey_same a b :
  identityKey a = identityKey b
  <-> Js.trim (default EmptyString (id a)) = Js.trim (default EmptyString (id b))
      /\ (Js.trim (default EmptyString (id a)) = EmptyString -> index a = index b).
Proof.
  unfold identityKey. cbn zeta. rewrite !trimmedIdOf_default. split.
  - intros H.
    destruct (Js.trim (default EmptyString (id a))) as [|c1 n1] eqn:E1,
             (Js.trim (default EmptyString (id b))) as [|c2 n2] eqn:E2;
      cbn [Js.truthy] in H.
    + split; [done|]. intros _. apply app_cancel_l in H. by apply (inj pretty).
    + by apply symmetry, id_base_ne_idx_base in H.
    + by apply id_base_ne_idx_base in H.
    + apply app_cancel_l in H. split; [done|]. discriminate.
  - intros [Hn Hi]. rewrite <- Hn.
    destruct (Js.trim (default EmptyString (id a))) as [|c1 n1] eqn:E1;
      cbn [Js.truthy]; [|done].
    by rewrite Hi.
Qed.

Lemma resolved_fields mode s r cache :
  index (resolved mode s r cache) = index r
  /\ active (resolved mode s r cache) = active r
  /\ panes (resolved mode s r cache) = panes r
  /\ id (resolved mode s r cache)
     = if Js.truthy (Js.trim (default EmptyString (id r)))
       then Some (Js.trim (default EmptyString (id r))) else id r.
Proof.
  unfold resolved, candidateOf. cbn [index active panes id].
  by rewrite trimmedIdOf_default.
Qed.

(** C7. For every raw window list and every name cache:
    the identity key of a row is its trimmed id when that is not empty
    and its index otherwise, so two rows share a key exactly when their
    trimmed ids are equal and, with an empty id, their indices are equal;
    the cache key of a name is per identity key. [normalizeWindows]
    returns one row per identity key of the input, sorted by index
    ascending. Every returned row is an input row resolved against the
    name cache as it stood when the row was met: index, active flag and
    pane count are the row's, the id is the trimmed id when that is not
    empty, and the name is the trimmed name, or, when that is empty, the
    non-empty name cached for the row's key (empty when there is none);
    every non-empty trimmed name is stored under the row's key, and the
    cache left by the call is the cache after the last row. When the
    cached names are trimmed, the row kept for an identity key is found
    by going through the resolved rows of that key in input order,
    replacing the kept row by a strictly longer-named one or, at equal
    length, by an active one when the kept row is not active; so of two
    rows with one identity key the one with the strictly longer resolved
    name is kept, and at equal lengths the active one. Two rows with id
    [@1] and names empty and [shell] merge into a row named [shell]; of
    two rows with equal names the active one is kept, whichever comes
    first; rows with different ids are both kept, in index order; and
    rows without id are told apart by index. *)
Theorem normalizeWindows_merge (mode : Mode) (s : string) (ws : list TmuxWindow)
    (names : gmap string string) :
  let out := (normalizeWindows mode s ws names).1 in
  let trimmedId (w : TmuxWindow) := Js.trim (default EmptyString (id w)) in
  let row i d n a := {| index := i; id := d; name := n; active := a; panes := 1 |} in
  (forall a b, identityKey a = identityKey b
               <-> trimmedId a = trimmedId b
                   /\ (trimmedId a = EmptyString -> index a = index b))
  /\ (forall a b, cacheKeyFor mode s a None = cacheKeyFor mode s b None
                  <-> identityKey a = identityKey b)
  /\ NoDup (identityKey <$> out)
  /\ (forall k, k ∈ identityKey <$> out <-> k ∈ identityKey <$> ws)
  /\ StronglySorted byIndex out
  /\ Forall (originates mode s names ws) out
  /\ (forall r cache,
        index (resolved mode s r cache) = index r
        /\ active (resolved mode s r cache) = active r
        /\ panes (resolved mode s r cache) = panes r
        /\ id (resolved mode s r cache)
           = (if Js.truthy (trimmedId r) then Some (trimmedId r) else id r)
        /\ name (resolved mode s r cache) =
             if Js.truthy (Js.trim (name r)) then Js.trim (name r)
             else match cache !! cacheKeyFor mode s r None with
                  | Some kept => if Js.truthy kept then kept else EmptyString
                  | None => EmptyString
                  end)
  /\ namesAfterRows mode s [] names = names
  /\ (forall pre r,
        namesAfterRows mode s (pre ++ [r]) names =
          if Js.truthy (Js.trim (name r))
          then <[cacheKeyFor mode s r None := Js.trim (name r)]>
                 (namesAfterRows mode s pre names)
          else namesAfterRows mode s pre names)
  /\ (normalizeWindows mode s ws names).2 = namesAfterRows mode s ws names
  /\ (trimmedNames names ->
      forall r, r ∈ out <->
        exists k, keptAmong (rowsOfKey k (resolvedRows mode s ws names)) = Some r)
  /\ (forall w cached,
        Js.trim (name w) = EmptyString ->
        names !! cacheKeyFor mode s w None = Some cached ->
        Js.truthy cached = true ->
        normalizeWindows mode s [w] names = ([candidateOf w cached], names))
  /\ (forall w1 w2,
        identityKey w1 = identityKey w2 ->
        (forall v, names !! cacheKeyFor mode s w1 None = Some v -> Js.trim v = v) ->
        (normalizeWindows mode s [w1; w2] names).1
        = [keptOfTwo (resolved mode s w1 names)
                     (resolved mode s w2 (namesAfter mode s w1 names))])
  /\ (normalizeWindows Local "arc"
        [row 0 (Some "@1") EmptyString false; row 0 (Some "@1") "shell" false] ∅).1
     = [row 0 (Some "@1") "shell" false]
  /\ (normalizeWindows Local "arc"
        [row 0 (Some "@1") "bash" false; row 0 (Some "@1") "bash" true] ∅).1
     = [row 0 (Some "@1") "bash" true]
  /\ (normalizeWindows Local "arc"
        [row 0 (Some "@1") "bash" true; row 0 (Some "@1") "bash" false] ∅).1
     = [row 0 (Some "@1") "bash" true]
  /\ (normalizeWindows Local "arc"
        [row 1 (Some "@2") "logs" false; row 0 (Some " @1 ") " sh " true] ∅).1
     = [row 0 (Some "@1") "sh" true; row 1 (Some "@2") "logs" false]
  /\ (normalizeWindows Local "arc"
        [row 1 None "b" false; row 0 None "a" false; row 1 (Some "  ") "bb" false] ∅).1
     = [row 0 None "a" false; row 1 (Some "  ") "bb" false].
Proof.
  cbn zeta.
  pose proof (groupRows_grouped mode s ws names) as (Hnd & Hkeys & _).
  split; [apply identityKey_same|].
  split.
  { intros a b. rewrite !cacheKeyFor_identityKey. split; [apply app_cancel_l|].
    by intros ->. }
  split; [by rewrite normalizeWindows_keys|].
  split.
  { intros k. by rewrite normalizeWindows_keys, Hkeys. }
  split.
  { unfold normalizeWindows. destruct (groupRows mode s ws names).
    apply sortByIndex_sorted. }
  split; [apply normalizeWindows_originates|].
  split.
  { intros r cache. destruct (resolved_fields mode s r cache) as (H1 & H2 & H3 & H4).
    repeat (split; [done|]). apply resolved_name. }
  split; [reflexivity|].
  split.
  { intros pre r. by rewrite namesAfterRows_snoc, namesAfter_cases. }
  split.
  { unfold normalizeWindows, namesAfterRows. by destruct (groupRows mode s ws names). }
  split; [intros Hall r; by apply normalizeWindows_kept|].
  split; [intros w cached; apply normalizeWindows_sticky|].
  split; [intros w1 w2; apply normalizeWindows_two|].
  split; [vm_compute; reflexivity|]. split; [vm_compute; reflexivity|].
  split; [vm_compute; reflexivity|]. split; vm_compute; reflexivity.
Qed.

End WindowsMergeClaim.

Section WindowsMergeWitness.
Import Profile Windows Merge MergeFold.
Local Open Scope list_scope.

(** C7, witness: a blank-named row with a cached name, and two rows of
    identity [@2] with names of different lengths. *)
Lemma normalizeWindows_merge_witness :
  let names : gmap string string :=
    <[ "local/arc/id:@2" := "vim" ]> {[ "local/arc/id:@1" := "shell" ]} in
  let blank := {| index := 1; id := Some " @1 "; name := "  "; active := false; panes := 1 |} in
  let long := {| index := 2; id := Some "@2"; name := "editor"; active := false; panes := 1 |} in
  let short := {| index := 0; id := Some "@2"; name := "vi"; active := true; panes := 2 |} in
  normalizeWindows Local "arc" [blank] names
    = ([candidateOf blank "shell"], names)
  /\ (normalizeWindows Local "arc" [long; short] names).1
    = [keptOfTwo (resolved Local "arc" long names)
                 (resolved Local "arc" short (namesAfter Local "arc" long names))]
  /\ StronglySorted byIndex (normalizeWindows Local "arc" [long; blank; short] names).1.
Proof.
  cbn zeta.
  destruct (normalizeWindows_merge Local "arc"
              [ {| index := 2; id := Some "@2"; name := "editor"; active := false; panes := 1 |};
                {| index := 1; id := Some " @1 "; name := "  "; active := false; panes := 1 |};
                {| index := 0; id := Some "@2"; name := "vi"; active := true; panes := 2 |} ]
              (<[ "local/arc/id:@2" := "vim" ]> {[ "local/arc/id:@1" := "shell" ]}))
    as (_ & _ & _ & _ & Hsorted & _ & _ & _ & _ & _ & _ & Hsticky & Htwo & _).
  split.
  { apply (Hsticky {| index := 1; id := Some " @1 "; name := "  "; active := false;
                      panes := 1 |} "shell"); [reflexivity|vm_compute; reflexivity|reflexivity]. }
  split; [|exact Hsorted].
  apply (Htwo {| index := 2; id := Some "@2"; name := "editor"; active := false; panes := 1 |}
              {| index := 0; id := Some "@2"; name := "vi"; active := true; panes := 2 |});
    [reflexivity|].
  intros v Hv. vm_compute in Hv. injection Hv as <-. reflexivity.
Defined.

End WindowsMergeWitness.

(** * Payload decoding against the rules *)

Section DecodeRuleFacts.
Import Decode DecodeMore ReferenceDecode ClaimedDecode.
Local Open Scope list_scope.

Lemma isDigit_decimal d : isDigit d = true <-> decimalDigit d.
Proof.
  unfold isDigit, decimalDigit. rewrite andb_true_iff, !N.leb_le. done.
Qed.

Lemma isOctalDigit_octal d : isOctalDigit d = true <-> octalDigit d.
Proof.
  unfold isOctalDigit, octalDigit. rewrite andb_true_iff, !N.leb_le. done.
Qed.

Lemma isOctalDigit_decimal d :
  decimalDigit d -> isOctalDigit d = negb (55 <? d)%N.
Proof.
  unfold decimalDigit, isOctalDigit. intros [H1 H2].
  rewrite (proj2 (N.leb_le _ _) H1). cbn [andb].
  destruct (N.ltb_spec 55 d); [apply N.leb_gt|apply N.leb_le]; lia.
Qed.

(** What [String.fromCharCode(parseInt(digits, 8))] yields for three
    decimal digits. *)
Lemma fromCharCode_parseInt8 d1 d2 d3 :
  decimalDigit d1 -> decimalDigit d2 -> decimalDigit d3 ->
  fromCharCode (parseInt8 [d1; d2; d3]) = escapeValue d1 d2 d3.
Proof.
  intros H1 H2 H3. unfold parseInt8, parseOctalFrom, escapeValue.
  rewrite !isOctalDigit_decimal by done.
  unfold decimalDigit in *.
  destruct (N.ltb_spec 55 d1); cbn [negb]; [done|].
  destruct (N.ltb_spec 55 d2); cbn [negb].
  { unfold fromCharCode. rewrite N.mod_small by lia. lia. }
  destruct (N.ltb_spec 55 d3); cbn [negb];
    unfold fromCharCode; rewrite N.mod_small by lia; lia.
Qed.

Lemma startsEscape_test c t :
  startsEscape (c :: t) <->
  match t with
  | d1 :: d2 :: d3 :: _ =>
      (c =? backslash)%N && isDigit d1 && isDigit d2 && isDigit d3 = true
  | _ => False
  end.
Proof.
  unfold startsEscape. split.
  - intros (d1 & d2 & d3 & rest & [= -> ->] & H1 & H2 & H3).
    apply isDigit_decimal in H1, H2, H3. by rewrite H1, H2, H3.
  - destruct t as [|d1 [|d2 [|d3 rest]]]; try done. intros H.
    apply andb_true_iff in H as [H H3]. apply andb_true_iff in H as [H H2].
    apply andb_true_iff in H as [Hc H1]. apply N.eqb_eq in Hc. subst c.
    exists d1, d2, d3, rest. by rewrite <- !isDigit_decimal.
Qed.

Lemma replaceOctal_keep c t :
  ~ startsEscape (c :: t) -> replaceOctal (c :: t) = c :: replaceOctal t.
Proof.
  rewrite startsEscape_test, replaceOctal_cons.
  destruct t as [|d1 [|d2 [|d3 rest]]]; try done.
  by destruct ((c =? backslash)%N && isDigit d1 && isDigit d2 && isDigit d3).
Qed.

Lemma replaceOctal_at_escape d1 d2 d3 rest :
  decimalDigit d1 -> decimalDigit d2 -> decimalDigit d3 ->
  replaceOctal (92%N :: d1 :: d2 :: d3 :: rest)
  = escapeValue d1 d2 d3 :: replaceOctal rest.
Proof.
  intros H1 H2 H3. rewrite replaceOctal_cons.
  rewrite (proj2 (isDigit_decimal d1) H1), (proj2 (isDigit_decimal d2) H2),
          (proj2 (isDigit_decimal d3) H3).
  cbn [N.eqb Pos.eqb backslash andb]. by rewrite fromCharCode_parseInt8.
Qed.

Lemma startsEscape_dec c t : startsEscape (c :: t) \/ ~ startsEscape (c :: t).
Proof.
  rewrite startsEscape_test.
  destruct t as [|d1 [|d2 [|d3 rest]]]; try (right; tauto).
  destruct ((c =? backslash)%N && isDigit d1 && isDigit d2 && isDigit d3);
    [by left|by right].
Qed.

Lemma OctalPass_replaceOctal s : OctalPass s (replaceOctal s).
Proof.
  remember (List.length s) as n eqn:Hn. revert s Hn.
  induction n as [n IH] using lt_wf_ind. intros s ->.
  destruct s as [|c t]; [constructor|].
  destruct (startsEscape_dec c t) as [He|He].
  - destruct He as (d1 & d2 & d3 & rest & [= -> ->] & H1 & H2 & H3).
    rewrite replaceOctal_at_escape by done. constructor; try done.
    apply (IH (List.length rest)); [cbn; lia|done].
  - rewrite replaceOctal_keep by done. constructor; [done|].
    apply (IH (List.length t)); [cbn; lia|done].
Qed.

Lemma OctalPass_fun s mid : OctalPass s mid -> mid = replaceOctal s.
Proof.
  induction 1 as [|d1 d2 d3 rest out H1 H2 H3 _ IH|c rest out Hno _ IH].
  - done.
  - rewrite replaceOctal_at_escape by done. by rewrite IH.
  - rewrite replaceOctal_keep by done. by rewrite IH.
Qed.

Lemma startsPair_test c t :
  startsPair (c :: t) <->
  match t with
  | c' :: _ => (c =? backslash)%N && (c' =? backslash)%N = true
  | [] => False
  end.
Proof.
  unfold startsPair. split.
  - by intros (rest & [= -> ->]).
  - destruct t as [|c' rest]; [done|]. intros H.
    apply andb_true_iff in H as [Hc Hc']. apply N.eqb_eq in Hc, Hc'. subst.
    by exists rest.
Qed.

Lemma collapseBackslashes_keep c t :
  ~ startsPair (c :: t) -> collapseBackslashes (c :: t) = c :: collapseBackslashes t.
Proof.
  rewrite startsPair_test, collapseBackslashes_cons.
  destruct t as [|c' rest]; [done|].
  by destruct ((c =? backslash)%N && (c' =? backslash)%N).
Qed.

Lemma PairPass_collapseBackslashes s : PairPass s (collapseBackslashes s).
Proof.
  remember (List.length s) as n eqn:Hn. revert s Hn.
  induction n as [n IH] using lt_wf_ind. intros s ->.
  destruct s as [|c t]; [constructor|].
  destruct t as [|c' rest].
  { apply (pair_keep c [] []); [|constructor]. by intros (rest & [=]). }
  destruct ((c =? backslash)%N && (c' =? backslash)%N) eqn:Hcc.
  - apply andb_true_iff in Hcc as [Hc Hc']. apply N.eqb_eq in Hc, Hc'. subst.
    rewrite collapseBackslashes_cons. cbn [N.eqb Pos.eqb backslash andb].
    constructor. apply (IH (List.length rest)); [cbn; lia|done].
  - assert (~ startsPair (c :: c' :: rest)) as Hno.
    { rewrite startsPair_test. by rewrite Hcc. }
    rewrite collapseBackslashes_keep by done. constructor; [done|].
    apply (IH (List.length (c' :: rest))); [cbn; lia|done].
Qed.

Lemma PairPass_fun s out : PairPass s out -> out = collapseBackslashes s.
Proof.
  induction 1 as [|rest out _ IH|c rest out Hno _ IH].
  - done.
  - rewrite collapseBackslashes_cons. cbn [N.eqb Pos.eqb backslash andb]. by rewrite IH.
  - rewrite collapseBackslashes_keep by done. by rewrite IH.
Qed.

Lemma decodeTmuxData_passes chunks out :
  decodeTmuxData chunks = out
  <-> exists mid, OctalPass (List.concat chunks) mid /\ PairPass mid out.
Proof.
  unfold decodeTmuxData, joinChunks. cbv zeta. split.
  - intros <-. exists (replaceOctal (List.concat chunks)). split.
    + apply OctalPass_replaceOctal.
    + apply PairPass_collapseBackslashes.
  - intros (mid & H1 & H2). apply OctalPass_fun in H1. apply PairPass_fun in H2.
    by subst.
Qed.

Lemma escapeValue_octal d1 d2 d3 :
  octalDigit d1 -> octalDigit d2 -> octalDigit d3 ->
  escapeValue d1 d2 d3 = (64 * (d1 - 48) + 8 * (d2 - 48) + (d3 - 48))%N.
Proof.
  unfold octalDigit, escapeValue. intros H1 H2 H3.
  destruct (N.ltb_spec 55 d1); [lia|].
  destruct (N.ltb_spec 55 d2); [lia|].
  destruct (N.ltb_spec 55 d3); [lia|done].
Qed.

Lemma octal_is_decimal d : octalDigit d -> decimalDigit d.
Proof. unfold octalDigit, decimalDigit. lia. Qed.

Lemma decode_single_escape d1 d2 d3 :
  octalDigit d1 -> octalDigit d2 -> octalDigit d3 ->
  decodeTmuxData [[92%N; d1; d2; d3]]
  = [(64 * (d1 - 48) + 8 * (d2 - 48) + (d3 - 48))%N].
Proof.
  intros H1 H2 H3. unfold decodeTmuxData, joinChunks. cbv zeta.
  cbn [List.concat app].
  rewrite replaceOctal_at_escape by by apply octal_is_decimal.
  rewrite escapeValue_octal by done. reflexivity.
Qed.

(** C6, counterexample. The escape [\777] is made of three octal digits,
    yet it decodes to the code unit 511, which is no byte. *)
Lemma escape_777_is_no_byte :
  octalDigit 55%N
  /\ decodeTmuxData [ofString "\777"] = [511%N]
  /\ ~ (511 < 256)%N
  /\ ~ escapesDecodeToBytes.
Proof.
  split; [unfold octalDigit; lia|]. split; [reflexivity|]. split; [lia|].
  intros H.
  destruct (H 55%N 55%N 55%N) as (b & Hb & Hd); try (unfold octalDigit; lia).
  vm_compute in Hd. injection Hd as <-. lia.
Qed.

(** C6, amended. For every list of accumulated lines, the decoded text is
    the one and only text obtained from their concatenation without a
    separator by the octal pass followed by the pair pass: the octal pass
    replaces, scanning from the left, each backslash followed by three
    decimal digits by one code unit and keeps every other code unit; the
    pair pass replaces each two backslashes in a row by one and keeps
    every other code unit. For three octal digits the code unit is
    64 a + 8 b + c, which is a byte exactly when the first digit is at
    most 3; a digit 8 or 9 ends the number where it stands, and the code
    unit is 0 when it is the first digit. The escape [\134] and a doubled
    backslash each decode to one backslash; an escape split over two
    lines is still an escape; two escapes [\134\134] decode to one
    backslash, the pair pass running on the result of the octal pass;
    text without a backslash is left as it is. *)
Theorem decodeTmuxData_spec (chunks : list jsstring) :
  (forall out, decodeTmuxData chunks = out
     <-> exists mid, OctalPass (List.concat chunks) mid /\ PairPass mid out)
  /\ (forall d1 d2 d3, octalDigit d1 -> octalDigit d2 -> octalDigit d3 ->
        escapeValue d1 d2 d3 = (64 * (d1 - 48) + 8 * (d2 - 48) + (d3 - 48))%N
        /\ ((escapeValue d1 d2 d3 < 256)%N <-> (d1 <= 51)%N)
        /\ decodeTmuxData [[92%N; d1; d2; d3]] = [escapeValue d1 d2 d3])
  /\ (forall d1 d2 d3, decimalDigit d1 -> decimalDigit d2 -> decimalDigit d3 ->
        ((56 <= d1)%N -> escapeValue d1 d2 d3 = 0%N)
        /\ ((d1 <= 55)%N -> (56 <= d2)%N -> escapeValue d1 d2 d3 = (d1 - 48)%N)
        /\ ((d1 <= 55)%N -> (d2 <= 55)%N -> (56 <= d3)%N ->
            escapeValue d1 d2 d3 = (8 * (d1 - 48) + (d2 - 48))%N))
  /\ decodeTmuxData [ofString "\134"] = [92%N]
  /\ decodeTmuxData [ofString "\\"] = [92%N]
  /\ decodeTmuxData [ofString "\1"; ofString "34"] = [92%N]
  /\ decodeTmuxData [ofString "\134\134"] = [92%N]
  /\ decodeTmuxData [ofString "a\040b"; ofString "\\c"] = ofString "a b\c"
  /\ decodeTmuxData [ofString "total 8 files"] = ofString "total 8 files"
  /\ decodeTmuxData [ofString "\777"] = [511%N]
  /\ decodeTmuxData [ofString "\189"] = [1%N]
  /\ decodeTmuxData [ofString "\900"] = [0%N]
  /\ decodeTmuxData [ofString "\12"] = ofString "\12".
Proof.
  split; [intros out; apply decodeTmuxData_passes|].
  split.
  { intros d1 d2 d3 H1 H2 H3. split; [by apply escapeValue_octal|]. split.
    - rewrite escapeValue_octal by done. unfold octalDigit in *. lia.
    - rewrite decode_single_escape by done. by rewrite escapeValue_octal. }
  split.
  { intros d1 d2 d3 H1 H2 H3. unfold decimalDigit, escapeValue in *.
    repeat split; intros;
      repeat match goal with
             | |- context [(55 <? ?d)%N] => destruct (N.ltb_spec 55 d)
             end; lia. }
  repeat split; reflexivity.
Qed.

End DecodeRuleFacts.
